(** * AIService: call resilience, JSON text repair and local synthesis

    A shallow embedding of [services/AIService.js] (the resume builder's
    AI service) and the properties of its specification.

    Conventions of the embedding.
    - JavaScript strings are [string]s; the embedding is exact on ASCII
      text (whitespace and case mapping are the ASCII ones, [String.length]
      counts bytes).
    - JavaScript numbers that the code computes with are integers ([Z]) or
      exact rationals ([Q]); the completeness ratio, whose value depends on
      binary64 rounding, is computed with primitive floats.
    - The service object ([this]) and the outside world (clock, remote
      model) are threaded explicitly through a state-and-exception monad.
    - Runtime built-ins that are not code of the repository ([JSON.parse],
      [parseFloat], [Date] formatting, number formatting) are the fields of
      the [Runtime] class. *)

From Stdlib Require Import ZArith QArith Qround Lia Lqa List Bool Ascii String.
From Stdlib Require Import Floats.PrimFloat.
From Stdlib Require DecimalString.
From stdpp Require Import gmap strings.
Import ListNotations.

Local Open Scope string_scope.
Local Open Scope Z_scope.

(** ** JavaScript values *)

#[local] Set Warnings "-register-all".

(** A number is the rational value of its binary64 (there is no [NaN]
    and no infinity among the values that the modelled code handles: a
    clamp treats an overflowing number as it treats a large one). *)
Inductive JsVal : Type :=
| JUndef
| JNull
| JBool (b : bool)
| JNum (q : Q)
| JStr (s : string)
| JArr (items : list JsVal)
| JObj (fields : list (string * JsVal)).

(** An [Error] object: its [message] and, for provider errors, a [status]. *)
Record JsError := mkError { message : string; status : option Z }.

Definition Error (msg : string) : JsError := mkError msg None.

(** Boolean coercion of a value ([if (v)], [v || w], [!v]). *)
Definition truthy (v : JsVal) : bool :=
  match v with
  | JUndef | JNull => false
  | JBool b => b
  | JNum q => negb (Qeq_bool q 0)
  | JStr s => negb (String.eqb s "")
  | JArr _ | JObj _ => true
  end.

(** [a || b] *)
Definition js_or (a b : JsVal) : JsVal := if truthy a then a else b.

Fixpoint assoc (k : string) (fs : list (string * JsVal)) : option JsVal :=
  match fs with
  | [] => None
  | (k', v) :: fs' => if String.eqb k k' then Some v else assoc k fs'
  end.

(** Property read [v.k] for a data property [k]: a [TypeError] on
    [undefined] and [null], [undefined] when the property is missing. *)
Definition getProp (k : string) (v : JsVal) : JsError + JsVal :=
  match v with
  | JUndef | JNull =>
      inl (Error "Cannot read properties of undefined or null")
  | JObj fs => inr (match assoc k fs with Some x => x | None => JUndef end)
  | _ => inr JUndef
  end.

(** The keys of an object literal, in order. *)
Definition keys (v : JsVal) : list string :=
  match v with
  | JObj fs => map fst fs
  | _ => []
  end.

(** [typeof]-like shape of a value ([Array.isArray] separates arrays). *)
Inductive Shape := ShUndefined | ShNull | ShBoolean | ShNumber | ShString
                 | ShArray | ShObject.

Definition shape (v : JsVal) : Shape :=
  match v with
  | JUndef => ShUndefined
  | JNull => ShNull
  | JBool _ => ShBoolean
  | JNum _ => ShNumber
  | JStr _ => ShString
  | JArr _ => ShArray
  | JObj _ => ShObject
  end.

(** The structural schema of a result: its fields with their shapes. *)
Definition schema (v : JsVal) : list (string * Shape) :=
  match v with
  | JObj fs => map (fun kv => (fst kv, shape (snd kv))) fs
  | _ => []
  end.

Definition isArray (v : JsVal) : bool :=
  match v with JArr _ => true | _ => false end.

Definition JStrs (l : list string) : JsVal := JArr (map JStr l).

(** ** Runtime built-ins *)

Class Runtime := {
  (** [JSON.parse]; [None] is a [SyntaxError]. *)
  JSON_parse : string -> option JsVal;
  (** [parseFloat]; [None] is [NaN]. *)
  parseFloat : string -> option Q;
  (** [new Date(t).toDateString()] for the epoch time [t] (ms). *)
  toDateString : Z -> string;
  (** [new Date(t).toISOString()] *)
  toISOString : Z -> string;
  (** Number to string conversion in a template literal. *)
  numberToString : Q -> string
}.

(** ** String helpers (ASCII) *)

Definition chars (s : string) : list ascii := list_ascii_of_string s.
Definition str (l : list ascii) : string := string_of_list_ascii l.

Definition code (c : ascii) : N := N_of_ascii c.

(** White space as matched by [\s] and stripped by [trim], in ASCII text.
    JavaScript also counts U+00A0, U+FEFF, U+2028 and other characters
    outside ASCII as white space; texts with such characters are outside
    this development. *)
Definition is_ws (c : ascii) : bool :=
  let n := code c in
  ((9 <=? n) && (n <=? 13))%N || (n =? 32)%N.

(** Control characters [[\x00-\x1F\x7F]]. *)
Definition is_control (c : ascii) : bool :=
  let n := code c in (n <=? 31)%N || (n =? 127)%N.

Fixpoint dropWhile {A} (p : A -> bool) (l : list A) : list A :=
  match l with
  | [] => []
  | x :: l' => if p x then dropWhile p l' else l
  end.

Fixpoint takeWhile {A} (p : A -> bool) (l : list A) : list A :=
  match l with
  | [] => []
  | x :: l' => if p x then x :: takeWhile p l' else []
  end.

Definition trimStart (l : list ascii) : list ascii := dropWhile is_ws l.
Definition trimEnd (l : list ascii) : list ascii :=
  rev (dropWhile is_ws (rev l)).
Definition trimL (l : list ascii) : list ascii := trimEnd (trimStart l).
Definition trim (s : string) : string := str (trimL (chars s)).

Fixpoint prefixb (p l : list ascii) : bool :=
  match p, l with
  | [], _ => true
  | _ :: _, [] => false
  | a :: p', b :: l' => Ascii.eqb a b && prefixb p' l'
  end.

Definition suffixb (p l : list ascii) : bool := prefixb (rev p) (rev l).

(** [l.includes(p)] *)
Fixpoint includesL (p l : list ascii) : bool :=
  prefixb p l ||
  match l with
  | [] => false
  | _ :: l' => includesL p l'
  end.

Definition includes (s p : string) : bool := includesL (chars p) (chars s).

Definition startsWith (s p : string) : bool := prefixb (chars p) (chars s).

Definition lower (c : ascii) : ascii :=
  let n := code c in
  if ((65 <=? n) && (n <=? 90))%N then ascii_of_N (n + 32) else c.

Definition toLowerCase (s : string) : string := str (map lower (chars s)).

(** [l.join(sep)] *)
Fixpoint join (sep : string) (l : list string) : string :=
  match l with
  | [] => ""
  | [x] => x
  | x :: l' => x ++ sep ++ join sep l'
  end.

(** [l.slice(0, n)] *)
Definition slice0 {A} (n : nat) (l : list A) : list A := firstn n l.

Definition strlen (s : string) : Z := Z.of_nat (String.length s).

(** ** The service object and the outside world *)

Inductive CircuitState := CLOSED | OPEN | HALF_OPEN.

Definition CircuitState_eqb (a b : CircuitState) : bool :=
  match a, b with
  | CLOSED, CLOSED | OPEN, OPEN | HALF_OPEN, HALF_OPEN => true
  | _, _ => false
  end.

(** The object that [getCacheKey] serialises with [JSON.stringify]:
    role, isFresher, skillsCount, experienceCount, projectsCount,
    educationField.  [JSON.stringify] is injective on objects of this fixed
    shape, so the tuple stands for its serialisation. *)
Definition CacheKey : Type := (string * bool * nat * nat * nat * string)%type.

(** The fields that the constructor of [AIService] initialises. *)
Record AIService := mkAIService {
  genAI : bool;                 (* [this.genAI !== null] *)
  circuitState : CircuitState;
  failureCount : Z;
  nextTry : Z;
  failureThreshold : Z;
  resetTimeout : Z;
  cache : gmap CacheKey JsVal;
  lastApiCall : Z;
  minCallInterval : Z;
  dailyCallCount : Z;
  dailyCallLimit : Z;
  lastResetDate : string
}.

(** What one call of the remote model does: it answers with a text or
    rejects with an error, after [latency] milliseconds. *)
Inductive RemoteOutcome :=
| Respond (latency : Z) (text : string)
| Reject (latency : Z) (err : JsError).

(** The world outside the service: the clock read by [Date.now()], the
    number of calls of [model.generateContent] made so far, what the
    remote model does at each call, and the draws of [Math.random()]. *)
Record World := mkWorld {
  clock : Z;
  remoteCalls : nat;
  remote : nat -> RemoteOutcome;
  randomDraws : nat;
  random : nat -> Q
}.

(** Time passes. *)
Definition advance (d : Z) (w : World) : World :=
  mkWorld (clock w + d) (remoteCalls w) (remote w) (randomDraws w) (random w).

(** One more call of the remote model. *)
Definition called (w : World) : World :=
  mkWorld (clock w) (S (remoteCalls w)) (remote w) (randomDraws w) (random w).

(** One more draw of [Math.random()]. *)
Definition drawn (w : World) : World :=
  mkWorld (clock w) (remoteCalls w) (remote w) (S (randomDraws w)) (random w).

Record St := mkSt { svc : AIService; world : World }.

(** [new AIService()] at time [t0]; [key] tells whether
    [GOOGLE_AI_API_KEY] is configured. *)
Definition newAIService `{Runtime} (key : bool) (t0 : Z) : AIService :=
  {| genAI := key;
     circuitState := CLOSED;
     failureCount := 0;
     nextTry := 0;
     failureThreshold := 3;
     resetTimeout := 60000;
     cache := ∅;
     lastApiCall := 0;
     minCallInterval := 1000;
     dailyCallCount := 0;
     dailyCallLimit := 15;
     lastResetDate := toDateString t0 |}.

Definition set_circuit (a : AIService) (c : CircuitState) (fc nt : Z)
  : AIService :=
  {| genAI := genAI a; circuitState := c; failureCount := fc; nextTry := nt;
     failureThreshold := failureThreshold a; resetTimeout := resetTimeout a;
     cache := cache a; lastApiCall := lastApiCall a;
     minCallInterval := minCallInterval a;
     dailyCallCount := dailyCallCount a; dailyCallLimit := dailyCallLimit a;
     lastResetDate := lastResetDate a |}.

Definition set_governor (a : AIService) (lc dc : Z) (d : string)
  : AIService :=
  {| genAI := genAI a; circuitState := circuitState a;
     failureCount := failureCount a; nextTry := nextTry a;
     failureThreshold := failureThreshold a; resetTimeout := resetTimeout a;
     cache := cache a; lastApiCall := lc;
     minCallInterval := minCallInterval a;
     dailyCallCount := dc; dailyCallLimit := dailyCallLimit a;
     lastResetDate := d |}.

Definition set_cache (a : AIService) (c : gmap CacheKey JsVal) : AIService :=
  {| genAI := genAI a; circuitState := circuitState a;
     failureCount := failureCount a; nextTry := nextTry a;
     failureThreshold := failureThreshold a; resetTimeout := resetTimeout a;
     cache := c; lastApiCall := lastApiCall a;
     minCallInterval := minCallInterval a;
     dailyCallCount := dailyCallCount a; dailyCallLimit := dailyCallLimit a;
     lastResetDate := lastResetDate a |}.

(** ** The monad of service methods: state and exceptions *)

Definition M (A : Type) : Type := St -> (JsError + A) * St.

Definition ret {A} (x : A) : M A := fun s => (inr x, s).

Definition bind {A B} (m : M A) (k : A -> M B) : M B :=
  fun s => match m s with
           | (inl e, s') => (inl e, s')
           | (inr x, s') => k x s'
           end.

Definition throw {A} (e : JsError) : M A := fun s => (inl e, s).

(** [try { m } catch (error) { h error }] *)
Definition try_catch {A} (m : M A) (h : JsError -> M A) : M A :=
  fun s => match m s with
           | (inl e, s') => h e s'
           | (inr x, s') => (inr x, s')
           end.

Notation "'let*' x ':=' m 'in' k" := (bind m (fun x => k))
  (at level 10, x pattern, m at level 100, k at level 200).

(** Code that does not touch the service object has a plain outcome: the
    error it throws or its value. *)
Definition bindE {A B} (r : JsError + A) (k : A -> JsError + B) : JsError + B :=
  match r with
  | inl e => inl e
  | inr x => k x
  end.

Notation "'let+' x ':=' r 'in' k" := (bindE r (fun x => k))
  (at level 10, x pattern, r at level 100, k at level 200).

(** [l.map(f)]: the callback runs on the items in order, and the first
    error it throws ends the loop. *)
Fixpoint mapE {A B} (f : A -> JsError + B) (l : list A) : JsError + list B :=
  match l with
  | [] => inr []
  | x :: l' =>
      let+ y := f x in
      let+ ys := mapE f l' in
      inr (y :: ys)
  end.

(** Lifting of a computation that may throw. *)
Definition liftE {A} (r : JsError + A) : M A :=
  match r with
  | inl e => throw e
  | inr x => ret x
  end.

Definition this : M AIService := fun s => (inr (svc s), s).

Definition update (f : AIService -> AIService) : M unit :=
  fun s => (inr tt, mkSt (f (svc s)) (world s)).

(** [Date.now()] *)
Definition Date_now : M Z := fun s => (inr (clock (world s)), s).

(** [new Date().toDateString()] *)
Definition Date_today `{Runtime} : M string :=
  fun s => (inr (toDateString (clock (world s))), s).

(** [await new Promise(resolve => setTimeout(resolve, ms))] *)
Definition sleep (ms : Z) : M unit :=
  fun s => (inr tt, mkSt (svc s) (advance ms (world s))).

(** [Math.random()] *)
Definition Math_random : M Q :=
  fun s => (inr (random (world s) (randomDraws (world s))),
            mkSt (svc s) (drawn (world s))).

(** [await model.generateContent(prompt)] followed by
    [result.response.text()], raced against a timer when [timeout] is
    given: [Promise.race([model.generateContent(prompt), <timer>])].
    The prompt only feeds the remote model, whose behaviour is the
    world's [remote]. *)
Definition generateContent (timeout : option (Z * string)) : M string :=
  fun s =>
    let w := world s in
    let after d := mkSt (svc s) (advance d (called w)) in
    let settle o :=
      match o with
      | Respond d text => (inr text, after d)
      | Reject d err => (inl err, after d)
      end in
    let o := remote w (remoteCalls w) in
    let d := match o with Respond d _ | Reject d _ => d end in
    match timeout with
    | Some (limit, msg) =>
        if limit <=? d then (inl (Error msg), after limit) else settle o
    | None => settle o
    end.

(** ** Quota and rate governor *)

Definition isDailyLimitReached `{Runtime} : M bool :=
  let* today := Date_today in
  let* a := this in
  let* _ := (if negb (String.eqb today (lastResetDate a))
             then update (fun a => set_governor a (lastApiCall a) 0 today)
             else ret tt) in
  let* a := this in
  ret (dailyCallLimit a <=? dailyCallCount a).

Definition isAvailable `{Runtime} : M bool :=
  let* a := this in
  if genAI a then
    if negb (CircuitState_eqb (circuitState a) OPEN) then
      let* reached := isDailyLimitReached in
      ret (negb reached)
    else ret false
  else ret false.

(** [withRateLimit], run from its call to its return with no other request
    in between and its timer firing on time.  The method is [async]: what
    happens when another request runs during its wait is written out
    segment by segment below ([reservationBegin], [reservationStamp],
    [overlappingReservations]). *)
Definition withRateLimit : M unit :=
  let* now := Date_now in
  let* a := this in
  let timeSinceLastCall := now - lastApiCall a in
  let* _ := (if timeSinceLastCall <? minCallInterval a
             then sleep (minCallInterval a - timeSinceLastCall)
             else ret tt) in
  let* now' := Date_now in
  let* _ := update (fun a => set_governor a now' (dailyCallCount a) (lastResetDate a)) in
  update (fun a => set_governor a (lastApiCall a) (dailyCallCount a + 1) (lastResetDate a)).

(** ** Circuit breaker *)

Definition recordFailure : M unit :=
  let* _ := update (fun a => set_circuit a (circuitState a) (failureCount a + 1) (nextTry a)) in
  let* a := this in
  if failureThreshold a <=? failureCount a then
    let* now := Date_now in
    update (fun a => set_circuit a OPEN (failureCount a) (now + resetTimeout a))
  else ret tt.

Definition resetCircuit : M unit :=
  update (fun a => set_circuit a CLOSED 0 (nextTry a)).

Definition withCircuitBreaker {A} (fn : M A) : M A :=
  let* a := this in
  let* _ :=
    (if CircuitState_eqb (circuitState a) OPEN then
       let* now := Date_now in
       if nextTry a <? now then
         update (fun a => set_circuit a HALF_OPEN (failureCount a) (nextTry a))
       else
         throw (Error "AI service temporarily unavailable. Please try again later.")
     else ret tt) in
  try_catch
    (let* result := fn in
     let* a := this in
     let* _ := (if CircuitState_eqb (circuitState a) HALF_OPEN
                then resetCircuit else ret tt) in
     ret result)
    (fun error =>
       let* _ := recordFailure in
       if includes (message error) "503" || includes (message error) "overloaded"
          || includes (message error) "quota" || includes (message error) "429"
       then throw error
       else throw error).

(** ** Text repair: [scrubJsonText]

    Each regular-expression replacement of the source is a scan over the
    characters of the text; the comment of a function gives the
    replacement it stands for. *)

Definition dq : ascii := "034"%char.
Definition backslash : ascii := "\"%char.
Definition comma : ascii := ","%char.
Definition backtick : ascii := "`"%char.
Definition lbrace : ascii := "{"%char.
Definition rbrace : ascii := "}"%char.
Definition lbracket : ascii := "["%char.
Definition rbracket : ascii := "]"%char.
Definition newline : ascii := "010"%char.
Definition creturn : ascii := "013"%char.

Definition is_nl (c : ascii) : bool := Ascii.eqb c newline.

(** Characters that [.] does not match. *)
Definition is_line_term (c : ascii) : bool :=
  Ascii.eqb c newline || Ascii.eqb c creturn.

(** [[}\]]] *)
Definition is_closer (c : ascii) : bool :=
  Ascii.eqb c rbrace || Ascii.eqb c rbracket.

(** The class of [}], []] and the double quote. *)
Definition is_left (c : ascii) : bool :=
  Ascii.eqb c dq || Ascii.eqb c rbrace || Ascii.eqb c rbracket.

(** The class of [{] and the double quote. *)
Definition is_right (c : ascii) : bool :=
  Ascii.eqb c dq || Ascii.eqb c lbrace.

Definition fenceOpen : list ascii := chars "```json".
Definition fenceClose : list ascii := chars "```".

(** [text.replace(/^```json\n?/, '')] *)
Definition stripFenceOpen (l : list ascii) : list ascii :=
  if prefixb fenceOpen l then
    match skipn (length fenceOpen) l with
    | c :: r => if is_nl c then r else c :: r
    | [] => []
    end
  else l.

(** [text.replace(/\n?```$/, '')] *)
Definition stripFenceClose (l : list ascii) : list ascii :=
  if suffixb fenceClose l then
    match skipn (length fenceClose) (rev l) with
    | c :: r => if is_nl c then rev r else rev (c :: r)
    | [] => []
    end
  else l.

(** [text.replace(/\\\x22/g, '\x22')]: every backslash-quote becomes a
    quote. *)
Fixpoint unescapeQuotes (l : list ascii) : list ascii :=
  match l with
  | a :: (b :: r) as t =>
      if Ascii.eqb a backslash && Ascii.eqb b dq
      then dq :: unescapeQuotes r
      else a :: unescapeQuotes t
  | _ => l
  end.

(** The first character after the white space at the head of [l]
    satisfies [p]. *)
Definition follows (p : ascii -> bool) (l : list ascii) : bool :=
  match dropWhile is_ws l with
  | d :: _ => p d
  | [] => false
  end.

(** [text.replace(/,\s*([}\]])/g, '$1')]: a comma that white space and a
    closing delimiter follow goes away together with that white space. *)
Fixpoint dropTrailingCommas (l : list ascii) : list ascii :=
  match l with
  | [] => []
  | c :: r =>
      if Ascii.eqb c comma && follows is_closer r
      then dropWhile is_ws (dropTrailingCommas r)
      else c :: dropTrailingCommas r
  end.

(** [text.replace(/([\x22}\]])\s*([\x22{])/g, '$1,$2')]: [skip] counts the
    characters of the current match that are still to be passed over (its
    white space and its [$2], which the match consumes). *)
Fixpoint insertCommas (skip : nat) (l : list ascii) : list ascii :=
  match l with
  | [] => []
  | c :: r =>
      match skip with
      | S k => insertCommas k r
      | O =>
          if is_left c && follows is_right r then
            match dropWhile is_ws r with
            | d :: _ =>
                c :: comma :: d
                  :: insertCommas (S (length (takeWhile is_ws r))) r
            | [] => c :: insertCommas 0 r
            end
          else c :: insertCommas 0 r
      end
  end.

(** [text.replace(/[\x00-\x1F\x7F]/g, '')] *)
Definition stripControl (l : list ascii) : list ascii :=
  List.filter (fun c => negb (is_control c)) l.

(** [(text.match(/c/g) || []).length] *)
Definition count (c : ascii) (l : list ascii) : nat :=
  length (List.filter (Ascii.eqb c) l).

(** The brace and bracket completion: the four counts are taken before
    anything is appended. *)
Definition closeDelimiters (l : list ascii) : list ascii :=
  let openBraces := count lbrace l in
  let closeBraces := count rbrace l in
  let openBrackets := count lbracket l in
  let closeBrackets := count rbracket l in
  let l1 := if (closeBraces <? openBraces)%nat
            then (l ++ repeat rbrace (openBraces - closeBraces))%list
            else l in
  if (closeBrackets <? openBrackets)%nat
  then (l1 ++ repeat rbracket (openBrackets - closeBrackets))%list
  else l1.

(** The rest of the text after the quote that closes group 1 matches
    [\s*\n\s*\x22(.*?)\x22$]; the result is group 2. *)
Definition newlineTail (r : list ascii) : option (list ascii) :=
  if existsb is_nl (takeWhile is_ws r) then
    match dropWhile is_ws r with
    | q :: r2 =>
        if Ascii.eqb q dq then
          match rev r2 with
          | q' :: g2 =>
              if Ascii.eqb q' dq && forallb (fun c => negb (is_line_term c)) g2
              then Some (rev g2)
              else None
          | [] => None
          end
        else None
    | [] => None
    end
  else None.

(** After an opening quote: the lazy group 1 ([acc], reversed), its
    closing quote and the tail. *)
Fixpoint newlineGroups (acc l : list ascii)
  : option (list ascii * list ascii) :=
  match l with
  | [] => None
  | c :: r =>
      match (if Ascii.eqb c dq then newlineTail r else None) with
      | Some g2 => Some (rev acc, g2)
      | None =>
          if is_line_term c then None else newlineGroups (c :: acc) r
      end
  end.

(** [text.replace(/\x22(.*?)\x22\s*\n\s*\x22(.*?)\x22$/g, '\x22$1\x22,\x22$2\x22')]
    (the source writes the double quote itself where this comment has
    [\x22]). *)
Fixpoint joinSplitStrings (l : list ascii) : list ascii :=
  match l with
  | [] => []
  | c :: r =>
      match (if Ascii.eqb c dq then newlineGroups [] r else None) with
      | Some (g1, g2) =>
          (dq :: g1 ++ dq :: comma :: dq :: g2 ++ [dq])%list
      | None => c :: joinSplitStrings r
      end
  end.

(** The closing quote of a string that looks truncated. *)
Definition closeQuote (l : list ascii) : list ascii :=
  if Nat.odd (count dq l) then (l ++ [dq])%list else l.

Definition unescapeStep (l : list ascii) : list ascii :=
  if includesL [backslash; dq] l && negb (includesL [backslash; backslash; dq] l)
  then unescapeQuotes l
  else l.

Definition scrub (text : list ascii) : list ascii :=
  let text := trimL text in
  let text := stripFenceClose (stripFenceOpen text) in
  let text := unescapeStep text in
  let text := dropTrailingCommas text in
  let text := insertCommas 0 text in
  let text := stripControl text in
  let text := closeDelimiters text in
  let text := joinSplitStrings text in
  closeQuote text.

Definition scrubJsonText (text : string) : string := str (scrub (chars text)).

(** ** Resume data

    A request body is a resume document of the [Resume] model: the
    fields that are present have the types that the model declares, and
    every section and every field of an item may be missing (the routes
    validate neither the items nor their fields). *)

Module PersonalInfo.
Record t := mk {
  summary : option string;
  objective : option string;
  email : option string;
  phone : option string
}.
End PersonalInfo.

Module Skills.
Record t := mk {
  technical : option (list string);
  languages : option (list string)
}.
End Skills.

Module Education.
Record t := mk {
  institution : option string;
  degree : option string;
  field : option string;
  startDate : option string;
  endDate : option string;
  gpa : option string;
  description : option string;
  achievements : option (list string)
}.
End Education.

(** The [description] of an experience is an array of bullet points or
    one string. *)
Inductive Bullets := BulletList (l : list string) | BulletText (s : string).

Module Experience.
Record t := mk {
  company : option string;
  position : option string;
  location : option string;
  startDate : option string;
  endDate : option string;
  description : option Bullets;
  achievements : option (list string)
}.
End Experience.

Module Project.
Record t := mk {
  name : option string;
  description : option string;
  technologies : option (list string);
  outcomes : option (list string);
  link : option string;
  github : option string
}.
End Project.

Module Achievement.
Record t := mk {
  title : option string;
  description : option string;
  date : option string
}.
End Achievement.

Record ResumeData := mkResumeData {
  personalInfo : option PersonalInfo.t;
  skills : option Skills.t;
  education : option (list Education.t);
  experience : option (list Experience.t);
  projects : option (list Project.t);
  achievements : option (list Achievement.t);
  roleApplyingFor : option string;
  isFresher : bool;
  jobDescription : option string
}.

(** Boolean coercion of an optional string: [undefined] and the empty
    string are falsy. *)
Definition truthyS (o : option string) : bool :=
  match o with
  | Some s => negb (String.eqb s "")
  | None => false
  end.

(** [o || d] for an optional string *)
Definition orS (o : option string) (d : string) : string :=
  match o with
  | Some s => if String.eqb s "" then d else s
  | None => d
  end.

(** An optional string in a template literal. *)
Definition showS (o : option string) : string :=
  match o with
  | Some s => s
  | None => "undefined"
  end.

(** [o || d] for an optional array (an array is truthy, even empty) *)
Definition orL {A} (o : option (list A)) (d : list A) : list A :=
  match o with
  | Some l => l
  | None => d
  end.

(** [l?.length || 0] *)
Definition lengthOr0 {A} (o : option (list A)) : nat :=
  match o with
  | Some l => length l
  | None => 0%nat
  end.

(** [l && l.length > 0] *)
Definition nonEmpty {A} (o : option (list A)) : bool :=
  match o with
  | Some (_ :: _) => true
  | _ => false
  end.

(** [personalInfo?.summary] *)
Definition summaryOf (personalInfo : option PersonalInfo.t) : option string :=
  match personalInfo with
  | Some p => PersonalInfo.summary p
  | None => None
  end.

(** [skills?.technical] *)
Definition technicalOf (skills : option Skills.t) : option (list string) :=
  match skills with
  | Some s => Skills.technical s
  | None => None
  end.

(** [skills?.technical?.slice(0, n).join(sep)] *)
Definition joinedSkills (n : nat) (sep : string) (skills : option Skills.t)
  : option string :=
  match technicalOf skills with
  | Some l => Some (join sep (slice0 n l))
  | None => None
  end.

(** [education?.[0]?.field] *)
Definition firstField (education : option (list Education.t)) : option string :=
  match education with
  | Some (edu :: _) => Education.field edu
  | _ => None
  end.

(** [o || d] where the generated default [d] may throw: it is evaluated
    only when [o] is falsy. *)
Definition orSE (o : option string) (d : JsError + string) : JsError + string :=
  match o with
  | Some s => if String.eqb s "" then d else inr s
  | None => d
  end.

Definition orLE {A} (o : option (list A)) (d : JsError + list A)
  : JsError + list A :=
  match o with
  | Some l => inr l
  | None => d
  end.

(** The [TypeError] of [undefined.toLowerCase()]. *)
Definition noToLowerCase : JsError :=
  Error "Cannot read properties of undefined (reading 'toLowerCase')".

(** [s.toLowerCase()] for a string that may be missing. *)
Definition toLowerCaseOf (o : option string) : JsError + string :=
  match o with
  | Some s => inr (toLowerCase s)
  | None => inl noToLowerCase
  end.

(** ** Keys of object literals *)

Definition memS (x : string) (l : list string) : bool :=
  existsb (String.eqb x) l.

(** Lookup among the own keys of an object literal. *)
Fixpoint lookupKey {A} (k : string) (table : list (string * A)) : option A :=
  match table with
  | [] => None
  | (k', v) :: table' => if String.eqb k k' then Some v else lookupKey k table'
  end.

(** The property names that every object literal inherits from
    [Object.prototype]: a lookup [table[key]] with one of these keys finds
    the inherited property, not a default. *)
Definition inheritedKeys : list string :=
  ["constructor"; "toString"; "toLocaleString"; "valueOf"; "hasOwnProperty";
   "isPrototypeOf"; "propertyIsEnumerable"; "__proto__"; "__defineGetter__";
   "__defineSetter__"; "__lookupGetter__"; "__lookupSetter__"].

(** A key that a lookup in an object literal resolves among the own keys
    of the literal ([undefined] is looked up as the string of that name).
    For such a key [table[key]] is what [lookupKey] finds. *)
Definition plainKey (key : option string) : Prop :=
  match key with
  | Some k => memS k inheritedKeys = false
  | None => True
  end.

(** What [table[key]] finds in an object literal: the value of an own key,
    a member of [Object.prototype] (a function, or the prototype itself:
    truthy, and not one of the values of the table), or nothing. *)
Inductive Found (A : Type) :=
| Own (v : A)
| Inherited
| Nothing.
Arguments Own {A} v.
Arguments Inherited {A}.
Arguments Nothing {A}.

Definition lookup {A} (key : option string) (table : list (string * A))
  : Found A :=
  match key with
  | Some k =>
      match lookupKey k table with
      | Some v => Own v
      | None => if memS k inheritedKeys then Inherited else Nothing
      end
  | None => Nothing
  end.

(** ** Local synthesis engine *)

Section LocalSynthesis.
Context `{Runtime}.

(** The summary text.  The tables of summaries are read among their own
    keys: this is the text that the source returns for a role that is a
    [plainKey].  For a role such as [constructor] the source returns the
    member of [Object.prototype] of that name, which is not a text. *)
Definition generateSummary (personalInfo : option PersonalInfo.t)
  (skills : option Skills.t) (experience : option (list Experience.t))
  (isFresher : bool) (role : option string) : string :=
  if negb (truthyS role) || String.eqb (showS role) "Professional" then
    orS (summaryOf personalInfo) "Professional with expertise in various fields. Committed to delivering high-quality results and continuous learning."
  else
    let skillList := orS (joinedSkills 3 ", " skills) "programming" in
    let roleSpecific := orS role "Professional" in
    let expCount := Z.of_nat (lengthOr0 experience) in
    if isFresher then
      let fresherSummaries := [
    ("Software Engineer", "Recent Computer Science graduate with strong foundation in " ++ skillList ++ ". Passionate about developing innovative software solutions and eager to apply academic knowledge to real-world challenges. Seeking to contribute fresh perspectives and grow within a dynamic development team.");
    ("Frontend Developer", "Creative and detail-oriented graduate with expertise in " ++ skillList ++ ". Passionate about creating intuitive user interfaces and exceptional user experiences. Eager to apply modern frontend development skills to build engaging web applications.");
    ("Backend Developer", "Analytical and problem-solving graduate with strong foundation in " ++ skillList ++ ". Passionate about building robust server-side applications and optimizing system performance. Seeking to apply backend development skills to create scalable solutions.");
    ("Full Stack Developer", "Versatile and motivated graduate with comprehensive skills in " ++ skillList ++ ". Passionate about end-to-end development and creating complete web solutions. Eager to contribute to both frontend and backend development projects.");
    ("Data Scientist", "Analytical graduate with strong foundation in " ++ skillList ++ " and statistical analysis. Passionate about extracting insights from data and building predictive models. Seeking to apply data science skills to solve complex business problems.");
    ("Product Manager", "Strategic and communication-focused graduate with understanding of " ++ skillList ++ ". Passionate about product development and user-centric solutions. Eager to apply analytical and leadership skills to drive product success.") ] in
      match lookupKey roleSpecific fresherSummaries with
      | Some s => s
      | None => "Recent " ++ roleSpecific ++ " graduate with strong foundation in " ++ skillList ++ ". Eager to apply academic knowledge and passion for technology to contribute to innovative projects and grow within a dynamic team."
      end
    else
      let experiencedSummaries := [
    ("Software Engineer", "Results-driven Software Engineer with " ++ numberToString (inject_Z expCount) ++ "+ years of experience in " ++ skillList ++ ". Proven track record of delivering high-quality software solutions and leading development projects. Passionate about code optimization, mentorship, and implementing best practices.");
    ("Frontend Developer", "Creative Frontend Developer with " ++ numberToString (inject_Z expCount) ++ "+ years of expertise in " ++ skillList ++ ". Specialized in building responsive, user-centric interfaces and enhancing user experience. Committed to staying current with frontend trends and accessibility standards.");
    ("Backend Developer", "Experienced Backend Developer with " ++ numberToString (inject_Z expCount) ++ "+ years specializing in " ++ skillList ++ ". Expert in designing scalable architectures, optimizing database performance, and implementing robust API solutions. Focus on system reliability and security.");
    ("Full Stack Developer", "Versatile Full Stack Developer with " ++ numberToString (inject_Z expCount) ++ "+ years of comprehensive experience in " ++ skillList ++ ". Proven ability to handle end-to-end development from concept to deployment. Passionate about creating seamless user experiences and robust backend systems.");
    ("Data Scientist", "Experienced Data Scientist with " ++ numberToString (inject_Z expCount) ++ "+ years in " ++ skillList ++ " and machine learning. Expert in data analysis, model development, and generating actionable insights. Track record of driving data-driven decision making and business value.");
    ("Product Manager", "Strategic Product Manager with " ++ numberToString (inject_Z expCount) ++ "+ years of experience in product lifecycle management. Skilled in cross-functional collaboration, user research, and driving product vision. Proven ability to deliver products that meet market needs and business objectives.") ] in
      match lookupKey roleSpecific experiencedSummaries with
      | Some s => s
      | None => "Experienced " ++ roleSpecific ++ " with expertise in " ++ skillList ++ ". Proven track record of delivering high-quality solutions and driving project success."
      end.

Definition generateObjective (personalInfo : option PersonalInfo.t)
  (education : option (list Education.t)) (skills : option Skills.t)
  (role : option string) : string :=
  "Recent graduate seeking an entry-level " ++ showS role ++ " position to leverage academic background in " ++ orS (firstField education) "Computer Science" ++ " and technical skills in " ++ orS (joinedSkills 2 " and " skills) "software development" ++ ".".

(** [s?.toLowerCase().includes(p)]; [undefined] is falsy. *)
Definition lowerIncludes (o : option string) (p : string) : bool :=
  match o with
  | Some s => includes (toLowerCase s) p
  | None => false
  end.

Definition generateEducationAchievements (edu : Education.t) : list string :=
  let a1 :=
    if truthyS (Education.gpa edu) &&
       match parseFloat (showS (Education.gpa edu)) with
       | Some g => Qle_bool (7 # 2) g
       | None => false
       end
    then ["Graduated with GPA: " ++ showS (Education.gpa edu)] else [] in
  let a2 :=
    if lowerIncludes (Education.degree edu) "computer"
       || lowerIncludes (Education.field edu) "computer"
    then ["Completed comprehensive coursework in algorithms, data structures, and software engineering"]
    else [] in
  let a3 :=
    if lowerIncludes (Education.degree edu) "business"
       || lowerIncludes (Education.field edu) "business"
    then ["Completed core business curriculum with focus on strategic management and leadership"]
    else [] in
  (a1 ++ a2 ++ a3
     ++ ["Successfully completed academic program with strong performance"])%list.

(** The course summary, for a field of study and a role that are plain
    keys (see [generateSummary]). *)
Definition generateCourseSummary (education : option (list Education.t))
  (targetRole : option string) : string :=
  match education with
  | None | Some [] => ""
  | Some (edu :: _) =>
      let field := orS (Education.field edu) "General Studies" in
      let degree := orS (Education.degree edu) "Degree" in
      let courseSummaries : list (string * list (string * string)) := [
    ("Computer Science",
     [
       ("Software Engineer", "Completed rigorous coursework in software engineering principles, algorithms, data structures, and system design. Developed strong foundation in programming languages, database management, and software development methodologies. Gained hands-on experience through lab sessions and collaborative projects focusing on scalable application development.");
       ("Frontend Developer", "Focused on web development, user interface design, and interactive systems. Studied JavaScript frameworks, responsive design principles, and modern frontend technologies. Completed projects emphasizing user experience design, accessibility standards, and performance optimization for web applications.");
       ("Backend Developer", "Specialized in server-side architecture, database systems, and API development. Completed coursework in distributed systems, cloud computing, and backend optimization. Gained practical experience in building scalable server solutions and managing complex data infrastructures.");
       ("Data Scientist", "Emphasized statistical analysis, machine learning, and data visualization. Studied advanced mathematics, programming for data analysis, and predictive modeling techniques. Completed hands-on projects working with real datasets to extract actionable insights and build predictive models.") ]);
    ("Business Administration",
     [
       ("Product Manager", "Completed comprehensive business curriculum with focus on product strategy, market analysis, and project management. Developed skills in business intelligence, user research, and cross-functional leadership. Participated in case studies analyzing successful product launches and go-to-market strategies.");
       ("Software Engineer", "Combined business acumen with technical foundation. Studied business process optimization, technology management, and strategic planning for tech organizations. Gained understanding of how technical solutions drive business value and competitive advantage.") ]);
    ("Information Technology",
     [
       ("Software Engineer", "Gained practical experience in system administration, network management, and IT infrastructure. Developed understanding of enterprise systems and technology operations. Completed hands-on labs focusing on system security, cloud deployment, and IT service management.");
       ("Backend Developer", "Focused on infrastructure, cloud services, and system architecture. Studied DevOps principles, security protocols, and scalable system design. Acquired skills in managing complex IT environments and optimizing system performance.") ]) ] in
      let defaultSummary := "Pursued " ++ degree ++ " in " ++ field ++ " with comprehensive curriculum covering foundational principles and practical applications. Developed analytical thinking, problem-solving abilities, and domain expertise relevant to " ++ orS targetRole "professional roles" ++ " through coursework, projects, and collaborative learning experiences." in
      let fieldSummaries :=
        match lookupKey field courseSummaries with
        | Some t => t
        | None => []
        end in
      match targetRole with
      | Some r =>
          match lookupKey r fieldSummaries with
          | Some s => s
          | None => defaultSummary
          end
      | None => defaultSummary
      end
  end.

Definition getPositionType (position : option string) : JsError + string :=
  let+ pos := toLowerCaseOf position in
  inr (if includes pos "software" || includes pos "developer" || includes pos "engineer"
       then "Software Engineer"
       else if includes pos "frontend" || includes pos "ui" || includes pos "ux"
       then "Frontend Developer"
       else if includes pos "backend" || includes pos "server" || includes pos "api"
       then "Backend Developer"
       else if includes pos "product" || includes pos "manager"
       then "Product Manager"
       else "General").

Definition generateExperienceAchievements (exp : Experience.t)
  (skills : option Skills.t) : JsError + list string :=
  let+ positionType := getPositionType (Experience.position exp) in
  let achievementTemplates : list (string * list string) := [
    ("Software Engineer",
     [
       "Developed and deployed production-ready code following best practices";
       "Collaborated in agile teams to deliver features on schedule";
       "Optimized application performance improving user experience";
       "Participated in code reviews ensuring quality standards" ]);
    ("Frontend Developer",
     [
       "Built responsive user interfaces with modern frameworks";
       "Improved website performance and accessibility standards";
       "Collaborated with UX teams to implement design systems";
       "Developed reusable components following best practices" ]);
    ("Backend Developer",
     [
       "Designed and implemented RESTful APIs and microservices";
       "Optimized database queries improving system performance";
       "Ensured system security and data protection protocols";
       "Managed cloud infrastructure and deployment pipelines" ]);
    ("Product Manager",
     [
       "Led product strategy and roadmap development";
       "Conducted user research and market analysis";
       "Collaborated with cross-functional teams for product delivery";
       "Defined product requirements and success metrics" ]) ] in
  let defaultAchievements := [
    "Successfully contributed to " ++ showS (Experience.position exp) ++ " responsibilities";
    "Collaborated effectively with team members";
    "Demonstrated problem-solving skills" ] in
  inr match lookupKey positionType achievementTemplates with
      | Some l => l
      | None => defaultAchievements
      end.

Definition getAchievementType (title : option string) : JsError + string :=
  let+ t := toLowerCaseOf title in
  inr (if includes t "certified" || includes t "certification" then "Certification"
       else if includes t "award" || includes t "recognition" || includes t "employee"
       then "Award"
       else if includes t "leadership" || includes t "lead" || includes t "manager"
       then "Leadership"
       else if includes t "hackathon" || includes t "project" || includes t "technical"
       then "Technical"
       else if includes t "dean" || includes t "scholar" || includes t "academic"
       then "Academic"
       else "General").

Definition enhanceAchievementDescription (ach : Achievement.t)
  : JsError + string :=
  if truthyS (Achievement.description ach)
  then inr (showS (Achievement.description ach))
  else
    let+ achievementType := getAchievementType (Achievement.title ach) in
    let enhancedDescriptions := [
    ("Certification", "Successfully achieved " ++ showS (Achievement.title ach) ++ " demonstrating expertise and commitment to professional development. Validated advanced skills through comprehensive examination and practical application. This certification confirms proficiency in industry best practices and cutting-edge technologies relevant to modern workplace demands.");
    ("Award", "Recognized with " ++ showS (Achievement.title ach) ++ " for outstanding performance and significant contributions to the organization. This honor reflects exceptional dedication to excellence, innovation, and consistent delivery of high-quality results. Selected among peers for demonstrating leadership qualities and going beyond expectations.");
    ("Leadership", "Demonstrated exceptional leadership abilities earning " ++ showS (Achievement.title ach) ++ ". Successfully guided cross-functional teams, drove strategic initiatives, and delivered measurable results through visionary planning and effective execution. Fostered collaborative environment and mentored team members to achieve collective goals.");
    ("Technical", "Achieved " ++ showS (Achievement.title ach) ++ " showcasing advanced technical proficiency and innovative problem-solving capabilities. Applied cutting-edge solutions to complex challenges, resulting in improved system performance, reduced costs, or enhanced user experience. Demonstrated mastery of modern technologies and best practices.");
    ("Academic", "Earned " ++ showS (Achievement.title ach) ++ " through academic excellence and scholarly achievement. Demonstrated strong analytical abilities, intellectual curiosity, and dedication to learning. This accomplishment reflects deep understanding of subject matter and ability to apply theoretical knowledge to practical scenarios.") ] in
    inr match lookupKey achievementType enhancedDescriptions with
    | Some s => s
    | None => "Achieved " ++ showS (Achievement.title ach) ++ " through dedication, skill development, and consistent performance. This accomplishment demonstrates commitment to excellence, continuous learning, and the ability to deliver outstanding results in challenging environments. Recognized for valuable contributions and positive impact on organizational objectives."
    end.

Definition getProjectType (projectName : option string) : JsError + string :=
  let+ name := toLowerCaseOf projectName in
  inr (if includes name "ecommerce" || includes name "shop" || includes name "store"
       then "E-commerce"
       else if includes name "social" || includes name "chat" || includes name "messaging"
       then "Social Media"
       else if includes name "ai" || includes name "machine" || includes name "ml"
               || includes name "prediction"
       then "AI/ML"
       else if includes name "app"
               && (includes name "mobile" || includes name "ios" || includes name "android")
       then "Mobile App"
       else if includes name "dashboard" || includes name "analytics"
               || includes name "visualization"
       then "Dashboard"
       else if includes name "web" || includes name "website" || includes name "portal"
       then "Web App"
       else "General").

Definition enhanceProjectDescription (proj : Project.t)
  (skills : option Skills.t) : JsError + string :=
  if truthyS (Project.description proj)
  then inr (showS (Project.description proj))
  else
    let techList :=
      orS (match Project.technologies proj with
           | Some l => Some (join ", " (slice0 3 l))
           | None => None
           end) "modern tools" in
    let+ projectType := getProjectType (Project.name proj) in
    let enhancedDescriptions := [
    ("E-commerce", "Developed a full-featured e-commerce platform utilizing " ++ techList ++ ". Implemented secure payment processing, user authentication, and responsive design to deliver seamless shopping experience. Engineered scalable architecture supporting high-traffic transactions and real-time inventory management.");
    ("Social Media", "Built a dynamic social media application using " ++ techList ++ ". Engineered real-time messaging, content sharing, and user engagement features with scalable architecture. Implemented robust notification system and optimized database performance for seamless user interactions.");
    ("AI/ML", "Created an intelligent AI-powered solution leveraging " ++ techList ++ ". Implemented machine learning algorithms, data processing pipelines, and predictive analytics for actionable insights. Developed automated model training pipeline and achieved high accuracy in prediction tasks.");
    ("Mobile App", "Developed a cross-platform mobile application using " ++ techList ++ ". Designed intuitive user interfaces, offline functionality, and optimized performance for mobile devices. Successfully deployed to app stores with positive user ratings and minimal crash reports.");
    ("Web App", "Architected and deployed a responsive web application with " ++ techList ++ ". Focused on user experience, performance optimization, and scalable backend integration. Implemented progressive web app features and ensured cross-browser compatibility.");
    ("Dashboard", "Engineered a comprehensive analytics dashboard using " ++ techList ++ ". Visualized complex data, implemented real-time updates, and created actionable business intelligence tools. Developed interactive charts and customizable reporting features.") ] in
    inr match lookupKey projectType enhancedDescriptions with
    | Some s => s
    | None => "Developed " ++ showS (Project.name proj) ++ " utilizing technologies including " ++ techList ++ ". Focused on delivering high-quality solutions with attention to user experience, technical excellence, and scalable architecture. Implemented best practices and modern development methodologies throughout the project lifecycle."
    end.

Definition generateProjectOutcomes (proj : Project.t) : JsError + list string :=
  let+ projectType := getProjectType (Project.name proj) in
  let outcomeTemplates : list (string * list string) := [
    ("E-commerce",
     [
       "Increased conversion rates by 25% through optimized user flow";
       "Reduced page load time by 40% improving user experience";
       "Successfully processed 1000+ transactions with zero errors" ]);
    ("Social Media",
     [
       "Achieved 500+ active users within first month of launch";
       "Implemented real-time messaging with 99.9% uptime";
       "Reduced server response time by 60% through optimization" ]);
    ("AI/ML",
     [
       "Achieved 92% accuracy in predictive modeling";
       "Processed 1M+ data points with automated pipeline";
       "Reduced manual analysis time by 80% through automation" ]);
    ("Mobile App",
     [
       "Achieved 4.8-star rating with 10K+ downloads";
       "Optimized battery usage resulting in 30% longer device life";
       "Successfully deployed to both iOS and Android platforms" ]);
    ("Web App",
     [
       "Improved user engagement by 45% with intuitive design";
       "Achieved 99.5% uptime with robust error handling";
       "Reduced bounce rate by 35% through performance optimization" ]);
    ("Dashboard",
     [
       "Enabled data-driven decisions reducing analysis time by 70%";
       "Visualized 10K+ data points with real-time updates";
       "Improved team productivity by 40% with actionable insights" ]) ] in
  let defaultOutcomes := [
    "Successfully delivered project on time and within budget";
    "Met all specified requirements and exceeded expectations";
    "Demonstrated technical proficiency and problem-solving skills" ] in
  inr match lookupKey projectType outcomeTemplates with
      | Some l => l
      | None => defaultOutcomes
      end.

Definition generateImprovements (personalInfo : option PersonalInfo.t)
  (skills : option Skills.t) (experience : option (list Experience.t))
  (isFresher : bool) (role : option string) : list string :=
  let i1 :=
    if negb (truthyS (summaryOf personalInfo))
    then ["Add a professional summary to highlight your strengths"] else [] in
  let i2 :=
    match technicalOf skills with
    | Some l =>
        if (length l <? 5)%nat
        then ["Consider adding more technical skills to showcase your expertise"]
        else []
    | None => []
    end in
  let i3 :=
    if isFresher && negb (nonEmpty experience)
    then ["Add internships or relevant projects to strengthen your profile"]
    else [] in
  slice0 3 (i1 ++ i2 ++ i3
              ++ ["Quantify achievements with specific metrics when possible"])%list.

End LocalSynthesis.

(** ** Items as JavaScript objects *)

Definition optS (k : string) (o : option string) : list (string * JsVal) :=
  match o with
  | Some s => [(k, JStr s)]
  | None => []
  end.

Definition optL (k : string) (o : option (list string))
  : list (string * JsVal) :=
  match o with
  | Some l => [(k, JStrs l)]
  | None => []
  end.

Definition educationJs (edu : Education.t) : JsVal :=
  JObj (optS "institution" (Education.institution edu)
        ++ optS "degree" (Education.degree edu)
        ++ optS "field" (Education.field edu)
        ++ optS "startDate" (Education.startDate edu)
        ++ optS "endDate" (Education.endDate edu)
        ++ optS "gpa" (Education.gpa edu)
        ++ optS "description" (Education.description edu)
        ++ optL "achievements" (Education.achievements edu))%list.

Definition bulletsJs (b : Bullets) : JsVal :=
  match b with
  | BulletList l => JStrs l
  | BulletText s => JStr s
  end.

Definition experienceJs (exp : Experience.t) : JsVal :=
  JObj (optS "company" (Experience.company exp)
        ++ optS "position" (Experience.position exp)
        ++ optS "location" (Experience.location exp)
        ++ optS "startDate" (Experience.startDate exp)
        ++ optS "endDate" (Experience.endDate exp)
        ++ match Experience.description exp with
           | Some b => [("description", bulletsJs b)]
           | None => []
           end
        ++ optL "achievements" (Experience.achievements exp))%list.

Definition projectJs (proj : Project.t) : JsVal :=
  JObj (optS "name" (Project.name proj)
        ++ optS "description" (Project.description proj)
        ++ optL "technologies" (Project.technologies proj)
        ++ optL "outcomes" (Project.outcomes proj)
        ++ optS "link" (Project.link proj)
        ++ optS "github" (Project.github proj))%list.

Definition achievementJs (ach : Achievement.t) : JsVal :=
  JObj (optS "title" (Achievement.title ach)
        ++ optS "description" (Achievement.description ach)
        ++ optS "date" (Achievement.date ach))%list.

(** ** Local enhancement of a resume *)

Section LocalEnhancement.
Context `{Runtime}.

(** [{...proj, description: proj.description || ..., outcomes:
    proj.outcomes || ...}] *)
Definition enrichProject (skills : option Skills.t) (proj : Project.t)
  : JsError + Project.t :=
  let+ description :=
    orSE (Project.description proj) (enhanceProjectDescription proj skills) in
  let+ outcomes :=
    orLE (Project.outcomes proj) (generateProjectOutcomes proj) in
  inr {| Project.name := Project.name proj;
         Project.description := Some description;
         Project.technologies := Project.technologies proj;
         Project.outcomes := Some outcomes;
         Project.link := Project.link proj;
         Project.github := Project.github proj |}.

(** [{...ach, description: ach.description || ...}] *)
Definition enrichAchievement (ach : Achievement.t)
  : JsError + Achievement.t :=
  let+ description :=
    orSE (Achievement.description ach) (enhanceAchievementDescription ach) in
  inr {| Achievement.title := Achievement.title ach;
         Achievement.description := Some description;
         Achievement.date := Achievement.date ach |}.

(** [{...edu, achievements: edu.achievements || ..., description:
    edu.description || ...}] *)
Definition enrichEducation (education : option (list Education.t))
  (effectiveRole : string) (edu : Education.t) : Education.t :=
  {| Education.institution := Education.institution edu;
     Education.degree := Education.degree edu;
     Education.field := Education.field edu;
     Education.startDate := Education.startDate edu;
     Education.endDate := Education.endDate edu;
     Education.gpa := Education.gpa edu;
     Education.description :=
       Some (orS (Education.description edu)
                 (generateCourseSummary education (Some effectiveRole)));
     Education.achievements :=
       Some (orL (Education.achievements edu)
                 (generateEducationAchievements edu)) |}.

(** [{...exp, achievements: exp.achievements || ...}] *)
Definition enrichExperience (skills : option Skills.t) (exp : Experience.t)
  : JsError + Experience.t :=
  let+ achievements :=
    orLE (Experience.achievements exp)
         (generateExperienceAchievements exp skills) in
  inr {| Experience.company := Experience.company exp;
         Experience.position := Experience.position exp;
         Experience.location := Experience.location exp;
         Experience.startDate := Experience.startDate exp;
         Experience.endDate := Experience.endDate exp;
         Experience.description := Experience.description exp;
         Experience.achievements := Some achievements |}.

(** The list [enhancements] of [enhanceContentLocally]. *)
Definition enhancementsOf (data : ResumeData) : list string :=
  ((if negb (truthyS (summaryOf (personalInfo data)))
    then ["Generated professional summary"] else [])
   ++ (if isFresher data
          && negb (truthyS (match personalInfo data with
                            | Some p => PersonalInfo.objective p
                            | None => None
                            end))
       then ["Created career objective"] else [])
   ++ (if nonEmpty (projects data)
       then ["Enhanced project descriptions"] else [])
   ++ (if nonEmpty (achievements data)
       then ["Improved achievement descriptions"] else [])
   ++ (if nonEmpty (education data)
       then ["Added education details"] else []))%list.

(** The object [enhancedContent] of [enhanceContentLocally]; the
    properties of the literal are evaluated in the order in which they are
    written. *)
Definition enhancedContentOf (data : ResumeData) : JsError + JsVal :=
  let effectiveRole := orS (roleApplyingFor data) "Professional" in
  let personalInfo' :=
    JObj [
      ("summary",
       JStr (orS (summaryOf (personalInfo data))
                 (generateSummary (personalInfo data) (skills data)
                    (experience data) (isFresher data) (Some effectiveRole))));
      ("objective",
       if isFresher data
       then JStr (generateObjective (personalInfo data) (education data)
                    (skills data) (Some effectiveRole))
       else JUndef) ] in
  let education' :=
    JArr (map (fun edu =>
                 educationJs (enrichEducation (education data) effectiveRole edu))
              (orL (education data) [])) in
  let+ experience' :=
    (if isFresher data then inr []
     else mapE (fun exp =>
                  let+ exp' := enrichExperience (skills data) exp in
                  inr (experienceJs exp'))
               (orL (experience data) [])) in
  let skills' :=
    JObj [
      ("technical", JStrs (orL (technicalOf (skills data)) []));
      ("language",
       JStrs (orL (match skills data with
                   | Some s => Skills.languages s
                   | None => None
                   end) [])) ] in
  let+ projects' :=
    mapE (fun proj =>
            let+ proj' := enrichProject (skills data) proj in
            inr (projectJs proj'))
         (orL (projects data) []) in
  let+ achievements' :=
    mapE (fun ach =>
            let+ ach' := enrichAchievement ach in
            inr (achievementJs ach'))
         (orL (achievements data) []) in
  inr (JObj [
    ("personalInfo", personalInfo');
    ("education", education');
    ("experience", JArr experience');
    ("skills", skills');
    ("projects", JArr projects');
    ("achievements", JArr achievements');
    ("certifications", JArr []);
    ("improvements",
     JStrs (generateImprovements (personalInfo data) (skills data)
              (experience data) (isFresher data) (Some effectiveRole)));
    ("courseSummary",
     JStr (generateCourseSummary (education data) (Some effectiveRole))) ]).

Definition enhanceContentLocally (data : ResumeData) : JsError + JsVal :=
  let effectiveRole := orS (roleApplyingFor data) "Professional" in
  let+ enhancedContent := enhancedContentOf data in
  let enhancements := enhancementsOf data in
  inr (JObj [
    ("success", JBool true);
    ("generatedContent", enhancedContent);
    ("aiPrompt",
     JStr ("Enhanced resume for " ++ effectiveRole
           ++ " role (local enhancement) - " ++ join ", " enhancements));
    ("enhancements", JStrs enhancements);
    ("enhancementMethod", JStr "local") ]).

(** The argument of [generateProfileSummary]. *)
Record ProfileRequest := mkProfileRequest {
  pr_roleApplyingFor : option string;
  pr_isFresher : bool;
  pr_skills : option Skills.t;
  pr_experience : option (list Experience.t);
  pr_education : option (list Education.t)
}.

Definition generateProfileSummaryLocally (data : ProfileRequest) : JsVal :=
  let summary :=
    generateSummary (Some (PersonalInfo.mk None None None None))
      (pr_skills data) (pr_experience data) (pr_isFresher data)
      (pr_roleApplyingFor data) in
  let objective :=
    if pr_isFresher data
    then JStr (generateObjective (Some (PersonalInfo.mk None None None None))
                 (pr_education data) (pr_skills data) (pr_roleApplyingFor data))
    else JUndef in
  JObj [
    ("success", JBool true);
    ("summary", JStr summary);
    ("objective", objective) ].

(** The argument [sections] of [enhanceMultipleSections]. *)
Record Sections := mkSections {
  s_projects : option (list Project.t);
  s_achievements : option (list Achievement.t);
  s_education : option (list Education.t);
  s_skills : option Skills.t
}.

(** The argument [context] of [enhanceMultipleSections]. *)
Record SectionsContext := mkSectionsContext {
  c_roleApplyingFor : option string;
  c_isFresher : option bool
}.

(** The object [enhancedSections] that [enhanceSectionsLocally] and the
    callback of [enhanceMultipleSections] both build, by the same text. *)
Definition enhancedSectionsOf (sections : Sections) (context : SectionsContext)
  : JsError + JsVal :=
  let+ projects' :=
    match s_projects sections with
    | Some l =>
        let+ items :=
          mapE (fun proj =>
                  let+ proj' := enrichProject (s_skills sections) proj in
                  inr (projectJs proj')) l in
        inr [("projects", JArr items)]
    | None => inr []
    end in
  let+ achievements' :=
    match s_achievements sections with
    | Some l =>
        let+ items :=
          mapE (fun ach =>
                  let+ ach' := enrichAchievement ach in
                  inr (achievementJs ach')) l in
        inr [("achievements", JArr items)]
    | None => inr []
    end in
  let courseSummary' :=
    match s_education sections with
    | Some l =>
        [("courseSummary",
          JStr (generateCourseSummary (Some l) (c_roleApplyingFor context)))]
    | None => []
    end in
  inr (JObj (projects' ++ achievements' ++ courseSummary')%list).

Definition enhanceSectionsLocally (sections : Sections)
  (context : SectionsContext) : JsError + JsVal :=
  let+ enhancedSections := enhancedSectionsOf sections context in
  inr (JObj [
    ("success", JBool true);
    ("enhancedSections", enhancedSections) ]).

End LocalEnhancement.

(** ** Local ATS scoring *)

(** [Math.floor] and [Math.round] on an exact value. *)
Definition Math_floor (q : Q) : Z := Qfloor q.
Definition Math_round (q : Q) : Z := Qfloor (q + (1 # 2)).

Definition Qmin2 (a b : Q) : Q := if Qle_bool a b then a else b.

#[local] Set Warnings "-inexact-float".

(** The weighted presence of the sections, in binary64 arithmetic as
    the source computes it. *)
Definition calculateResumeCompleteness (resumeData : ResumeData) : float :=
  let completeness := 0%float in
  let totalChecks := 0%float in
  let completeness :=
    match personalInfo resumeData with
    | Some p =>
        let c := if truthyS (PersonalInfo.summary p)
                 then PrimFloat.add completeness 0.1%float else completeness in
        let c := if truthyS (PersonalInfo.email p)
                 then PrimFloat.add c 0.05%float else c in
        if truthyS (PersonalInfo.phone p)
        then PrimFloat.add c 0.05%float else c
    | None => completeness
    end in
  let totalChecks := PrimFloat.add totalChecks 0.2%float in
  let completeness :=
    if nonEmpty (education resumeData)
    then PrimFloat.add completeness 0.2%float else completeness in
  let totalChecks := PrimFloat.add totalChecks 0.2%float in
  let completeness :=
    if nonEmpty (experience resumeData)
    then PrimFloat.add completeness 0.2%float else completeness in
  let totalChecks := PrimFloat.add totalChecks 0.2%float in
  let completeness :=
    if nonEmpty (technicalOf (skills resumeData))
    then PrimFloat.add completeness 0.15%float else completeness in
  let totalChecks := PrimFloat.add totalChecks 0.15%float in
  let completeness :=
    if nonEmpty (projects resumeData)
    then PrimFloat.add completeness 0.15%float else completeness in
  let totalChecks := PrimFloat.add totalChecks 0.15%float in
  let completeness :=
    if nonEmpty (achievements resumeData)
    then PrimFloat.add completeness 0.1%float else completeness in
  let totalChecks := PrimFloat.add totalChecks 0.1%float in
  PrimFloat.div completeness totalChecks.

(** The completeness ratio in exact arithmetic: the sums of
    [calculateResumeCompleteness] with its decimal weights read as
    rationals (10% for the summary, 5% each for e-mail and phone, 20% for
    education and for experience, 15% for skills and for projects, 10% for
    achievements).  The total weight is 1. *)
Definition completenessRatio (resumeData : ResumeData) : Q :=
  (let completeness := 0%Q in
  let totalChecks := 0%Q in
  let completeness :=
    match personalInfo resumeData with
    | Some p =>
        let c := if truthyS (PersonalInfo.summary p)
                 then completeness + (1 # 10) else completeness in
        let c := if truthyS (PersonalInfo.email p)
                 then c + (5 # 100) else c in
        if truthyS (PersonalInfo.phone p)
        then c + (5 # 100) else c
    | None => completeness
    end in
  let totalChecks := totalChecks + (2 # 10) in
  let completeness :=
    if nonEmpty (education resumeData)
    then completeness + (2 # 10) else completeness in
  let totalChecks := totalChecks + (2 # 10) in
  let completeness :=
    if nonEmpty (experience resumeData)
    then completeness + (2 # 10) else completeness in
  let totalChecks := totalChecks + (2 # 10) in
  let completeness :=
    if nonEmpty (technicalOf (skills resumeData))
    then completeness + (15 # 100) else completeness in
  let totalChecks := totalChecks + (15 # 100) in
  let completeness :=
    if nonEmpty (projects resumeData)
    then completeness + (15 # 100) else completeness in
  let totalChecks := totalChecks + (15 # 100) in
  let completeness :=
    if nonEmpty (achievements resumeData)
    then completeness + (1 # 10) else completeness in
  let totalChecks := totalChecks + (1 # 10) in
  completeness / totalChecks)%Q.

(** [l.join(' ').length] *)
Definition joinedLength (l : list string) : Z := strlen (join " " l).

(** [if (s) length += s.length] *)
Definition lengthS (o : option string) : Z :=
  match o with
  | Some s => strlen s
  | None => 0
  end.

(** [if (l) length += l.join(' ').length] *)
Definition lengthL (o : option (list string)) : Z :=
  match o with
  | Some l => joinedLength l
  | None => 0
  end.

Definition sumZ (l : list Z) : Z := fold_right Z.add 0 l.

Definition calculateResumeLength (resumeData : ResumeData) : Z :=
  let length := 0 in
  let length :=
    length + match personalInfo resumeData with
             | Some p => lengthS (PersonalInfo.summary p)
             | None => 0
             end in
  let length :=
    length + match personalInfo resumeData with
             | Some p => lengthS (PersonalInfo.objective p)
             | None => 0
             end in
  let length :=
    length + sumZ (map (fun edu =>
                          lengthS (Education.description edu)
                          + lengthL (Education.achievements edu))
                       (orL (education resumeData) [])) in
  let length :=
    length + sumZ (map (fun exp =>
                          match Experience.description exp with
                          | Some (BulletList l) => joinedLength l
                          | Some (BulletText s) => strlen s
                          | None => 0
                          end
                          + lengthL (Experience.achievements exp))
                       (orL (experience resumeData) [])) in
  let length :=
    length + sumZ (map (fun proj =>
                          lengthS (Project.description proj)
                          + lengthL (Project.outcomes proj))
                       (orL (projects resumeData) [])) in
  let length :=
    length + sumZ (map (fun ach => lengthS (Achievement.description ach))
                       (orL (achievements resumeData) [])) in
  length.

(** [summary.split(/\s+/)]: the maximal runs of characters that are not
    white space; the empty strings that a leading or trailing separator
    adds are too short to become keywords. *)
Fixpoint splitWs (cur : list ascii) (l : list ascii) : list string :=
  match l with
  | [] => match cur with [] => [] | _ => [str (rev cur)] end
  | c :: r =>
      if is_ws c then
        match cur with
        | [] => splitWs [] r
        | _ => str (rev cur) :: splitWs [] r
        end
      else splitWs (c :: cur) r
  end.

(** Insertion into a [Set], which keeps the order of first insertion. *)
Definition setAdd (s : list string) (x : string) : list string :=
  if memS x s then s else (s ++ [x])%list.

Definition extractKeywords (resumeData : ResumeData) : list string :=
  let keywords : list string := [] in
  let keywords :=
    if truthyS (summaryOf (personalInfo resumeData)) then
      let summaryWords :=
        splitWs [] (chars (toLowerCase (showS (summaryOf (personalInfo resumeData))))) in
      fold_left (fun ks word =>
                   if (3 <? String.length word)%nat then setAdd ks word else ks)
                summaryWords keywords
    else keywords in
  match technicalOf (skills resumeData) with
  | Some l => fold_left (fun ks skill => setAdd ks (toLowerCase skill)) l keywords
  | None => keywords
  end.

Definition getMissingKeywords (role : option string) (keywords : list string)
  : JsError + list string :=
  let roleKeywords := [
    ("Software Engineer",
     ["javascript"; "react"; "node"; "git"; "api"; "database"; "html"; "css"]);
    ("Frontend Developer",
     ["javascript"; "react"; "html"; "css"; "redux"; "webpack"; "responsive"]);
    ("Backend Developer",
     ["node"; "express"; "mongodb"; "sql"; "api"; "rest"; "graphql"]);
    ("Full Stack Developer",
     ["javascript"; "react"; "node"; "express"; "mongodb"; "sql"; "git"]) ] in
  let keywordSet := map toLowerCase keywords in
  (* [roleKeywords[role] || roleKeywords['Software Engineer']] *)
  match lookup role roleKeywords with
  | Inherited => inl (Error "expectedKeywords.filter is not a function")
  | found =>
      let expectedKeywords :=
        match found with
        | Own l => l
        | _ => ["javascript"; "react"; "node"; "git"; "api"; "database"; "html"; "css"]
        end in
      inr (List.filter (fun keyword => negb (memS (toLowerCase keyword) keywordSet))
                       expectedKeywords)
  end.

(** The argument [options] of [computeATSScore]. *)
Record ATSOptions := mkATSOptions {
  targetRole : option string;
  o_jobDescription : option string
}.

Section LocalATS.
Context `{Runtime}.

Definition generateLocalSuggestions (resumeData : ResumeData) (score : Q)
  (targetRole : option string) : list string :=
  let s1 :=
    if negb (Qle_bool 75 score)
    then ["Add more " ++ orS targetRole "role"
          ++ "-specific keywords to improve ATS matching"]
    else [] in
  let s2 :=
    if negb (truthyS (summaryOf (personalInfo resumeData)))
    then ["Add a professional summary to highlight your strengths"] else [] in
  let s3 :=
    match technicalOf (skills resumeData) with
    | Some l =>
        if (length l <? 5)%nat
        then ["Include more technical skills relevant to your target role"]
        else []
    | None => []
    end in
  let s4 :=
    if nonEmpty (experience resumeData)
    then ["Quantify your achievements with specific metrics and numbers"]
    else [] in
  let s5 :=
    if nonEmpty (projects resumeData)
    then ["Enhance project descriptions with outcomes and technologies used"]
    else [] in
  slice0 3 (s1 ++ s2 ++ s3 ++ s4 ++ s5)%list.

(** The band of an incomplete resume: [Math.floor(Math.random() * 15) + 35]. *)
Definition incompleteScore (rnd : Q) : Q :=
  inject_Z (Math_floor (rnd * 15) + 35).

(** The score of a complete resume.  The length is an integer, so the
    bonus is a multiple of 1/1000: the exact value and the binary64 value
    that the source computes round to the same integer and compare alike
    with 75. *)
Definition completeScore (rnd : Q) (resumeLength : Z) : Q :=
  let baseScore := inject_Z (Math_floor (rnd * 11) + 70) in
  let lengthBonus := Qmin2 (inject_Z resumeLength / 1000) 5 in
  Qmin2 (baseScore + lengthBonus) 80.

(** The variable [score] of [computeATSScoreLocally]; [rnd] is the value
    that [Math.random()] returns. *)
Definition localScore (rnd : Q) (resumeData : ResumeData) : Q :=
  if PrimFloat.ltb (calculateResumeCompleteness resumeData) 0.4%float
  then incompleteScore rnd
  else completeScore rnd (calculateResumeLength resumeData).

(** [rnd] is the value of [Math.random()], [now] the time of the call. *)
Definition computeATSScoreLocally (rnd : Q) (now : Z)
  (resumeData : ResumeData) (options : ATSOptions) : JsError + JsVal :=
  let completenessScore := calculateResumeCompleteness resumeData in
  let score := localScore rnd resumeData in
  let summary :=
    if PrimFloat.ltb completenessScore 0.4%float then
      "ATS Score: " ++ numberToString score
      ++ "/100 - Resume appears incomplete. Please add more sections like projects, achievements, or certifications to improve your score."
    else
      "ATS Score: " ++ numberToString score ++ "/100 - "
      ++ (if Qle_bool 75 score then "Strong match!" else "Good match!")
      ++ " Your resume shows good potential for "
      ++ orS (targetRole options) "this role" ++ "." in
  let keywords := extractKeywords resumeData in
  let+ missingKeywords := getMissingKeywords (targetRole options) keywords in
  inr (JObj [
    ("score", JNum (inject_Z (Math_round score)));
    ("summary", JStr summary);
    ("keywordsMatched", JStrs (slice0 5 keywords));
    ("keywordsMissing", JStrs (slice0 5 missingKeywords));
    ("suggestions",
     JStrs (generateLocalSuggestions resumeData score (targetRole options)));
    ("lastComputedAt", JStr (toISOString now));
    ("computationMethod", JStr "local") ]).

End LocalATS.

(** ** The AI path of ATS scoring: normalisation of the parsed answer *)

(** [typeof v === 'number' ? Math.max(0, Math.min(100, Math.round(v))) : null] *)
Definition normalizeScore (v : JsVal) : JsVal :=
  match v with
  | JNum q => JNum (inject_Z (Z.max 0 (Z.min 100 (Math_round q))))
  | _ => JNull
  end.

(** [Array.isArray(v) ? v : []] *)
Definition arrayOrEmpty (v : JsVal) : JsVal :=
  if isArray v then v else JArr [].

(** The object literal after the comment [Normalize fields]; reading a
    property of [parsed] throws when [parsed] is [null]. *)
Definition normalizeATS (parsed : JsVal) : JsError + JsVal :=
  match getProp "score" parsed with
  | inl e => inl e
  | inr score =>
  match getProp "summary" parsed with
  | inl e => inl e
  | inr summary =>
  match getProp "keywordsMatched" parsed with
  | inl e => inl e
  | inr keywordsMatched =>
  match getProp "keywordsMissing" parsed with
  | inl e => inl e
  | inr keywordsMissing =>
  match getProp "suggestions" parsed with
  | inl e => inl e
  | inr suggestions =>
      inr (JObj [
        ("score", normalizeScore score);
        ("summary", js_or summary (JStr ""));
        ("keywordsMatched", arrayOrEmpty keywordsMatched);
        ("keywordsMissing", arrayOrEmpty keywordsMissing);
        ("suggestions", arrayOrEmpty suggestions);
        ("computationMethod", JStr "ai") ])
  end end end end end.

(** ** The operations of the service *)

Section Operations.
Context `{Runtime}.

Definition getCacheKey (data : ResumeData) : CacheKey :=
  (orS (roleApplyingFor data) "general",
   isFresher data,
   lengthOr0 (technicalOf (skills data)),
   lengthOr0 (experience data),
   lengthOr0 (projects data),
   orS (firstField (education data)) "").

(** [JSON.parse(content)] inside its [try]: a parse error is rethrown as
    [Invalid JSON from AI]. *)
Definition parseOrThrow (content : string) : M JsVal :=
  match JSON_parse content with
  | Some v => ret v
  | None => throw (Error "Invalid JSON from AI")
  end.

(** *** Profile summary *)

Definition generateProfileSummary (data : ProfileRequest) : M JsVal :=
  let* available := isAvailable in
  if negb available then ret (generateProfileSummaryLocally data)
  else
    withCircuitBreaker
      (try_catch
         (let* text := generateContent (Some (15000, "Request timeout")) in
          let summary := trim text in
          ret (JObj [
                 ("success", JBool true);
                 ("summary", JStr summary);
                 ("objective",
                  if pr_isFresher data then JStr summary else JUndef) ]))
         (fun error => ret (generateProfileSummaryLocally data))).

(** *** Multi-section enhancement *)

Definition enhanceMultipleSections (sections : Sections)
  (context : SectionsContext) : M JsVal :=
  let* available := isAvailable in
  if negb available then liftE (enhanceSectionsLocally sections context)
  else
    withCircuitBreaker
      (let* enhancedSections := liftE (enhancedSectionsOf sections context) in
       ret (JObj [
              ("success", JBool true);
              ("enhancedSections", enhancedSections) ])).

(** *** Section enhancement *)

Definition bullet : string := String "226" (String "128" (String "162" "")).

(** [s.split('\n')] *)
Fixpoint splitLines (cur : list ascii) (l : list ascii) : list string :=
  match l with
  | [] => [str (rev cur)]
  | c :: r =>
      if is_nl c then str (rev cur) :: splitLines [] r
      else splitLines (c :: cur) r
  end.

(** The bullet formatting of the enhanced content. *)
Definition formatBullets (enhancedContent : string) : string :=
  join (str [newline])
       (map (fun line => if startsWith line bullet then line
                         else bullet ++ " " ++ line)
            (List.filter (fun line => negb (String.eqb line ""))
                    (map trim (splitLines [] (chars enhancedContent))))).

(** The retry loop of [enhanceSection]; [remaining] is
    [maxRetries - retryCount]. *)
Fixpoint enhanceAttempts (remaining : nat) (retryDelay : Z) : M string :=
  match remaining with
  | O => throw (Error "Cannot read properties of undefined (reading 'response')")
  | S r =>
      try_catch (generateContent None)
        (fun error =>
           if match status error with
              | Some st => st =? 503
              | None => false
              end && negb (Nat.eqb r 0)
           then
             let* _ := sleep retryDelay in
             enhanceAttempts r (retryDelay * 2)
           else throw error)
  end.

(** The argument [context] and the text of [content] only shape the
    prompt. *)
Definition enhanceSection (section content : string) : M JsVal :=
  let* available := isAvailable in
  if negb available then
    ret (JObj [
           ("success", JBool false);
           ("error", JStr "AI service is not available") ])
  else
    try_catch
      (let* text := enhanceAttempts 3 1000 in
       let enhancedContent := trim text in
       let formattedContent := formatBullets enhancedContent in
       ret (JObj [
              ("success", JBool true);
              ("enhancedContent", JStr formattedContent) ]))
      (fun error =>
         ret (JObj [
                ("success", JBool false);
                ("error",
                 JStr ("Failed to enhance " ++ section
                       ++ " section. Please try again later.")) ])).

(** *** Resume content *)

(** One pass of the retry loop of [generateResumeContentWithAI]. *)
Definition resumeAttempt (effectiveRole : string) : M JsVal :=
  let* text := generateContent (Some (25000, "Resume generation timeout")) in
  let content := trim text in
  let content := scrubJsonText content in
  let* generatedContent := parseOrThrow content in
  ret (JObj [
         ("success", JBool true);
         ("generatedContent", generatedContent);
         ("aiPrompt",
          JStr ("Generated resume for " ++ orS (Some effectiveRole) "Professional"
                ++ " role"));
         ("generationMethod", JStr "ai") ]).

(** A retry loop [while (retryCount < maxRetries)] whose last pass
    rethrows; [remaining] is [maxRetries - retryCount]. *)
Fixpoint retryLoop (attempt : M JsVal) (remaining : nat) : M JsVal :=
  match remaining with
  | O => ret JUndef
  | S r =>
      try_catch attempt
        (fun error =>
           if Nat.eqb r 0 then throw error
           else
             let* _ := sleep 1000 in
             retryLoop attempt r)
  end.

Definition generateResumeContentWithAI (data : ResumeData) : M JsVal :=
  let effectiveRole := orS (roleApplyingFor data) "Professional" in
  (* [personalInfo.summary] *)
  let* _ := (match personalInfo data with
             | Some _ => ret tt
             | None => throw (Error "Cannot read properties of undefined (reading 'summary')")
             end) in
  let maxRetries := 2%nat in
  retryLoop (resumeAttempt effectiveRole) maxRetries.

Definition cachePut (k : CacheKey) (v : JsVal) : M unit :=
  update (fun a => set_cache a (<[k := v]> (cache a))).

Definition generateResumeContent (data : ResumeData) : M JsVal :=
  let cacheKey := getCacheKey data in
  let* a := this in
  match cache a !! cacheKey with
  | Some cached => ret cached
  | None =>
      let* attempt :=
        try_catch
          (let* available := isAvailable in
           let* a := this in
           if available && negb (CircuitState_eqb (circuitState a) OPEN) then
             let* result :=
               withCircuitBreaker
                 (let* _ := withRateLimit in
                  generateResumeContentWithAI data) in
             let* _ := cachePut cacheKey result in
             ret (Some result)
           else ret None)
          (fun error => ret None) in
      match attempt with
      | Some result => ret result
      | None =>
          let* localResult := liftE (enhanceContentLocally data) in
          let* _ := cachePut cacheKey localResult in
          ret localResult
      end
  end.

(** *** ATS scoring *)

(** One pass of the retry loop of [computeATSScoreWithAI]. *)
Definition atsAttempt : M JsVal :=
  let* text := generateContent (Some (15000, "ATS analysis timeout")) in
  let content := trim text in
  let content := scrubJsonText content in
  let* parsed := parseOrThrow content in
  liftE (normalizeATS parsed).

Definition computeATSScoreWithAI (resumeData : ResumeData)
  (options : ATSOptions) : M JsVal :=
  let maxRetries := 2%nat in
  retryLoop atsAttempt maxRetries.

Definition computeATSScore (resumeData : ResumeData) (options : ATSOptions)
  : M JsVal :=
  let* attempt :=
    try_catch
      (let* available := isAvailable in
       let* a := this in
       if available && negb (CircuitState_eqb (circuitState a) OPEN) then
         let* result :=
           withCircuitBreaker (computeATSScoreWithAI resumeData options) in
         ret (Some result)
       else ret None)
      (fun error => ret None) in
  match attempt with
  | Some result => ret result
  | None =>
      let* rnd := Math_random in
      let* now := Date_now in
      liftE (computeATSScoreLocally rnd now resumeData options)
  end.

End Operations.

(** ** Observations used by the properties *)

(** Time passes outside the service: the clock shows [t]. *)
Definition at_time (t : Z) (s : St) : St :=
  mkSt (svc s)
       (mkWorld t (remoteCalls (world s)) (remote (world s))
                (randomDraws (world s)) (random (world s))).

(** The value of a field of a result ([undefined] when it has none). *)
Definition field (k : string) (v : JsVal) : JsVal :=
  match getProp k v with
  | inr x => x
  | inl _ => JUndef
  end.

(** The state of the circuit breaker inside the service object. *)
Definition breakerOf (a : AIService)
  : CircuitState * Z * Z * Z * Z :=
  (circuitState a, failureCount a, nextTry a, failureThreshold a,
   resetTimeout a).

(** A callback that does not touch the circuit breaker (no callback of
    the source does). *)
Definition leavesBreaker {A} (fn : M A) : Prop :=
  forall s, breakerOf (svc (snd (fn s))) = breakerOf (svc s).

(** The callback fails on [s]. *)
Definition fails {A} (fn : M A) (s : St) : Prop :=
  exists e, fst (fn s) = inl e.

(** What the breaker throws when it fails fast. *)
Definition unavailable : JsError :=
  Error "AI service temporarily unavailable. Please try again later.".

(** The two operations of the governor, as the operations of the
    service use them: the exhaustion check and the reservation of a slot. *)
Inductive GovernorOp := Check | Reserve.

Definition governorOp `{Runtime} (op : GovernorOp) (s : St) : St :=
  match op with
  | Check => snd (isDailyLimitReached s)
  | Reserve => snd (withRateLimit s)
  end.

(** A sequence of governor operations, each at its time. *)
Definition governorRun `{Runtime} (ops : list (Z * GovernorOp)) (s : St) : St :=
  fold_left (fun s top => governorOp (snd top) (at_time (fst top) s)) ops s.

Definition reservations (ops : list (Z * GovernorOp)) : nat :=
  length (List.filter (fun top => match snd top with Reserve => true | Check => false end) ops).

(** ** A runtime and data for examples *)

Definition decimal (z : Z) : string :=
  DecimalString.NilZero.string_of_int (Z.to_int z).

Definition msPerDay : Z := 86400000.

(** The parsed form of the few JSON texts that the examples use. *)
Definition exampleParse (text : string) : option JsVal :=
  if String.eqb text "{}" then Some (JObj [])
  else if String.eqb text "[]" then Some (JArr [])
  else if String.eqb text "null" then Some JNull
  else None.

(** A runtime for examples: dates are shown by their day number and
    times by their millisecond count in universal time; numbers are shown
    by their integer part. *)
Definition exampleRuntime : Runtime :=
  {| JSON_parse := exampleParse;
     parseFloat := fun _ => None;
     toDateString := fun t => "day " ++ decimal (t / msPerDay);
     toISOString := fun t => decimal t;
     numberToString := fun q => decimal (Qfloor q) |}.

(** A remote model that answers every call with [text] after 100 ms. *)
Definition answering (text : string) : nat -> RemoteOutcome :=
  fun _ => Respond 100 text.

(** A remote model that rejects every call as overloaded. *)
Definition overloaded : nat -> RemoteOutcome :=
  fun _ => Reject 100 (mkError "503 Service Unavailable: the model is overloaded" (Some 503)).

Definition exampleWorld (remote : nat -> RemoteOutcome) : World :=
  mkWorld 1000000 0 remote 0 (fun _ => 1 # 2).

(** A fresh service at the time of the example world. *)
Definition freshState (key : bool) (remote : nat -> RemoteOutcome) : St :=
  mkSt (@newAIService exampleRuntime key 1000000) (exampleWorld remote).

Definition emptyResume : ResumeData :=
  mkResumeData (Some (PersonalInfo.mk None None None None))
               None None None None None None false None.

Definition exampleProject : Project.t :=
  Project.mk (Some "Shop portal") (Some "An online shop.") None None None None.

Definition bareProject : Project.t :=
  Project.mk (Some "Chat app") None (Some ["React"; "Node"]) None None None.

Definition exampleAchievement : Achievement.t :=
  Achievement.mk (Some "Hackathon winner") (Some "Won the city hackathon.") None.

Definition exampleEducation : Education.t :=
  Education.mk (Some "State University") (Some "BSc") (Some "Computer Science")
               None None (Some "3.8") (Some "Four years of study.") None.

Definition exampleResume : ResumeData :=
  mkResumeData
    (Some (PersonalInfo.mk (Some "Engineer who builds reliable services.")
                           None (Some "a@b.c") (Some "555"))) 
    (Some (Skills.mk (Some ["React"; "CSS"]) None))
    (Some [exampleEducation])
    (Some [Experience.mk (Some "Acme") (Some "Software Developer") None None None
                         (Some (BulletList ["Built things"])) None])
    (Some [exampleProject; bareProject])
    (Some [exampleAchievement])
    (Some "Frontend Developer") false None.

Definition noOptions : ATSOptions := mkATSOptions None None.

(** A resume with an education and an experience entry and nothing else:
    its sections weigh 20% + 20%. *)
Definition boundaryResume : ResumeData :=
  mkResumeData None None
    (Some [Education.mk (Some "State University") (Some "BSc")
                        (Some "Computer Science") None None None None None])
    (Some [Experience.mk (Some "Acme") (Some "Software Developer")
                         None None None None None])
    None None None false None.

(** ** What it means that enrichment only fills gaps *)

(** The string field of an output object: the caller's value where the
    caller populated it, the generated text where it was absent or
    empty (the generator has then returned that text). *)
Definition filledS (given : option string) (generated : JsError + string)
  (out : JsVal) : Prop :=
  (forall d, given = Some d -> d <> "" -> out = JStr d) /\
  (truthyS given = false -> exists g, generated = inr g /\ out = JStr g).

(** The same for an array field. *)
Definition filledL (given : option (list string))
  (generated : JsError + list string) (out : JsVal) : Prop :=
  (forall l, given = Some l -> out = JStrs l) /\
  (given = None -> exists g, generated = inr g /\ out = JStrs g).

(** An optional field of an item, as a JavaScript value. *)
Definition jsS (o : option string) : JsVal :=
  match o with
  | Some s => JStr s
  | None => JUndef
  end.


Section GapFilling.
Context `{Runtime}.




(** The items of an output array, one for each input item. *)
Definition itemsFilled {A} (P : A -> JsVal -> Prop) (given : list A)
  (out : JsVal) : Prop :=
  exists items, out = JArr items /\ Forall2 P given items.

End GapFilling.

(** ** Requests that the local engine can serve

    The local engine classifies a project by its [name], an achievement by
    its [title] and an experience by its [position], with
    [toLowerCase()], whenever it has to generate a text for the item.  An
    item that lacks both the text and the name makes it throw. *)

Definition isSome {A} (o : option A) : bool :=
  match o with Some _ => true | None => false end.

Definition projectServable (proj : Project.t) : bool :=
  isSome (Project.name proj)
  || (truthyS (Project.description proj) && isSome (Project.outcomes proj)).

Definition achievementServable (ach : Achievement.t) : bool :=
  isSome (Achievement.title ach) || truthyS (Achievement.description ach).

Definition experienceServable (exp : Experience.t) : bool :=
  isSome (Experience.position exp) || isSome (Experience.achievements exp).

(** For [enhanceContentLocally]; the experience entries of a fresher are
    dropped unread. *)
Definition resumeServable (data : ResumeData) : bool :=
  (isFresher data || forallb experienceServable (orL (experience data) []))
  && forallb projectServable (orL (projects data) [])
  && forallb achievementServable (orL (achievements data) []).

(** For [enhanceSectionsLocally] and [enhanceMultipleSections]. *)
Definition sectionsServable (sections : Sections) : bool :=
  forallb projectServable (orL (s_projects sections) [])
  && forallb achievementServable (orL (s_achievements sections) []).

(** ** Failure of the remote path *)

Section RemoteFailure.
Context `{Runtime}.

(** The remote path is unavailable for the next operation: no credential,
    breaker open, or daily quota exhausted. *)
Definition unavailableAt (s : St) : Prop := fst (isAvailable s) = inr false.

(** Every call of the remote model fails: it rejects (overload, quota,
    rate limit), or it answers with text that does not parse even after
    repair. *)
Definition remoteFails (remote : nat -> RemoteOutcome) : Prop :=
  forall n,
    match remote n with
    | Reject _ _ => True
    | Respond _ text => JSON_parse (scrubJsonText (trim text)) = None
    end.

(** Every call of the remote model rejects. *)
Definition remoteRejects (remote : nat -> RemoteOutcome) : Prop :=
  forall n, exists d e, remote n = Reject d e.

(** No call of the remote model answers within [limit] milliseconds: it
    rejects, or its answer comes too late for the timer that the call is
    raced against. *)
Definition silentWithin (limit : Z) (remote : nat -> RemoteOutcome) : Prop :=
  forall n,
    match remote n with
    | Reject _ _ => True
    | Respond d _ => limit <= d
    end.

(** Every cached result is a successful one. *)
Definition cacheOk (a : AIService) : Prop :=
  map_Forall (fun _ v => field "success" v = JBool true) (cache a).

End RemoteFailure.

(** ** Plain text for the repair unit *)

(** A character other than the double quote, the backtick and the
    control characters. *)
Definition cleanChar (c : ascii) : bool :=
  negb (Ascii.eqb c dq) && negb (Ascii.eqb c backtick) && negb (is_control c).

(** Text with no double quote, comma, backtick or control character. *)
Definition plainChar (c : ascii) : bool :=
  cleanChar c && negb (Ascii.eqb c comma).

Definition plainText (text : string) : Prop :=
  forallb plainChar (chars text) = true.

(** The same classes on the characters of a text. *)
Definition Clean (l : list ascii) : Prop := Forall (fun c => cleanChar c = true) l.
Definition Plain (l : list ascii) : Prop := Forall (fun c => plainChar c = true) l.

(** The text does not begin, or end, with white space. *)
Definition startsClean (l : list ascii) : Prop :=
  match l with c :: _ => is_ws c = false | [] => True end.

Definition endsClean (l : list ascii) : Prop := startsClean (rev l).

(** Every comma is directly followed by an opening brace. *)
Fixpoint guarded (l : list ascii) : bool :=
  match l with
  | [] => true
  | c :: r =>
      (if Ascii.eqb c comma
       then match r with d :: _ => Ascii.eqb d lbrace | [] => false end
       else true) && guarded r
  end.

(** Some place of the text matches the pattern of the comma insertion. *)
Fixpoint hasAdjacent (l : list ascii) : bool :=
  match l with
  | [] => false
  | c :: r => (is_left c && follows is_right r) || hasAdjacent r
  end.

(** ** Schemas without their provenance tag *)

Definition provenanceTags : list string :=
  ["generationMethod"; "enhancementMethod"; "computationMethod"].

Definition withoutTags (sch : list (string * Shape)) : list (string * Shape) :=
  List.filter (fun kv => negb (memS (fst kv) provenanceTags)) sch.

(** ** More data for examples *)

(** A remote model whose first two calls are rejected as overloaded and
    whose later calls answer. *)
Definition flaky : nat -> RemoteOutcome :=
  fun n => if (n <? 2)%nat
           then Reject 100 (mkError "503 Service Unavailable: the model is overloaded" (Some 503))
           else Respond 100 "ok".

(** One attempt through the circuit breaker that calls the remote model. *)
Definition remoteAttempt : M string := withCircuitBreaker (generateContent None).

(** A fresh service after two failed attempts. *)
Definition afterTwoFailures : St :=
  snd (remoteAttempt (snd (remoteAttempt (freshState true flaky)))).


Definition exampleContext : SectionsContext :=
  mkSectionsContext (Some "Frontend Developer") None.

(** Fifteen reservations, each preceded by the exhaustion check, one
    second apart. *)
Definition fifteenReservations : list (Z * GovernorOp) :=
  flat_map (fun i => [(1000000 + 1000 * Z.of_nat i, Check);
                      (1000000 + 1000 * Z.of_nat i, Reserve)])
           (seq 0 15).

Definition exampleProfile : ProfileRequest :=
  mkProfileRequest (Some "Frontend Developer") true
                   (Some (Skills.mk (Some ["React"; "CSS"]) None)) None None.

(** A computation that leaves the cache alone. *)
Definition keepsCache {A} (m : M A) : Prop :=
  forall s r s', m s = (r, s') -> cache (svc s') = cache (svc s).

(** ** Resume review *)

Section Review.
Context `{Runtime}.

(** [reviewResume]: [resumeData] and [jobDescription] only shape the
    prompt.  The method does not consult [isAvailable]: with no credential
    [this.genAI] is [null] and [this.genAI.getGenerativeModel] throws inside
    the [try]. *)
Definition reviewResume (resumeData : JsVal) (jobDescription : option string)
  : M string :=
  try_catch
    (let* a := this in
     if genAI a then generateContent None
     else throw (Error "Cannot read properties of null (reading 'getGenerativeModel')"))
    (fun error => throw (Error "Failed to review resume. Please try again later.")).

End Review.

(** ** The handlers of [routes/ai.js]

    A handler runs after the middleware of its route; [errors] is the
    array of [validationResult(req)], and the fields of [req.body] are the
    arguments. *)

(** What the handler sends: [res.status(statusCode).json(body)], with
    status 200 for a plain [res.json(body)]. *)
Record Response := mkResponse { statusCode : Z; json : JsVal }.

(** [error.message || fallback] *)
Definition messageOr (error : JsError) (fallback : string) : JsVal :=
  JStr (if String.eqb (message error) "" then fallback else message error).

(** [{ success: false, error: 'Validation failed', details: errors.array() }] *)
Definition validationFailed (errors : list JsVal) : Response :=
  mkResponse 400 (JObj [
    ("success", JBool false);
    ("error", JStr "Validation failed");
    ("details", JArr errors) ]).

Definition isEmpty {A} (l : list A) : bool :=
  match l with [] => true | _ => false end.

Section Routes.
Context `{Runtime}.

(** [POST /generate-resume] *)
Definition generateResumeRoute (errors : list JsVal) (data : ResumeData)
  : M Response :=
  try_catch
    (if negb (isEmpty errors)
     then ret (mkResponse 400 (JObj [("errors", JArr errors)]))
     else
       let* result := generateResumeContent data in
       ret (mkResponse 200 result))
    (fun error =>
       ret (mkResponse 500 (JObj [
              ("error", messageOr error "Failed to generate resume content") ]))).

(** [POST /enhance] *)
Definition enhanceRoute (errors : list JsVal) (section content : string)
  : M Response :=
  try_catch
    (if negb (isEmpty errors) then ret (validationFailed errors)
     else
       let* result := enhanceSection section content in
       if negb (truthy (field "success" result))
       then ret (mkResponse 400 result)
       else
         ret (mkResponse 200 (JObj [
                ("success", JBool true);
                ("enhancedContent", field "enhancedContent" result) ])))
    (fun error =>
       ret (mkResponse 500 (JObj [
              ("success", JBool false);
              ("error", messageOr error "Failed to enhance content") ]))).

(** [POST /review-resume] *)
Definition reviewResumeRoute (errors : list JsVal) (resumeData : JsVal)
  (jobDescription : option string) : M Response :=
  try_catch
    (if negb (isEmpty errors)
     then ret (mkResponse 400 (JObj [("errors", JArr errors)]))
     else
       let* review := reviewResume resumeData jobDescription in
       ret (mkResponse 200 (JObj [("review", JStr review)])))
    (fun error =>
       ret (mkResponse 500 (JObj [
              ("error", messageOr error "Failed to review resume") ]))).

(** [POST /generate-profile-summary] *)
Definition generateProfileSummaryRoute (errors : list JsVal)
  (data : ProfileRequest) : M Response :=
  try_catch
    (if negb (isEmpty errors) then ret (validationFailed errors)
     else
       let* result := generateProfileSummary data in
       if negb (truthy (field "success" result))
       then ret (mkResponse 400 result)
       else
         ret (mkResponse 200 (JObj [
                ("success", JBool true);
                ("summary", field "summary" result);
                ("objective", field "objective" result) ])))
    (fun error =>
       ret (mkResponse 500 (JObj [
              ("success", JBool false);
              ("error", messageOr error "Failed to generate profile summary") ]))).

(** [POST /enhance-sections] *)
Definition enhanceSectionsRoute (errors : list JsVal) (sections : Sections)
  (context : SectionsContext) : M Response :=
  try_catch
    (if negb (isEmpty errors) then ret (validationFailed errors)
     else
       let* result := enhanceMultipleSections sections context in
       if negb (truthy (field "success" result))
       then ret (mkResponse 400 result)
       else
         ret (mkResponse 200 (JObj [
                ("success", JBool true);
                ("enhancedSections", field "enhancedSections" result) ])))
    (fun error =>
       ret (mkResponse 500 (JObj [
              ("success", JBool false);
              ("error", messageOr error "Failed to enhance sections") ]))).

End Routes.

(** ** Budgets of an operation *)

(** The operation calls the remote model at most [n] times. *)
Definition callsAtMost {A} (n : nat) (m : M A) : Prop :=
  forall s r s', m s = (r, s') ->
    (remoteCalls (world s) <= remoteCalls (world s')
     /\ remoteCalls (world s') <= remoteCalls (world s) + n)%nat.

(** The operation takes at most [d] milliseconds. *)
Definition takesAtMost {A} (d : Z) (m : M A) : Prop :=
  forall s r s', m s = (r, s') -> clock (world s') <= clock (world s) + d.

(** The time by which resume-content generation has returned: the
    rate-limit wait, two passes of at most 25 s and one second between
    them. *)
Definition resumeDeadline (s : St) : Z :=
  Z.max (clock (world s)) (lastApiCall (svc s) + minCallInterval (svc s)) + 51000.

(** A request body without the [personalInfo] section. *)
Definition resumeWithoutPersonalInfo : ResumeData :=
  mkResumeData None (Some (Skills.mk (Some ["React"; "CSS"]) None))
               None None None None (Some "Frontend Developer") true None.

(** The fields of the service object that the governor owns. *)
Definition governorOf (a : AIService) : Z * Z * Z * Z * string :=
  (lastApiCall a, minCallInterval a, dailyCallCount a, dailyCallLimit a,
   lastResetDate a).

(** The breaker after an operation whose callback cannot fail. *)
Definition afterSuccess (available : JsError + bool) (a a' : AIService) : Prop :=
  failureThreshold a' = failureThreshold a /\
  resetTimeout a' = resetTimeout a /\
  nextTry a' = nextTry a /\
  match circuitState a, available with
  | HALF_OPEN, inr true => circuitState a' = CLOSED /\ failureCount a' = 0
  | _, _ => circuitState a' = circuitState a /\ failureCount a' = failureCount a
  end.

(** ** Texts for the repair unit *)

(** A text without control characters. *)
Definition noControl (l : list ascii) : Prop :=
  Forall (fun c => is_control c = false) l.

(** An answer wrapped in a Markdown code fence, with and without the line
    breaks around the body. *)
Definition fenced (body : string) : string :=
  "```json" ++ str [newline] ++ body ++ str [newline] ++ "```".

Definition fencedTight (body : string) : string :=
  "```json" ++ body ++ "```".

(** ** Bullet lines *)

(** A line as [formatBullets] leaves it: trimmed, not empty, without a line
    break, and starting with the bullet. *)
Definition bulletLine (line : string) : Prop :=
  trim line = line /\ line <> "" /\
  existsb is_nl (chars line) = false /\
  startsWith line bullet = true.

(** ** Outcomes of section enhancement and of the routes *)

(** The two failures that [enhanceSection] reports to its caller. *)
Definition notAvailable : JsVal :=
  JObj [("success", JBool false);
        ("error", JStr "AI service is not available")].

Definition enhanceFailed (section : string) : JsVal :=
  JObj [("success", JBool false);
        ("error",
         JStr ("Failed to enhance " ++ section
               ++ " section. Please try again later."))].

(** Its success, for the text that the remote model answered. *)
Definition enhanced (text : string) : JsVal :=
  JObj [("success", JBool true);
        ("enhancedContent", JStr (formatBullets (trim text)))].

(** The error that [reviewResume] throws. *)
Definition reviewFailed : JsError :=
  Error "Failed to review resume. Please try again later.".

(** The next calls of the remote model, from the state [s] on. *)
Definition nextCall (s : St) (i : nat) : RemoteOutcome :=
  remote (world s) (remoteCalls (world s) + i)%nat.

(** A rejection that the retry loop of [enhanceSection] retries. *)
Definition isOverload (o : RemoteOutcome) : bool :=
  match o with
  | Reject _ e => match status e with Some st => st =? 503 | None => false end
  | Respond _ _ => false
  end.

Definition latencyOf (o : RemoteOutcome) : Z :=
  match o with Respond d _ | Reject d _ => d end.

(** What [enhanceSection] answers when the call [o] of the remote model
    is the one that ends its retry loop. *)
Definition enhanceResult (section : string) (o : RemoteOutcome) : JsVal :=
  match o with
  | Respond _ text => enhanced text
  | Reject _ _ => enhanceFailed section
  end.

(** The number of remote calls that the retry loop of [enhanceSection]
    makes from [s] on: a call is repeated when it is rejected as
    overloaded (status 503), twice at most. *)
Definition attemptsUsed (s : St) : nat :=
  if isOverload (nextCall s 0)
  then if isOverload (nextCall s 1) then 3 else 2
  else 1.

(** The time that the loop spends from [s] on: the latencies of its calls,
    and a pause of one second before the second call and of two seconds
    before the third. *)
Definition attemptsTime (s : St) : Z :=
  latencyOf (nextCall s 0)
  + (if isOverload (nextCall s 0)
     then 1000 + latencyOf (nextCall s 1)
          + (if isOverload (nextCall s 1)
             then 2000 + latencyOf (nextCall s 2) else 0)
     else 0).

(** ** The experience entries of the local result *)

Section ExperienceFilling.
Context `{Runtime}.

Definition experienceFilled (skills : option Skills.t) (exp : Experience.t)
  (out : JsVal) : Prop :=
  filledL (Experience.achievements exp)
          (generateExperienceAchievements exp skills)
          (field "achievements" out) /\
  field "position" out = jsS (Experience.position exp) /\
  field "company" out = jsS (Experience.company exp) /\
  field "location" out = jsS (Experience.location exp) /\
  field "startDate" out = jsS (Experience.startDate exp) /\
  field "endDate" out = jsS (Experience.endDate exp) /\
  field "description" out =
    match Experience.description exp with
    | Some b => bulletsJs b
    | None => JUndef
    end.

End ExperienceFilling.

(** A text in lower case. *)
Definition lowered (l : list ascii) : Prop := Forall (fun c => lower c = c) l.


(** ** More states for examples *)

(** A service whose breaker was opened by a third failure and whose
    cool-down ended one second ago; the remote model answers again. *)
Definition trippedState : St :=
  mkSt (set_circuit (@newAIService exampleRuntime true 1000000) OPEN 3 999000)
       (exampleWorld (answering "ok")).

(** A computation that leaves the fields of the governor alone. *)
Definition keepsGovernor {A} (m : M A) : Prop :=
  forall s r s', m s = (r, s') -> governorOf (svc s') = governorOf (svc s).

(** ** The results of the AI path *)

(** The result of profile-summary generation for the text that the remote
    model answered. *)
Definition aiProfileSummary (data : ProfileRequest) (text : string) : JsVal :=
  JObj [("success", JBool true);
        ("summary", JStr (trim text));
        ("objective", if pr_isFresher data then JStr (trim text) else JUndef)].

(** The result of resume-content generation for the parsed answer. *)
Definition aiResumeContent (data : ResumeData) (parsed : JsVal) : JsVal :=
  JObj [("success", JBool true);
        ("generatedContent", parsed);
        ("aiPrompt",
         JStr ("Generated resume for "
               ++ orS (roleApplyingFor data) "Professional" ++ " role"));
        ("generationMethod", JStr "ai")].

(** ** The reservation, segment by segment

    [withRateLimit] is an [async] method.  When it has to wait it suspends
    at its [await], and other requests run on the same service object (the
    module exports one instance) before its timer fires. *)

(** The segment before the [await]: it reads the clock and [lastApiCall]
    and tells how long the reservation has to wait (0: it does not
    suspend). *)
Definition reservationBegin : M Z :=
  let* now := Date_now in
  let* a := this in
  let timeSinceLastCall := now - lastApiCall a in
  ret (if timeSinceLastCall <? minCallInterval a
       then minCallInterval a - timeSinceLastCall
       else 0).

(** The segment after the [await]: the stamp and the count. *)
Definition reservationStamp : M unit :=
  let* now' := Date_now in
  let* _ := update (fun a => set_governor a now' (dailyCallCount a) (lastResetDate a)) in
  update (fun a => set_governor a (lastApiCall a) (dailyCallCount a + 1) (lastResetDate a)).

(** Two requests whose reservations overlap: the second request arrives
    [delay] milliseconds after the first, while the first is waiting; then
    the timer of the first fires, and then the timer of the second.  The
    result is the pair of their stamps. *)
Definition overlappingReservations (delay : Z) : M (Z * Z) :=
  let* wait1 := reservationBegin in
  let* _ := sleep delay in
  let* wait2 := reservationBegin in
  let* _ := sleep (wait1 - delay) in
  let* _ := reservationStamp in
  let* a := this in
  let stamp1 := lastApiCall a in
  let* _ := sleep (delay + wait2 - wait1) in
  let* _ := reservationStamp in
  let* a := this in
  ret (stamp1, lastApiCall a).

(** ** An answer to an ATS request, for examples *)

Definition quoted (s : string) : string := str [dq] ++ s ++ str [dq].

(** The JSON text of an answer whose score is not an integer and whose
    missing keywords are not an array. *)
Definition atsAnswer : string :=
  "{" ++ quoted "score" ++ ": 87.6, "
      ++ quoted "summary" ++ ": " ++ quoted "Solid profile" ++ ", "
      ++ quoted "keywordsMatched" ++ ": ["
      ++ quoted "react" ++ ", " ++ quoted "css" ++ "], "
      ++ quoted "keywordsMissing" ++ ": " ++ quoted "none" ++ ", "
      ++ quoted "suggestions" ++ ": [" ++ quoted "Add metrics" ++ "]}".

(** What [JSON.parse] makes of it. *)
Definition atsParsed : JsVal :=
  JObj [("score", JNum (876 # 10));
        ("summary", JStr "Solid profile");
        ("keywordsMatched", JStrs ["react"; "css"]);
        ("keywordsMissing", JStr "none");
        ("suggestions", JStrs ["Add metrics"])].

(** The example runtime, with a [JSON.parse] that also knows this text. *)
Definition atsRuntime : Runtime :=
  {| JSON_parse := fun text => if String.eqb text atsAnswer then Some atsParsed
                               else exampleParse text;
     parseFloat := @parseFloat exampleRuntime;
     toDateString := @toDateString exampleRuntime;
     toISOString := @toISOString exampleRuntime;
     numberToString := @numberToString exampleRuntime |}.

(** A remote model whose first call is rejected as overloaded and whose
    later calls give that answer, with white space around it. *)
Definition answersSecond : nat -> RemoteOutcome :=
  fun n => if (n <? 1)%nat
           then Reject 100 (mkError "503 Service Unavailable: the model is overloaded" (Some 503))
           else Respond 100 (" " ++ atsAnswer ++ " ").

(** A resume with one project that has neither a name nor a description,
    as the routes let it through. *)
Definition unnamedProject : Project.t :=
  Project.mk None None (Some ["React"]) None None None.

Definition resumeWithUnnamedProject : ResumeData :=
  mkResumeData (Some (PersonalInfo.mk None None None None))
               None None None (Some [unnamedProject]) None
               (Some "Frontend Developer") true None.

Definition sectionsWithUnnamedProject : Sections :=
  mkSections (Some [unnamedProject]) None None None.

(** ** The passes of the AI path of ATS scoring *)

Section AtsPasses.
Context `{Runtime}.

(** The answer [o] of the remote model is usable by a pass of
    [computeATSScoreWithAI]: it arrives before the timer of 15 s fires and
    its repaired text parses to [parsed], a value whose properties can be
    read. *)
Definition usableAnswer (o : RemoteOutcome) (parsed : JsVal) : Prop :=
  exists latency text,
    o = Respond latency text /\ latency < 15000 /\
    JSON_parse (scrubJsonText (trim text)) = Some parsed /\
    parsed <> JNull /\ parsed <> JUndef.

(** The pass that gets the answer [o] fails: the call rejects or times
    out, or the repaired text does not parse, or it parses to [null]. *)
Definition uselessAnswer (o : RemoteOutcome) : Prop :=
  match o with
  | Reject _ _ => True
  | Respond latency text =>
      15000 <= latency \/
      match JSON_parse (scrubJsonText (trim text)) with
      | Some parsed => parsed = JNull \/ parsed = JUndef
      | None => True
      end
  end.

(** [result] is the normal form of [parsed]. *)
Definition normalizedFrom (parsed result : JsVal) : Prop :=
  field "score" result =
    match field "score" parsed with
    | JNum q => JNum (inject_Z (Z.max 0 (Z.min 100 (Math_round q))))
    | _ => JNull
    end /\
  (forall q, field "score" parsed = JNum q ->
     exists z, field "score" result = JNum (inject_Z z) /\ 0 <= z <= 100) /\
  (forall k, In k ["keywordsMatched"; "keywordsMissing"; "suggestions"] ->
     field k result =
       if isArray (field k parsed) then field k parsed else JArr []) /\
  field "computationMethod" result = JStr "ai".

End AtsPasses.

(** * Properties *)


(** ** Circuit breaker and governor *)

Ltac run := unfold bind, ret, throw, try_catch, this, update, Date_now; simpl.

Lemma liftE_run {A} (r : JsError + A) (s : St) : liftE r s = (r, s).
Proof. destruct r; reflexivity. Qed.

Lemma retryLoop_S (attempt : M JsVal) (r : nat) :
  retryLoop attempt (S r) =
    try_catch attempt
      (fun error =>
         if Nat.eqb r 0 then throw error
         else bind (sleep 1000) (fun _ => retryLoop attempt r)).
Proof. reflexivity. Qed.

Lemma leavesBreaker_state {A} (fn : M A) s r s' :
  leavesBreaker fn -> fn s = (r, s') -> breakerOf (svc s') = breakerOf (svc s).
Proof. intros L E. specialize (L s). rewrite E in L. exact L. Qed.

(** C4 (amended).  A successful attempt through the circuit breaker leaves
    the failure count unchanged when the breaker is CLOSED; it resets the
    count to 0 (and closes the breaker) when the breaker is HALF-OPEN. *)
Theorem success_resets_only_half_open {A} (fn : M A) (s s' : St) (x : A) :
  leavesBreaker fn ->
  circuitState (svc s) <> OPEN ->
  fn s = (inr x, s') ->
  exists s'', withCircuitBreaker fn s = (inr x, s'') /\
    circuitState (svc s'') = CLOSED /\
    failureCount (svc s'') =
      match circuitState (svc s) with
      | HALF_OPEN => 0
      | _ => failureCount (svc s)
      end.
Proof.
  intros L NO E.
  pose proof (leavesBreaker_state fn s _ s' L E) as B.
  unfold breakerOf in B. injection B as B1 B2 B3 B4 B5.
  unfold withCircuitBreaker. run.
  destruct (circuitState (svc s)) eqn:C; try congruence; simpl; rewrite E; simpl; rewrite B1; simpl.
  - exists s'. repeat split; auto.
  - eexists. repeat split.
Qed.

Lemma breaker_fails_fast {A} (fn : M A) (s : St) :
  circuitState (svc s) = OPEN ->
  clock (world s) <= nextTry (svc s) ->
  withCircuitBreaker fn s = (inl unavailable, s).
Proof.
  intros C T. unfold withCircuitBreaker. run. rewrite C. simpl.
  destruct (nextTry (svc s) <? clock (world s)) eqn:E.
  - apply Z.ltb_lt in E. lia.
  - reflexivity.
Qed.

Lemma closed_failure_counts {A} (fn : M A) (s s' : St) (e : JsError) :
  leavesBreaker fn ->
  circuitState (svc s) = CLOSED ->
  fn s = (inl e, s') ->
  exists s'', withCircuitBreaker fn s = (inl e, s'') /\
    world s'' = world s' /\
    failureThreshold (svc s'') = failureThreshold (svc s) /\
    resetTimeout (svc s'') = resetTimeout (svc s) /\
    failureCount (svc s'') = failureCount (svc s) + 1 /\
    if failureThreshold (svc s) <=? failureCount (svc s) + 1
    then circuitState (svc s'') = OPEN /\
         nextTry (svc s'') = clock (world s') + resetTimeout (svc s)
    else circuitState (svc s'') = CLOSED.
Proof.
  intros L C E.
  pose proof (leavesBreaker_state fn s _ s' L E) as B.
  unfold breakerOf in B. injection B as B1 B2 B3 B4 B5.
  unfold withCircuitBreaker. run. rewrite C. simpl. rewrite E. simpl.
  unfold recordFailure. run.
  rewrite B4, B2.
  destruct (failureThreshold (svc s) <=? failureCount (svc s) + 1) eqn:T; simpl;
    match goal with |- context [if ?b then _ else _] => destruct b end.
  all: eexists; (split; [reflexivity|]); simpl;
    rewrite ?B5, ?B1, ?C; repeat split; auto.
Qed.

(** C5.  While the breaker is OPEN and the cool-down has not elapsed, an
    attempt fails fast: it throws and leaves the whole state, the count of
    remote calls included, unchanged, whatever the wrapped call is.  In
    particular, with threshold 3, after three consecutive failed attempts
    that each find the breaker CLOSED, the breaker is OPEN with
    [nextTry = now + resetTimeout], and the next attempt within the
    cool-down is short-circuited. *)
Theorem open_breaker_never_calls {A} (f1 f2 f3 fn : M A) (t1 t2 t3 t4 : Z) (s0 : St) :
  (forall s : St,
      circuitState (svc s) = OPEN ->
      clock (world s) <= nextTry (svc s) ->
      withCircuitBreaker fn s = (inl unavailable, s)) /\
  (failureThreshold (svc s0) = 3 ->
   0 <= failureCount (svc s0) ->
   leavesBreaker f1 -> leavesBreaker f2 -> leavesBreaker f3 ->
   let s1 := snd (withCircuitBreaker f1 (at_time t1 s0)) in
   let s2 := snd (withCircuitBreaker f2 (at_time t2 s1)) in
   let s3 := snd (withCircuitBreaker f3 (at_time t3 s2)) in
   circuitState (svc s0) = CLOSED -> fails f1 (at_time t1 s0) ->
   circuitState (svc s1) = CLOSED -> fails f2 (at_time t2 s1) ->
   circuitState (svc s2) = CLOSED -> fails f3 (at_time t3 s2) ->
   t4 <= nextTry (svc s3) ->
   circuitState (svc s3) = OPEN /\
   nextTry (svc s3) = clock (world s3) + resetTimeout (svc s0) /\
   withCircuitBreaker fn (at_time t4 s3) = (inl unavailable, at_time t4 s3)).
Proof.
  split; [intros s; apply breaker_fails_fast|].
  intros T0 F0 L1 L2 L3 s1 s2 s3 C0 [e1 E1] C1 [e2 E2] C2 [e3 E3] H4.
  destruct (f1 (at_time t1 s0)) as [r1 u1] eqn:R1. simpl in E1. subst r1.
  destruct (closed_failure_counts f1 (at_time t1 s0) u1 e1 L1 C0 R1)
    as (s1' & W1 & _ & Th1 & Rt1 & Fc1 & St1).
  simpl in Th1, Rt1, Fc1, St1.
  assert (S1 : s1 = s1') by (unfold s1; rewrite W1; reflexivity).
  rewrite S1 in C1.
  destruct (failureThreshold (svc s0) <=? failureCount (svc s0) + 1) eqn:B1;
    [destruct St1; congruence|]. apply Z.leb_gt in B1.
  destruct (f2 (at_time t2 s1)) as [r2 u2] eqn:R2. simpl in E2. subst r2.
  assert (C1' : circuitState (svc (at_time t2 s1)) = CLOSED)
    by (simpl; rewrite S1; exact C1).
  destruct (closed_failure_counts f2 (at_time t2 s1) u2 e2 L2 C1' R2)
    as (s2' & W2 & _ & Th2 & Rt2 & Fc2 & St2).
  simpl in Th2, Rt2, Fc2, St2. rewrite S1 in Th2, Rt2, Fc2, St2.
  assert (S2 : s2 = s2') by (unfold s2; rewrite W2; reflexivity).
  rewrite S2 in C2.
  destruct (failureThreshold (svc s1') <=? failureCount (svc s1') + 1) eqn:B2;
    [destruct St2; congruence|]. apply Z.leb_gt in B2.
  destruct (f3 (at_time t3 s2)) as [r3 u3] eqn:R3. simpl in E3. subst r3.
  assert (C2' : circuitState (svc (at_time t3 s2)) = CLOSED)
    by (simpl; rewrite S2; exact C2).
  destruct (closed_failure_counts f3 (at_time t3 s2) u3 e3 L3 C2' R3)
    as (s3' & W3 & Wd3 & Th3 & Rt3 & Fc3 & St3).
  simpl in Th3, Rt3, Fc3, St3. rewrite S2 in Th3, Rt3, Fc3, St3.
  assert (S3 : s3 = s3') by (unfold s3; rewrite W3; reflexivity).
  assert (B3 : (failureThreshold (svc s2') <=? failureCount (svc s2') + 1) = true)
    by (apply Z.leb_le; lia).
  rewrite B3 in St3. destruct St3 as [O3 N3].
  rewrite Rt2, Rt1, <- Wd3 in N3.
  repeat split.
  - rewrite S3. exact O3.
  - rewrite S3. exact N3.
  - apply breaker_fails_fast; simpl; [rewrite S3; exact O3 | exact H4].
Qed.

Section Governor.
Context `{Runtime}.

Lemma withRateLimit_spec (s : St) :
  exists s', withRateLimit s = (inr tt, s') /\
    dailyCallCount (svc s') = dailyCallCount (svc s) + 1 /\
    dailyCallLimit (svc s') = dailyCallLimit (svc s) /\
    lastResetDate (svc s') = lastResetDate (svc s).
Proof.
  unfold withRateLimit. run.
  destruct (clock (world s) - lastApiCall (svc s) <? minCallInterval (svc s));
    simpl; eexists; (split; [reflexivity|]); simpl; auto.
Qed.

Lemma check_same_day (s : St) :
  toDateString (clock (world s)) = lastResetDate (svc s) ->
  isDailyLimitReached s = (inr (dailyCallLimit (svc s) <=? dailyCallCount (svc s)), s).
Proof.
  intros D. unfold isDailyLimitReached, Date_today. run.
  rewrite D, String.eqb_refl. reflexivity.
Qed.

Lemma check_new_day (s : St) :
  toDateString (clock (world s)) <> lastResetDate (svc s) ->
  exists s', isDailyLimitReached s = (inr (dailyCallLimit (svc s) <=? 0), s') /\
    world s' = world s /\
    dailyCallCount (svc s') = 0 /\
    dailyCallLimit (svc s') = dailyCallLimit (svc s) /\
    lastResetDate (svc s') = toDateString (clock (world s)).
Proof.
  intros D. unfold isDailyLimitReached, Date_today. run.
  apply String.eqb_neq in D. rewrite D. simpl.
  eexists. split; [reflexivity|]. simpl. auto.
Qed.

Lemma governorRun_same_day (day : string) (ops : list (Z * GovernorOp)) :
  forall s,
    Forall (fun top => toDateString (fst top) = day) ops ->
    lastResetDate (svc s) = day ->
    let s' := governorRun ops s in
    lastResetDate (svc s') = day /\
    dailyCallLimit (svc s') = dailyCallLimit (svc s) /\
    dailyCallCount (svc s') = dailyCallCount (svc s) + Z.of_nat (reservations ops).
Proof.
  induction ops as [|[t op] ops IH]; intros s F D; simpl.
  - repeat split; auto. unfold reservations. simpl. lia.
  - inversion F as [|? ? Ft F']; subst. simpl in Ft.
    set (s1 := governorOp op (at_time t s)).
    assert (P : lastResetDate (svc s1) = lastResetDate (svc s) /\
                dailyCallLimit (svc s1) = dailyCallLimit (svc s) /\
                dailyCallCount (svc s1) = dailyCallCount (svc s)
                  + match op with Reserve => 1 | Check => 0 end).
    { unfold s1. destruct op; simpl.
      - rewrite check_same_day by (simpl; auto). simpl. repeat split; lia.
      - destruct (withRateLimit_spec (at_time t s)) as (s' & E & C & L & R).
        rewrite E. simpl. simpl in C, L, R. auto. }
    destruct P as (P1 & P2 & P3).
    specialize (IH s1 F'). rewrite P1 in IH. specialize (IH eq_refl).
    destruct IH as (I1 & I2 & I3).
    fold (governorRun ops s1).
    repeat split; auto; try congruence.
    rewrite I3, P3. unfold reservations. simpl. destruct op; simpl; lia.
Qed.

(** C7.  With a daily ceiling of 15, after checks and reservations that
    all happen on the calendar day of the stored date, 15 of them
    reservations, the exhaustion check on that day reports exhausted.  The first check on another day reports not exhausted and
    resets the counter to 0 together with the stored date; the
    reservation that follows succeeds and counts 1. *)
Theorem daily_ceiling_and_reset (ops : list (Z * GovernorOp)) (t16 tnext : Z) (s : St) :
  dailyCallLimit (svc s) = 15 ->
  0 <= dailyCallCount (svc s) ->
  lastResetDate (svc s) = toDateString t16 ->
  Forall (fun top => toDateString (fst top) = toDateString t16) ops ->
  reservations ops = 15%nat ->
  toDateString tnext <> toDateString t16 ->
  let s15 := governorRun ops s in
  isDailyLimitReached (at_time t16 s15) = (inr true, at_time t16 s15) /\
  exists s0 s1,
    isDailyLimitReached (at_time tnext s15) = (inr false, s0) /\
    dailyCallCount (svc s0) = 0 /\
    lastResetDate (svc s0) = toDateString tnext /\
    withRateLimit s0 = (inr tt, s1) /\
    dailyCallCount (svc s1) = 1.
Proof.
  intros L C D F R N s15.
  destruct (governorRun_same_day _ ops s F D) as (D' & L' & C').
  fold s15 in D', L', C'. rewrite L in L'. rewrite R in C'.
  split.
  - rewrite check_same_day by (simpl; congruence). simpl. rewrite L'.
    replace (15 <=? dailyCallCount (svc s15)) with true; [reflexivity|].
    symmetry. apply Z.leb_le. lia.
  - destruct (check_new_day (at_time tnext s15)) as (s0 & E0 & W0 & C0 & L0 & D0).
    { simpl. congruence. }
    simpl in E0, C0, L0, D0. rewrite L' in E0. simpl in E0.
    destruct (withRateLimit_spec s0) as (s1 & E1 & C1 & _).
    exists s0, s1. repeat split; auto. lia.
Qed.

End Governor.

(** ** Local ATS score *)






Lemma floor_scaled (rnd : Q) (n : Z) :
  (0 <= rnd)%Q -> (rnd < 1)%Q -> 0 < n ->
  0 <= Math_floor (rnd * inject_Z n) < n.
Proof.
  intros L U N. unfold Math_floor.
  assert (Nq : (0 < inject_Z n)%Q) by (change 0%Q with (inject_Z 0); rewrite <- Zlt_Qlt; lia).
  split.
  - change 0 with (Qfloor 0). apply Qfloor_resp_le.
    apply Qmult_le_0_compat; auto. apply Qlt_le_weak; auto.
  - rewrite Zlt_Qlt.
    apply Qle_lt_trans with (rnd * inject_Z n)%Q; [apply Qfloor_le|].
    apply Qlt_le_trans with (1 * inject_Z n)%Q;
      [apply Qmult_lt_compat_r; auto | rewrite Qmult_1_l; apply Qle_refl].
Qed.

Lemma round_integer (z : Z) : Math_round (inject_Z z) = z.
Proof.
  unfold Math_round, Qfloor, Qplus, inject_Z. simpl.
  rewrite Z.mul_1_r. 
  assert (E : (z * 2 + 1) = 1 + z * 2) by lia. rewrite E.
  rewrite Z.div_add by lia. reflexivity.
Qed.










(** Lookups with a plain key *)

Lemma inr_inj (E : Type) {A} (x y : A) : @inr E A x = inr y -> x = y.
Proof. congruence. Qed.

Lemma lookup_plain {A} (key : option string) (table : list (string * A)) :
  plainKey key ->
  lookup key table =
    match key with
    | Some k => match lookupKey k table with Some v => Own v | None => Nothing end
    | None => Nothing
    end.
Proof.
  destruct key as [k|]; [|reflexivity]. simpl. intros ->.
  destruct (lookupKey k table); reflexivity.
Qed.

Lemma getMissingKeywords_inr (role : option string) (keywords missing : list string) :
  getMissingKeywords role keywords = inr missing ->
  exists expectedKeywords,
    missing = List.filter (fun keyword =>
                             negb (memS (toLowerCase keyword) (map toLowerCase keywords)))
                          expectedKeywords.
Proof.
  unfold getMissingKeywords.
  destruct (lookup role _) as [l| |]; intros E; try discriminate;
    eexists; symmetry; apply (inr_inj JsError); exact E.
Qed.

Lemma getMissingKeywords_plain (role : option string) (keywords : list string) :
  plainKey role -> exists missing, getMissingKeywords role keywords = inr missing.
Proof.
  intros P. unfold getMissingKeywords. rewrite lookup_plain by exact P.
  destruct role as [r|]; [destruct (lookupKey r _)|]; eexists; reflexivity.
Qed.

Lemma getMissingKeywords_inherited (role : string) (keywords : list string) :
  memS role inheritedKeys = true ->
  getMissingKeywords (Some role) keywords
  = inl (Error "expectedKeywords.filter is not a function").
Proof.
  intros I. unfold getMissingKeywords, lookup.
  destruct (lookupKey role _) as [l|] eqn:L; [|rewrite I; reflexivity].
  exfalso. revert I L. unfold lookupKey.
  repeat match goal with
         | |- context [String.eqb role ?k] =>
             destruct (String.eqb role k) eqn:?;
             [match goal with E : String.eqb _ _ = true |- _ =>
                apply String.eqb_eq in E; subst role end;
              vm_compute; discriminate|]
         end.
  discriminate.
Qed.

Section LocalScore.
Context `{Runtime}.

Lemma computeATSScoreLocally_inr (rnd : Q) (now : Z) (resumeData : ResumeData)
  (options : ATSOptions) (v : JsVal) :
  computeATSScoreLocally rnd now resumeData options = inr v ->
  exists summary missing,
    getMissingKeywords (targetRole options) (extractKeywords resumeData)
      = inr missing /\
    v = JObj [
      ("score", JNum (inject_Z (Math_round (localScore rnd resumeData))));
      ("summary", JStr summary);
      ("keywordsMatched", JStrs (slice0 5 (extractKeywords resumeData)));
      ("keywordsMissing", JStrs (slice0 5 missing));
      ("suggestions",
       JStrs (generateLocalSuggestions resumeData (localScore rnd resumeData)
                (targetRole options)));
      ("lastComputedAt", JStr (toISOString now));
      ("computationMethod", JStr "local") ].
Proof.
  unfold computeATSScoreLocally, bindE.
  destruct (getMissingKeywords _ _) as [e|missing]; [discriminate|].
  intros E. injection E as <-. eexists. eexists. split; reflexivity.
Qed.

Lemma computeATSScoreLocally_returns (rnd : Q) (now : Z) (resumeData : ResumeData)
  (options : ATSOptions) :
  plainKey (targetRole options) ->
  exists v, computeATSScoreLocally rnd now resumeData options = inr v.
Proof.
  intros P. unfold computeATSScoreLocally, bindE.
  destruct (getMissingKeywords_plain (targetRole options)
              (extractKeywords resumeData) P) as (missing & ->).
  eexists. reflexivity.
Qed.

Lemma computeATSScoreLocally_throws (rnd : Q) (now : Z) (resumeData : ResumeData)
  (options : ATSOptions) (e : JsError) :
  computeATSScoreLocally rnd now resumeData options = inl e ->
  exists role, targetRole options = Some role /\ memS role inheritedKeys = true.
Proof.
  unfold computeATSScoreLocally, bindE, getMissingKeywords, lookup.
  destruct (targetRole options) as [r|]; [|discriminate].
  destruct (lookupKey r _); [discriminate|].
  destruct (memS r inheritedKeys) eqn:M; [|discriminate].
  intros _. exists r. split; [reflexivity | exact M].
Qed.


Lemma localScore_incomplete (rnd : Q) (resumeData : ResumeData) :
  (0 <= rnd)%Q -> (rnd < 1)%Q ->
  PrimFloat.ltb (calculateResumeCompleteness resumeData) 0.4%float = true ->
  35 <= Math_round (localScore rnd resumeData) < 50.
Proof.
  intros L U C. unfold localScore. rewrite C.
  unfold incompleteScore. rewrite round_integer.
  pose proof (floor_scaled rnd 15 L U ltac:(lia)) as F.
  change (inject_Z 15) with 15%Q in F. lia.
Qed.


(** C8 (the code departs from the claim).  A resume with an education and
    an experience entry and nothing else has a completeness ratio of
    exactly 0.4, which is not below 0.4, so the claim puts its score in
    [[70,80]].  The source computes the ratio as 0.39999999999999991 (it
    divides 0.4 by a total weight of 1.0000000000000002), takes the branch
    of the incomplete resume, and emits a score in [[35,50)] for every draw
    of [Math.random()]: 42 for the draw 1/2. *)
Theorem boundary_resume_is_scored_incomplete :
  (completenessRatio boundaryResume == 4 # 10)%Q /\
  calculateResumeCompleteness boundaryResume = 0.39999999999999991%float /\
  PrimFloat.ltb (calculateResumeCompleteness boundaryResume) 0.4%float = true /\
  (forall (rnd : Q) (now : Z),
      (0 <= rnd)%Q -> (rnd < 1)%Q ->
      exists (result : JsVal) (z : Z),
        computeATSScoreLocally rnd now boundaryResume noOptions = inr result /\
        field "score" result = JNum (inject_Z z) /\
        35 <= z < 50) /\
  (forall now : Z,
      exists result : JsVal,
        computeATSScoreLocally (1 # 2) now boundaryResume noOptions = inr result /\
        field "score" result = JNum (inject_Z 42)).
Proof.
  split; [vm_compute; reflexivity|].
  split; [vm_compute; reflexivity|].
  split; [vm_compute; reflexivity|].
  split.
  - intros rnd now L U.
    destruct (computeATSScoreLocally_returns rnd now boundaryResume noOptions I)
      as (v & E).
    exists v, (Math_round (localScore rnd boundaryResume)). split; [exact E|].
    destruct (computeATSScoreLocally_inr _ _ _ _ _ E) as (summary & missing & _ & ->).
    split; [reflexivity|].
    apply localScore_incomplete; [exact L | exact U |]. vm_compute. reflexivity.
  - intros now.
    destruct (computeATSScoreLocally_returns (1 # 2) now boundaryResume noOptions I)
      as (v & E).
    exists v. split; [exact E|].
    destruct (computeATSScoreLocally_inr _ _ _ _ _ E) as (summary & missing & _ & ->).
    vm_compute. reflexivity.
Qed.

End LocalScore.

(** ** Normalisation on the AI path *)

Lemma getProp_field (k : string) (v : JsVal) :
  v <> JNull -> v <> JUndef -> getProp k v = inr (field k v).
Proof. intros N U. unfold field. destruct v; try congruence; reflexivity. Qed.

Lemma normalizeATS_value (parsed : JsVal) :
  parsed <> JNull -> parsed <> JUndef ->
  normalizeATS parsed =
    inr (JObj [
      ("score", normalizeScore (field "score" parsed));
      ("summary", js_or (field "summary" parsed) (JStr ""));
      ("keywordsMatched", arrayOrEmpty (field "keywordsMatched" parsed));
      ("keywordsMissing", arrayOrEmpty (field "keywordsMissing" parsed));
      ("suggestions", arrayOrEmpty (field "suggestions" parsed));
      ("computationMethod", JStr "ai") ]).
Proof.
  intros N U. unfold normalizeATS. rewrite !getProp_field by assumption. reflexivity.
Qed.

Section Normalisation.
Context `{Runtime}.

Lemma normalizeATS_normalized (parsed : JsVal) :
  parsed <> JNull -> parsed <> JUndef ->
  exists result, normalizeATS parsed = inr result /\ normalizedFrom parsed result.
Proof.
  intros N U. rewrite normalizeATS_value by assumption.
  eexists. split; [reflexivity|].
  split; [reflexivity|]. split; [|split; [|reflexivity]].
  - intros q Q. change (field "score" _) with (normalizeScore (field "score" parsed)).
    rewrite Q. simpl. eexists. split; [reflexivity|]. lia.
  - intros k [K|[K|[K|[]]]]; subst k; reflexivity.
Qed.

(** One pass, by the answer that it gets *)

Lemma atsAttempt_usable (s : St) (parsed : JsVal) :
  usableAnswer (nextCall s 0) parsed ->
  exists s', atsAttempt s = (normalizeATS parsed, s') /\
    remoteCalls (world s') = S (remoteCalls (world s)).
Proof.
  intros (latency & text & R & T & P & _ & _).
  unfold nextCall in R. rewrite Nat.add_0_r in R.
  unfold atsAttempt, generateContent, parseOrThrow. run. rewrite R.
  destruct (15000 <=? latency) eqn:E; [apply Z.leb_le in E; lia|].
  rewrite P. simpl. rewrite liftE_run. eexists. split; reflexivity.
Qed.

Lemma atsAttempt_useless (s : St) :
  uselessAnswer (nextCall s 0) ->
  exists e s', atsAttempt s = (inl e, s') /\
    remoteCalls (world s') = S (remoteCalls (world s)) /\
    remote (world s') = remote (world s) /\
    svc s' = svc s.
Proof.
  unfold uselessAnswer, nextCall. rewrite Nat.add_0_r.
  unfold atsAttempt, generateContent, parseOrThrow. run.
  destruct (remote (world s) (remoteCalls (world s))) as [d text|d err].
  - intros [T|P].
    + apply Z.leb_le in T. rewrite T. eexists. eexists. repeat split.
    + destruct (15000 <=? d); [eexists; eexists; repeat split|].
      destruct (JSON_parse (scrubJsonText (trim text))) as [parsed|]; simpl;
        [|eexists; eexists; repeat split].
      destruct P as [-> | ->]; simpl; eexists; eexists; repeat split.
  - intros _. destruct (15000 <=? d); eexists; eexists; repeat split.
Qed.

Lemma atsAttempt_inr (s s' : St) (result : JsVal) :
  atsAttempt s = (inr result, s') ->
  exists parsed,
    usableAnswer (nextCall s 0) parsed /\ normalizeATS parsed = inr result /\
    remoteCalls (world s') = S (remoteCalls (world s)).
Proof.
  unfold usableAnswer, nextCall. rewrite Nat.add_0_r.
  unfold atsAttempt, generateContent, parseOrThrow. run.
  destruct (remote (world s) (remoteCalls (world s))) as [d text|d err].
  - destruct (15000 <=? d) eqn:T; [discriminate|]. apply Z.leb_gt in T.
    destruct (JSON_parse (scrubJsonText (trim text))) as [parsed|] eqn:P; simpl;
      [|discriminate].
    rewrite liftE_run. intros E. injection E as N <-.
    exists parsed. split; [|split; [exact N | reflexivity]].
    exists d, text. repeat split; auto; intros ->; discriminate.
  - destruct (15000 <=? d); discriminate.
Qed.

Lemma usable_or_useless (o : RemoteOutcome) :
  (exists parsed, usableAnswer o parsed) \/ uselessAnswer o.
Proof.
  destruct o as [d text|d err]; [|right; exact I].
  destruct (Z_lt_le_dec d 15000) as [T|T]; [|right; left; exact T].
  destruct (JSON_parse (scrubJsonText (trim text))) as [parsed|] eqn:P.
  - destruct parsed eqn:V;
      try (left; eexists; exists d, text; repeat split; eauto; discriminate).
    + right. right. rewrite P. auto.
    + right. right. rewrite P. auto.
  - right. right. rewrite P. exact I.
Qed.

(** The second pass follows a failed first pass after a pause of one
    second; its answer is the next call of the remote model. *)
Lemma ats_second_pass (resumeData : ResumeData) (options : ATSOptions) (s : St) :
  uselessAnswer (nextCall s 0) ->
  exists s1,
    computeATSScoreWithAI resumeData options s = atsAttempt s1 /\
    nextCall s1 0 = nextCall s 1 /\
    remoteCalls (world s1) = S (remoteCalls (world s)).
Proof.
  intros U. destruct (atsAttempt_useless s U) as (e & s' & A & C & R & _).
  unfold computeATSScoreWithAI. rewrite retryLoop_S. unfold try_catch at 1.
  rewrite A. change (Nat.eqb 1 0) with false. cbv iota.
  unfold bind at 1, sleep at 1. rewrite retryLoop_S. unfold try_catch.
  change (Nat.eqb 0 0) with true. cbv iota.
  set (s1 := mkSt (svc s') (advance 1000 (world s'))).
  exists s1. split; [|split].
  - destruct (atsAttempt s1) as [[e1|v1] s2]; reflexivity.
  - unfold nextCall, s1. simpl. rewrite R, C.
    f_equal. lia.
  - unfold s1. simpl. exact C.
Qed.

(** C10.  On the AI path of ATS scoring the returned result is the normal
    form of the parsed answer: [score] is the parsed score rounded and
    clamped into [[0,100]] when it is a number and [null] otherwise, each of
    [keywordsMatched], [keywordsMissing] and [suggestions] is the parsed
    value when that is an array and the empty array otherwise, and the
    result is tagged [computationMethod: ai].  This holds for every result
    that [computeATSScoreWithAI] returns, whichever of its two passes
    parsed an answer: the first pass returns the normal form of the first
    answer when that is usable, and when it is not the second pass returns
    the normal form of the second answer. *)
Theorem ats_ai_result_normalized (resumeData : ResumeData) (options : ATSOptions)
  (s : St) :
  (forall result s',
      computeATSScoreWithAI resumeData options s = (inr result, s') ->
      exists (pass : nat) (parsed : JsVal),
        (pass < 2)%nat /\
        usableAnswer (nextCall s pass) parsed /\
        (forall earlier, (earlier < pass)%nat -> uselessAnswer (nextCall s earlier)) /\
        normalizedFrom parsed result /\
        remoteCalls (world s') = (remoteCalls (world s) + S pass)%nat) /\
  (forall parsed,
      usableAnswer (nextCall s 0) parsed ->
      exists result s',
        computeATSScoreWithAI resumeData options s = (inr result, s') /\
        normalizedFrom parsed result) /\
  (forall parsed,
      uselessAnswer (nextCall s 0) ->
      usableAnswer (nextCall s 1) parsed ->
      exists result s',
        computeATSScoreWithAI resumeData options s = (inr result, s') /\
        normalizedFrom parsed result).
Proof.
  assert (First : forall parsed,
    usableAnswer (nextCall s 0) parsed ->
    exists result s',
      computeATSScoreWithAI resumeData options s = (inr result, s') /\
      normalizedFrom parsed result /\
      remoteCalls (world s') = S (remoteCalls (world s))).
  { intros parsed U. pose proof U as (latency & text & _ & _ & _ & N1 & N2).
    destruct (atsAttempt_usable s parsed U) as (s' & A & C).
    destruct (normalizeATS_normalized parsed N1 N2) as (result & N & F).
    exists result, s'. split; [|split; [exact F | exact C]].
    unfold computeATSScoreWithAI. rewrite retryLoop_S. unfold try_catch.
    rewrite A, N. reflexivity. }
  assert (Second : forall parsed,
    uselessAnswer (nextCall s 0) ->
    usableAnswer (nextCall s 1) parsed ->
    exists result s',
      computeATSScoreWithAI resumeData options s = (inr result, s') /\
      normalizedFrom parsed result /\
      remoteCalls (world s') = S (S (remoteCalls (world s)))).
  { intros parsed U0 U1. pose proof U1 as (latency & text & _ & _ & _ & N1 & N2).
    destruct (ats_second_pass resumeData options s U0) as (s1 & E & Nx & C1).
    rewrite <- Nx in U1.
    destruct (atsAttempt_usable s1 parsed U1) as (s' & A & C).
    destruct (normalizeATS_normalized parsed N1 N2) as (result & N & F).
    exists result, s'. split; [|split; [exact F|]].
    - rewrite E, A, N. reflexivity.
    - rewrite C, C1. reflexivity. }
  split; [|split].
  - intros result s' R.
    destruct (usable_or_useless (nextCall s 0)) as [(parsed & U)|U].
    + destruct (First parsed U) as (result' & s'' & E & F & C).
      rewrite E in R. injection R as <- <-.
      exists 0%nat, parsed. split; [lia|]. split; [exact U|].
      split; [intros earlier L; lia|]. split; [exact F|]. rewrite C. lia.
    + destruct (ats_second_pass resumeData options s U) as (s1 & E & Nx & C1).
      rewrite E in R.
      destruct (atsAttempt_inr s1 s' result R) as (parsed & U1 & N & C).
      rewrite Nx in U1.
      destruct (Second parsed U U1) as (result' & s'' & E' & F & C').
      rewrite E, R in E'. injection E' as <- <-.
      exists 1%nat, parsed. split; [lia|]. split; [exact U1|].
      split; [intros earlier L; replace earlier with 0%nat by lia; exact U|].
      split; [exact F|]. rewrite C'. lia.
  - intros parsed U. destruct (First parsed U) as (result & s' & E & F & _).
    exists result, s'. split; assumption.
  - intros parsed U0 U1. destruct (Second parsed U0 U1) as (result & s' & E & F & _).
    exists result, s'. split; assumption.
Qed.

End Normalisation.

(** ** Enrichment fills gaps only *)

Lemma orS_truthy (o : option string) (d g : string) :
  o = Some d -> d <> "" -> orS o g = d.
Proof.
  intros -> N. simpl. destruct (String.eqb d "") eqn:E; auto.
  apply String.eqb_eq in E. congruence.
Qed.

Lemma orS_falsy (o : option string) (g : string) :
  truthyS o = false -> orS o g = g.
Proof.
  destruct o as [s|]; simpl; auto.
  destruct (String.eqb s ""); simpl; auto. discriminate.
Qed.

Lemma orSE_truthy (o : option string) (d : string) (g : JsError + string) :
  o = Some d -> d <> "" -> orSE o g = inr d.
Proof.
  intros -> N. simpl. destruct (String.eqb d "") eqn:E; auto.
  apply String.eqb_eq in E. congruence.
Qed.

Lemma orSE_falsy (o : option string) (g : JsError + string) :
  truthyS o = false -> orSE o g = g.
Proof.
  destruct o as [s|]; simpl; auto.
  destruct (String.eqb s ""); simpl; auto. discriminate.
Qed.

Lemma orSE_total (o : option string) (g : string) : orSE o (inr g) = inr (orS o g).
Proof. destruct o as [s|]; simpl; [destruct (String.eqb s "")|]; reflexivity. Qed.

Lemma filledS_orSE (o : option string) (g : JsError + string) (s : string) :
  orSE o g = inr s -> filledS o g (JStr s).
Proof.
  intros E. split.
  - intros d D N. rewrite (orSE_truthy o d g D N) in E. congruence.
  - intros F. rewrite orSE_falsy in E by assumption. exists s. auto.
Qed.

Lemma filledL_orLE (o : option (list string)) (g : JsError + list string)
  (l : list string) :
  orLE o g = inr l -> filledL o g (JStrs l).
Proof.
  intros E. split.
  - intros l' ->. simpl in E. congruence.
  - intros ->. simpl in E. exists l. auto.
Qed.

Lemma filledS_orS (o : option string) (g : string) :
  filledS o (inr g) (JStr (orS o g)).
Proof. apply filledS_orSE, orSE_total. Qed.



Lemma assoc_optS_skip (k k' : string) (o : option string) rest :
  String.eqb k k' = false -> assoc k (optS k' o ++ rest)%list = assoc k rest.
Proof. intros E. destruct o; simpl; [rewrite E|]; reflexivity. Qed.


(** The loop [l.map(f)] *)

Lemma mapE_inr {A B} (f : A -> JsError + B) (l : list A) (ys : list B) :
  mapE f l = inr ys -> Forall2 (fun x y => f x = inr y) l ys.
Proof.
  revert ys. induction l as [|x l IH]; intros ys; simpl.
  - intros E. injection E as <-. constructor.
  - unfold bindE. destruct (f x) as [e|y] eqn:F; [discriminate|].
    destruct (mapE f l) as [e|ys'] eqn:M; [discriminate|].
    intros E. injection E as <-. constructor; [exact F | apply IH; reflexivity].
Qed.

Lemma mapE_returns {A B} (f : A -> JsError + B) (ok : A -> bool) (l : list A) :
  (forall x, ok x = true -> exists y, f x = inr y) ->
  forallb ok l = true -> exists ys, mapE f l = inr ys.
Proof.
  intros F. induction l as [|x l IH]; simpl; intros O.
  - eexists. reflexivity.
  - apply andb_true_iff in O as [O1 O2].
    destruct (F x O1) as (y & ->). destruct (IH O2) as (ys & ->).
    eexists. reflexivity.
Qed.

Lemma mapE_throws {A B} (f : A -> JsError + B) (ok : A -> bool) (e : JsError)
  (l : list A) :
  (forall x, f x = if ok x then f x else inl e) ->
  (forall x, ok x = true -> exists y, f x = inr y) ->
  forallb ok l = false -> mapE f l = inl e.
Proof.
  intros T F. induction l as [|x l IH]; simpl; intros O; [discriminate|].
  destruct (ok x) eqn:K.
  - destruct (F x K) as (y & ->). simpl in O. rewrite (IH O). reflexivity.
  - rewrite T, K. reflexivity.
Qed.

Lemma Forall2_impl_pair {A B} (P Q : A -> B -> Prop) (l : list A) (l' : list B) :
  (forall x y, P x y -> Q x y) -> Forall2 P l l' -> Forall2 Q l l'.
Proof. intros I F. induction F; constructor; auto. Qed.

Section GapFillingProofs.
Context `{Runtime}.

(** The items *)

Lemma getProjectType_some (name : string) :
  exists t, getProjectType (Some name) = inr t.
Proof. unfold getProjectType, bindE. simpl. eexists. reflexivity. Qed.

Lemma enhanceProjectDescription_cases (proj : Project.t) (skills : option Skills.t) :
  enhanceProjectDescription proj skills =
    if truthyS (Project.description proj) || isSome (Project.name proj)
    then enhanceProjectDescription proj skills
    else inl noToLowerCase.
Proof.
  unfold enhanceProjectDescription.
  destruct (truthyS (Project.description proj)); [reflexivity|].
  destruct (Project.name proj); reflexivity.
Qed.

Lemma enhanceProjectDescription_returns (proj : Project.t) (skills : option Skills.t) :
  truthyS (Project.description proj) || isSome (Project.name proj) = true ->
  exists d, enhanceProjectDescription proj skills = inr d.
Proof.
  unfold enhanceProjectDescription.
  destruct (truthyS (Project.description proj)); [eexists; reflexivity|].
  destruct (Project.name proj) as [name|]; [|discriminate].
  intros _. unfold getProjectType, bindE. simpl. eexists. reflexivity.
Qed.

Lemma generateProjectOutcomes_returns (proj : Project.t) :
  isSome (Project.name proj) = true ->
  exists l, generateProjectOutcomes proj = inr l.
Proof.
  unfold generateProjectOutcomes.
  destruct (Project.name proj) as [name|]; [|discriminate].
  intros _. unfold getProjectType, bindE. simpl. eexists. reflexivity.
Qed.

Lemma generateProjectOutcomes_unnamed (proj : Project.t) :
  Project.name proj = None -> generateProjectOutcomes proj = inl noToLowerCase.
Proof. unfold generateProjectOutcomes. intros ->. reflexivity. Qed.

Lemma enrichProject_returns (skills : option Skills.t) (proj : Project.t) :
  projectServable proj = true -> exists proj', enrichProject skills proj = inr proj'.
Proof.
  unfold projectServable, enrichProject. intros S.
  assert (D : exists d, orSE (Project.description proj)
                          (enhanceProjectDescription proj skills) = inr d).
  { destruct (truthyS (Project.description proj)) eqn:T.
    - destruct (Project.description proj) as [d|]; [|discriminate].
      simpl in *. destruct (String.eqb d ""); [discriminate|]. eexists. reflexivity.
    - rewrite orSE_falsy by exact T.
      apply enhanceProjectDescription_returns. rewrite T. simpl.
      rewrite andb_false_l, orb_false_r in S. exact S. }
  assert (O : exists l, orLE (Project.outcomes proj)
                          (generateProjectOutcomes proj) = inr l).
  { destruct (Project.outcomes proj) as [l|] eqn:Out; [eexists; reflexivity|].
    simpl. apply generateProjectOutcomes_returns.
    simpl in S. rewrite andb_false_r, orb_false_r in S. exact S. }
  destruct D as (d & ->). destruct O as (l & ->). eexists. reflexivity.
Qed.

Lemma enrichProject_throws (skills : option Skills.t) (proj : Project.t) :
  projectServable proj = false -> enrichProject skills proj = inl noToLowerCase.
Proof.
  unfold projectServable, enrichProject. intros S.
  apply orb_false_iff in S as [N S].
  destruct (Project.name proj) as [name|] eqn:Name; [discriminate|].
  destruct (truthyS (Project.description proj)) eqn:T.
  - destruct (Project.description proj) as [d|]; [|discriminate].
    simpl in T |- *. destruct (String.eqb d ""); [discriminate|].
    simpl in S. destruct (Project.outcomes proj); [discriminate|].
    simpl. unfold generateProjectOutcomes. rewrite Name. reflexivity.
  - rewrite orSE_falsy by exact T.
    unfold enhanceProjectDescription. rewrite T, Name. reflexivity.
Qed.

Lemma enrichAchievement_returns (ach : Achievement.t) :
  achievementServable ach = true -> exists ach', enrichAchievement ach = inr ach'.
Proof.
  unfold achievementServable, enrichAchievement. intros S.
  destruct (truthyS (Achievement.description ach)) eqn:T.
  - destruct (Achievement.description ach) as [d|]; [|discriminate].
    simpl in *. destruct (String.eqb d ""); [discriminate|]. eexists. reflexivity.
  - rewrite orSE_falsy by exact T. rewrite orb_false_r in S.
    unfold enhanceAchievementDescription. rewrite T.
    destruct (Achievement.title ach) as [title|]; [|discriminate].
    unfold getAchievementType, bindE. simpl. eexists. reflexivity.
Qed.

Lemma enrichAchievement_throws (ach : Achievement.t) :
  achievementServable ach = false -> enrichAchievement ach = inl noToLowerCase.
Proof.
  unfold achievementServable, enrichAchievement. intros S.
  apply orb_false_iff in S as [N T].
  rewrite orSE_falsy by exact T.
  unfold enhanceAchievementDescription. rewrite T.
  destruct (Achievement.title ach); [discriminate|]. reflexivity.
Qed.

Lemma enrichExperience_returns (skills : option Skills.t) (exp : Experience.t) :
  experienceServable exp = true -> exists exp', enrichExperience skills exp = inr exp'.
Proof.
  unfold experienceServable, enrichExperience. intros S.
  destruct (Experience.achievements exp) as [l|]; [eexists; reflexivity|].
  simpl in S |- *. rewrite orb_false_r in S.
  unfold generateExperienceAchievements.
  destruct (Experience.position exp) as [position|]; [|discriminate].
  unfold getPositionType, bindE. simpl. eexists. reflexivity.
Qed.

Lemma enrichExperience_throws (skills : option Skills.t) (exp : Experience.t) :
  experienceServable exp = false -> enrichExperience skills exp = inl noToLowerCase.
Proof.
  unfold experienceServable, enrichExperience. intros S.
  apply orb_false_iff in S as [N A].
  destruct (Experience.achievements exp); [discriminate|].
  simpl. unfold generateExperienceAchievements.
  destruct (Experience.position exp); [discriminate|]. reflexivity.
Qed.






(** The results of the local engine *)

Lemma enhancedContentOf_inr (data : ResumeData) (generated : JsVal) :
  enhancedContentOf data = inr generated ->
  exists experience' projects' achievements',
    (if isFresher data then inr []
     else mapE (fun exp =>
                  let+ exp' := enrichExperience (skills data) exp in
                  inr (experienceJs exp'))
               (orL (experience data) [])) = inr experience' /\
    mapE (fun proj =>
            let+ proj' := enrichProject (skills data) proj in
            inr (projectJs proj'))
         (orL (projects data) []) = inr projects' /\
    mapE (fun ach =>
            let+ ach' := enrichAchievement ach in
            inr (achievementJs ach'))
         (orL (achievements data) []) = inr achievements' /\
    generated = JObj [
      ("personalInfo",
       JObj [
         ("summary",
          JStr (orS (summaryOf (personalInfo data))
                    (generateSummary (personalInfo data) (skills data)
                       (experience data) (isFresher data)
                       (Some (orS (roleApplyingFor data) "Professional")))));
         ("objective",
          if isFresher data
          then JStr (generateObjective (personalInfo data) (education data)
                       (skills data)
                       (Some (orS (roleApplyingFor data) "Professional")))
          else JUndef) ]);
      ("education",
       JArr (map (fun edu =>
                    educationJs (enrichEducation (education data)
                                   (orS (roleApplyingFor data) "Professional") edu))
                 (orL (education data) [])));
      ("experience", JArr experience');
      ("skills",
       JObj [
         ("technical", JStrs (orL (technicalOf (skills data)) []));
         ("language",
          JStrs (orL (match skills data with
                      | Some s => Skills.languages s
                      | None => None
                      end) [])) ]);
      ("projects", JArr projects');
      ("achievements", JArr achievements');
      ("certifications", JArr []);
      ("improvements",
       JStrs (generateImprovements (personalInfo data) (skills data)
                (experience data) (isFresher data)
                (Some (orS (roleApplyingFor data) "Professional"))));
      ("courseSummary",
       JStr (generateCourseSummary (education data)
               (Some (orS (roleApplyingFor data) "Professional")))) ].
Proof.
  unfold enhancedContentOf, bindE.
  destruct (if isFresher data then _ else _) as [e|experience'] eqn:X; [discriminate|].
  destruct (mapE _ (orL (projects data) [])) as [e|projects'] eqn:P; [discriminate|].
  destruct (mapE _ (orL (achievements data) [])) as [e|achievements'] eqn:A;
    [discriminate|].
  intros E. injection E as <-.
  exists experience', projects', achievements'. repeat split; reflexivity.
Qed.

Lemma enhanceContentLocally_inr (data : ResumeData) (result : JsVal) :
  enhanceContentLocally data = inr result ->
  exists generated,
    enhancedContentOf data = inr generated /\
    result = JObj [
      ("success", JBool true);
      ("generatedContent", generated);
      ("aiPrompt",
       JStr ("Enhanced resume for " ++ orS (roleApplyingFor data) "Professional"
             ++ " role (local enhancement) - " ++ join ", " (enhancementsOf data)));
      ("enhancements", JStrs (enhancementsOf data));
      ("enhancementMethod", JStr "local") ].
Proof.
  unfold enhanceContentLocally, bindE.
  destruct (enhancedContentOf data) as [e|generated]; [discriminate|].
  intros E. injection E as <-. exists generated. split; reflexivity.
Qed.

Lemma experiences_return (data : ResumeData) :
  isFresher data || forallb experienceServable (orL (experience data) []) = true ->
  exists experience',
    (if isFresher data then inr []
     else mapE (fun exp =>
                  let+ exp' := enrichExperience (skills data) exp in
                  inr (experienceJs exp'))
               (orL (experience data) [])) = inr experience'.
Proof.
  destruct (isFresher data); [eexists; reflexivity|]. simpl.
  apply mapE_returns. intros exp S.
  destruct (enrichExperience_returns (skills data) exp S) as (exp' & ->).
  eexists. reflexivity.
Qed.

Lemma experiences_throw (data : ResumeData) :
  isFresher data || forallb experienceServable (orL (experience data) []) = false ->
  (if isFresher data then inr []
   else mapE (fun exp =>
                let+ exp' := enrichExperience (skills data) exp in
                inr (experienceJs exp'))
             (orL (experience data) [])) = inl noToLowerCase.
Proof.
  destruct (isFresher data); [discriminate|]. simpl.
  apply mapE_throws.
  - intros exp. destruct (experienceServable exp) eqn:S; [reflexivity|].
    rewrite (enrichExperience_throws (skills data) exp S). reflexivity.
  - intros exp S.
    destruct (enrichExperience_returns (skills data) exp S) as (exp' & ->).
    eexists. reflexivity.
Qed.

Lemma projects_return (skills : option Skills.t) (l : list Project.t) :
  forallb projectServable l = true ->
  exists items,
    mapE (fun proj => let+ proj' := enrichProject skills proj in inr (projectJs proj')) l
    = inr items.
Proof.
  apply mapE_returns. intros proj S.
  destruct (enrichProject_returns skills proj S) as (proj' & ->).
  eexists. reflexivity.
Qed.

Lemma projects_throw (skills : option Skills.t) (l : list Project.t) :
  forallb projectServable l = false ->
  mapE (fun proj => let+ proj' := enrichProject skills proj in inr (projectJs proj')) l
  = inl noToLowerCase.
Proof.
  apply mapE_throws.
  - intros proj. destruct (projectServable proj) eqn:S; [reflexivity|].
    rewrite (enrichProject_throws skills proj S). reflexivity.
  - intros proj S.
    destruct (enrichProject_returns skills proj S) as (proj' & ->).
    eexists. reflexivity.
Qed.

Lemma achievements_return (l : list Achievement.t) :
  forallb achievementServable l = true ->
  exists items,
    mapE (fun ach => let+ ach' := enrichAchievement ach in inr (achievementJs ach')) l
    = inr items.
Proof.
  apply mapE_returns. intros ach S.
  destruct (enrichAchievement_returns ach S) as (ach' & ->).
  eexists. reflexivity.
Qed.

Lemma achievements_throw (l : list Achievement.t) :
  forallb achievementServable l = false ->
  mapE (fun ach => let+ ach' := enrichAchievement ach in inr (achievementJs ach')) l
  = inl noToLowerCase.
Proof.
  apply mapE_throws.
  - intros ach. destruct (achievementServable ach) eqn:S; [reflexivity|].
    rewrite (enrichAchievement_throws ach S). reflexivity.
  - intros ach S.
    destruct (enrichAchievement_returns ach S) as (ach' & ->).
    eexists. reflexivity.
Qed.

(** The local engine serves exactly the servable requests; on the others
    it throws the [TypeError] of [toLowerCase]. *)
Lemma enhanceContentLocally_returns (data : ResumeData) :
  resumeServable data = true ->
  exists result, enhanceContentLocally data = inr result.
Proof.
  unfold resumeServable. intros S.
  apply andb_true_iff in S as [S A]. apply andb_true_iff in S as [X P].
  unfold enhanceContentLocally, enhancedContentOf.
  destruct (experiences_return data X) as (experience' & ->).
  destruct (projects_return (skills data) _ P) as (projects' & ->).
  destruct (achievements_return _ A) as (achievements' & ->).
  eexists. reflexivity.
Qed.

Lemma enhanceContentLocally_throws (data : ResumeData) :
  resumeServable data = false ->
  enhanceContentLocally data = inl noToLowerCase.
Proof.
  unfold resumeServable. intros S.
  unfold enhanceContentLocally, enhancedContentOf.
  destruct (isFresher data || forallb experienceServable (orL (experience data) []))
    eqn:X.
  - destruct (experiences_return data X) as (experience' & ->).
    destruct (forallb projectServable (orL (projects data) [])) eqn:P.
    + destruct (projects_return (skills data) _ P) as (projects' & ->).
      simpl in S. rewrite (achievements_throw _ S). reflexivity.
    + rewrite (projects_throw (skills data) _ P). reflexivity.
  - rewrite (experiences_throw data X). reflexivity.
Qed.


Lemma enhanceSectionsLocally_inr (sections : Sections) (context : SectionsContext)
  (result : JsVal) :
  enhanceSectionsLocally sections context = inr result ->
  exists enhanced,
    enhancedSectionsOf sections context = inr enhanced /\
    result = JObj [("success", JBool true); ("enhancedSections", enhanced)].
Proof.
  unfold enhanceSectionsLocally, bindE.
  destruct (enhancedSectionsOf sections context) as [e|enhanced]; [discriminate|].
  intros E. injection E as <-. exists enhanced. split; reflexivity.
Qed.

Lemma enhancedSectionsOf_returns (sections : Sections) (context : SectionsContext) :
  sectionsServable sections = true ->
  exists enhanced, enhancedSectionsOf sections context = inr enhanced.
Proof.
  unfold sectionsServable. intros S. apply andb_true_iff in S as [P A].
  unfold enhancedSectionsOf.
  destruct (s_projects sections) as [lp|]; simpl in P;
    [destruct (projects_return (s_skills sections) lp P) as (pitems & ->)|];
    (destruct (s_achievements sections) as [la|]; simpl in A;
     [destruct (achievements_return la A) as (aitems & ->)|]);
    eexists; reflexivity.
Qed.

Lemma enhancedSectionsOf_throws (sections : Sections) (context : SectionsContext) :
  sectionsServable sections = false ->
  enhancedSectionsOf sections context = inl noToLowerCase.
Proof.
  unfold sectionsServable. intros S. unfold enhancedSectionsOf.
  destruct (forallb projectServable (orL (s_projects sections) [])) eqn:P.
  - simpl in S.
    destruct (s_achievements sections) as [la|]; simpl in S; [|discriminate].
    destruct (s_projects sections) as [lp|]; simpl in P;
      [destruct (projects_return (s_skills sections) lp P) as (pitems & ->)|];
      simpl; rewrite (achievements_throw la S); reflexivity.
  - destruct (s_projects sections) as [lp|]; simpl in P; [|discriminate].
    rewrite (projects_throw (s_skills sections) lp P). reflexivity.
Qed.

Lemma enhanceSectionsLocally_returns (sections : Sections) (context : SectionsContext) :
  sectionsServable sections = true ->
  exists result, enhanceSectionsLocally sections context = inr result.
Proof.
  intros S. unfold enhanceSectionsLocally.
  destruct (enhancedSectionsOf_returns sections context S) as (enhanced & ->).
  eexists. reflexivity.
Qed.

Lemma enhanceSectionsLocally_throws (sections : Sections) (context : SectionsContext) :
  sectionsServable sections = false ->
  enhanceSectionsLocally sections context = inl noToLowerCase.
Proof.
  intros S. unfold enhanceSectionsLocally.
  rewrite (enhancedSectionsOf_throws sections context S). reflexivity.
Qed.


End GapFillingProofs.


(** ** The failure cascade *)

Section Schemas.
Context `{Runtime}.

Lemma resumeAttempt_schema (effectiveRole : string) (s s' : St) (v : JsVal) :
  resumeAttempt effectiveRole s = (inr v, s') ->
  exists generated,
    v = JObj [
      ("success", JBool true);
      ("generatedContent", generated);
      ("aiPrompt", JStr ("Generated resume for " ++ orS (Some effectiveRole) "Professional" ++ " role"));
      ("generationMethod", JStr "ai") ].
Proof.
  unfold resumeAttempt, generateContent, parseOrThrow. run.
  destruct (remote (world s) (remoteCalls (world s))) as [d text|d err];
    destruct (25000 <=? d); simpl; try discriminate.
  destruct (JSON_parse (scrubJsonText (trim text))) as [g|]; simpl; try discriminate.
  intros E. injection E as <- _. eexists. reflexivity.
Qed.

Lemma retryLoop_result (attempt : M JsVal) (P : JsVal -> Prop) :
  (forall s v s', attempt s = (inr v, s') -> P v) ->
  forall n s v s', n <> 0%nat -> retryLoop attempt n s = (inr v, s') -> P v.
Proof.
  intros A. induction n as [|n IH]; intros s v s' N; [congruence|].
  rewrite retryLoop_S. unfold try_catch. destruct (attempt s) as [[e|x] s1] eqn:E.
  - destruct n as [|n]; [discriminate|]. unfold bind, sleep. simpl Nat.eqb. cbv iota.
    intros R. eapply (IH _ v s'); [discriminate|]. exact R.
  - intros R. injection R as <- _. eapply A. exact E.
Qed.
End Schemas.

Section Cascade.
Context `{Runtime}.

Lemma isDailyLimitReached_spec (s : St) :
  exists b s', isDailyLimitReached s = (inr b, s') /\
    world s' = world s /\ cache (svc s') = cache (svc s) /\
    breakerOf (svc s') = breakerOf (svc s) /\ genAI (svc s') = genAI (svc s).
Proof.
  unfold isDailyLimitReached, Date_today. run.
  destruct (negb _); simpl; eexists; eexists; (split; [reflexivity|]); simpl; auto.
Qed.

Lemma isAvailable_spec (s : St) :
  exists b s', isAvailable s = (inr b, s') /\
    world s' = world s /\ cache (svc s') = cache (svc s) /\
    breakerOf (svc s') = breakerOf (svc s) /\
    (b = true -> circuitState (svc s') <> OPEN).
Proof.
  unfold isAvailable. run.
  destruct (genAI (svc s)); [|exists false, s; repeat split; auto; discriminate].
  destruct (circuitState (svc s)) eqn:C; simpl;
    try (exists false, s; repeat split; auto; discriminate).
  all: destruct (isDailyLimitReached_spec s) as (b & s' & E & W & K & B & G);
    rewrite E; simpl; exists (negb b), s'; repeat split; auto;
    intros _; unfold breakerOf in B; injection B as B1 _ _ _ _; rewrite B1, C; discriminate.
Qed.

Lemma wcb_run {A} (fn : M A) (s s2 : St) (r : JsError + A) :
  circuitState (svc s) <> OPEN ->
  fn s = (r, s2) ->
  exists s3, withCircuitBreaker fn s = (r, s3) /\
    world s3 = world s2 /\ cache (svc s3) = cache (svc s2).
Proof.
  intros N E. unfold withCircuitBreaker. run.
  destruct (circuitState (svc s)) eqn:C; try congruence; simpl; rewrite E;
    destruct r as [e|x]; simpl.
  all: try (unfold recordFailure; run;
            destruct (failureThreshold _ <=? _); simpl;
            match goal with |- context [if ?b then _ else _] => destruct b end;
            eexists; (split; [reflexivity|]); simpl; auto).
  all: destruct (CircuitState_eqb (circuitState (svc s2)) HALF_OPEN); simpl;
    eexists; (split; [reflexivity|]); simpl; auto.
Qed.

(** Profile summary *)

Lemma generateProfileSummary_cases (data : ProfileRequest) (s : St) :
  exists v s', generateProfileSummary data s = (inr v, s') /\
    (v = generateProfileSummaryLocally data \/
     exists text,
       v = JObj [("success", JBool true);
                 ("summary", JStr (trim text));
                 ("objective", if pr_isFresher data then JStr (trim text) else JUndef)]) /\
    (unavailableAt s -> v = generateProfileSummaryLocally data) /\
    (remoteRejects (remote (world s)) -> v = generateProfileSummaryLocally data) /\
    (silentWithin 15000 (remote (world s)) -> v = generateProfileSummaryLocally data).
Proof.
  unfold generateProfileSummary, unavailableAt.
  destruct (isAvailable_spec s) as (b & s1 & E & W & K & B & O).
  unfold bind at 1. rewrite E. simpl.
  destruct b; simpl.
  - specialize (O eq_refl).
    set (fn := try_catch _ _).
    assert (F : exists v s2, fn s1 = (inr v, s2) /\
               (v = generateProfileSummaryLocally data \/
                exists text,
                  v = JObj [("success", JBool true);
                            ("summary", JStr (trim text));
                            ("objective", if pr_isFresher data then JStr (trim text) else JUndef)]) /\
               (remoteRejects (remote (world s)) -> v = generateProfileSummaryLocally data) /\
               (silentWithin 15000 (remote (world s)) ->
                v = generateProfileSummaryLocally data)).
    { unfold fn, generateContent. run. rewrite W.
      destruct (remote (world s) (remoteCalls (world s))) as [d text|d err] eqn:R;
        destruct (15000 <=? d) eqn:T; simpl.
      - eexists. eexists. split; [reflexivity|]. split; auto.
      - eexists. eexists. split; [reflexivity|]. split; [right; eexists; reflexivity|].
        split.
        + intros J. destruct (J (remoteCalls (world s))) as (? & ? & J'). congruence.
        + intros J. specialize (J (remoteCalls (world s))). rewrite R in J.
          apply Z.leb_gt in T. lia.
      - eexists. eexists. split; [reflexivity|]. split; auto.
      - eexists. eexists. split; [reflexivity|]. split; auto. }
    destruct F as (v & s2 & F & V & J & J').
    destruct (wcb_run fn s1 s2 (inr v) O F) as (s3 & W3 & _).
    exists v, s3. repeat split; auto. discriminate.
  - exists (generateProfileSummaryLocally data), s1. repeat split; auto.
Qed.

(** Multi-section enhancement *)

(** The callback of [enhanceMultipleSections] computes what
    [enhanceSectionsLocally] computes. *)
Lemma sections_callback (sections : Sections) (context : SectionsContext) (s : St) :
  (let* enhancedSections := liftE (enhancedSectionsOf sections context) in
   ret (JObj [("success", JBool true);
              ("enhancedSections", enhancedSections)])) s
  = (enhanceSectionsLocally sections context, s).
Proof.
  unfold bind, liftE, enhanceSectionsLocally, bindE.
  destruct (enhancedSectionsOf sections context); reflexivity.
Qed.

Lemma enhanceMultipleSections_local (sections : Sections) (context : SectionsContext) (s : St) :
  exists s', enhanceMultipleSections sections context s
             = (enhanceSectionsLocally sections context, s').
Proof.
  unfold enhanceMultipleSections.
  destruct (isAvailable_spec s) as (b & s1 & E & W & K & B & O).
  unfold bind at 1. rewrite E. simpl.
  destruct b; simpl.
  - specialize (O eq_refl).
    destruct (wcb_run _ s1 s1 _ O (sections_callback sections context s1))
      as (s3 & W3 & _).
    rewrite W3. eexists. reflexivity.
  - rewrite liftE_run. eexists. reflexivity.
Qed.

(** Resume content *)

Lemma withRateLimit_world (s : St) :
  exists s', withRateLimit s = (inr tt, s') /\
    remote (world s') = remote (world s) /\
    cache (svc s') = cache (svc s) /\
    breakerOf (svc s') = breakerOf (svc s).
Proof.
  unfold withRateLimit. run.
  destruct (clock (world s) - lastApiCall (svc s) <? minCallInterval (svc s));
    simpl; eexists; (split; [reflexivity|]); simpl; auto.
Qed.

Lemma retryLoop_fails (attempt : M JsVal) :
  (forall s, remoteFails (remote (world s)) ->
     exists e s', attempt s = (inl e, s') /\ remote (world s') = remote (world s)) ->
  forall n s, n <> 0%nat -> remoteFails (remote (world s)) ->
    exists e s', retryLoop attempt n s = (inl e, s').
Proof.
  intros A. induction n as [|n IH]; intros s N F; [congruence|].
  rewrite retryLoop_S. unfold try_catch. destruct (A s F) as (e & s1 & E & R). rewrite E.
  destruct n as [|n]; [eexists; eexists; reflexivity|].
  unfold bind, sleep. simpl Nat.eqb. cbv iota.
  apply IH; [discriminate|]. simpl. rewrite R. exact F.
Qed.

Lemma resumeAttempt_fails (effectiveRole : string) (s : St) :
  remoteFails (remote (world s)) ->
  exists e s', resumeAttempt effectiveRole s = (inl e, s') /\
    remote (world s') = remote (world s).
Proof.
  intros F. specialize (F (remoteCalls (world s))).
  unfold resumeAttempt, generateContent, parseOrThrow. run.
  destruct (remote (world s) (remoteCalls (world s))) as [d text|d err];
    destruct (25000 <=? d); simpl; try rewrite F;
    eexists; eexists; split; reflexivity.
Qed.

Lemma atsAttempt_fails (s : St) :
  remoteFails (remote (world s)) ->
  exists e s', atsAttempt s = (inl e, s') /\
    remote (world s') = remote (world s).
Proof.
  intros F. specialize (F (remoteCalls (world s))).
  unfold atsAttempt, generateContent, parseOrThrow. run.
  destruct (remote (world s) (remoteCalls (world s))) as [d text|d err];
    destruct (15000 <=? d); simpl; try rewrite F;
    eexists; eexists; split; reflexivity.
Qed.

Lemma atsAttempt_result (s s' : St) (v : JsVal) :
  atsAttempt s = (inr v, s') -> exists parsed, normalizeATS parsed = inr v.
Proof.
  unfold atsAttempt, generateContent, parseOrThrow, liftE. run.
  destruct (remote (world s) (remoteCalls (world s))) as [d text|d err];
    destruct (15000 <=? d); simpl; try discriminate.
  destruct (JSON_parse (scrubJsonText (trim text))) as [g|]; simpl; try discriminate.
  destruct (normalizeATS g) as [e|x] eqn:N; simpl; try discriminate.
  intros E. injection E as <- _. exists g. exact N.
Qed.

Lemma generateResumeContentWithAI_result (data : ResumeData) (s s' : St) (v : JsVal) :
  generateResumeContentWithAI data s = (inr v, s') ->
  field "success" v = JBool true /\
  keys v = ["success"; "generatedContent"; "aiPrompt"; "generationMethod"].
Proof.
  unfold generateResumeContentWithAI. unfold bind at 1.
  destruct (personalInfo data); [|discriminate]. unfold ret at 1.
  intros R.
  eapply (retryLoop_result _ (fun v => field "success" v = JBool true /\
     keys v = ["success"; "generatedContent"; "aiPrompt"; "generationMethod"]));
    [| | exact R]; [|discriminate].
  intros s0 v0 s0' E. destruct (resumeAttempt_schema _ _ _ _ E) as (g & ->).
  split; reflexivity.
Qed.

Lemma generateResumeContentWithAI_fails (data : ResumeData) (s : St) :
  remoteFails (remote (world s)) ->
  exists e s', generateResumeContentWithAI data s = (inl e, s').
Proof.
  intros F. unfold generateResumeContentWithAI. unfold bind at 1.
  destruct (personalInfo data); [|eexists; eexists; reflexivity]. unfold ret at 1.
  apply retryLoop_fails; auto. intros s0. apply resumeAttempt_fails.
Qed.

Lemma cacheOk_insert (a : AIService) (k : CacheKey) (v : JsVal) :
  cacheOk a -> field "success" v = JBool true ->
  cacheOk (set_cache a (<[k := v]> (cache a))).
Proof. intros C V. unfold cacheOk. simpl. apply map_Forall_insert_2; assumption. Qed.

Lemma cacheOk_same (a a' : AIService) : cache a' = cache a -> cacheOk a -> cacheOk a'.
Proof. unfold cacheOk. intros ->. auto. Qed.

Lemma local_resume_success (data : ResumeData) (v : JsVal) :
  enhanceContentLocally data = inr v -> field "success" v = JBool true.
Proof.
  intros E. destruct (enhanceContentLocally_inr data v E) as (g & _ & ->).
  reflexivity.
Qed.

Lemma generateContent_keeps (timeout : option (Z * string)) (s s' : St) r :
  generateContent timeout s = (r, s') -> svc s' = svc s.
Proof.
  unfold generateContent.
  destruct (remote (world s) (remoteCalls (world s))), timeout as [[limit msg]|];
    try destruct (limit <=? latency); intros E; injection E as _ <-; reflexivity.
Qed.

Lemma resumeAttempt_keeps (effectiveRole : string) (s s' : St) r :
  resumeAttempt effectiveRole s = (r, s') -> svc s' = svc s.
Proof.
  unfold resumeAttempt, parseOrThrow, bind.
  destruct (generateContent _ s) as [[e|text] s1] eqn:G; apply generateContent_keeps in G.
  - intros E. injection E as _ <-. exact G.
  - destruct (JSON_parse _); unfold ret, throw; intros E; injection E as _ <-; exact G.
Qed.

Lemma atsAttempt_keeps (s s' : St) r :
  atsAttempt s = (r, s') -> svc s' = svc s.
Proof.
  unfold atsAttempt, parseOrThrow, liftE, bind.
  destruct (generateContent _ s) as [[e|text] s1] eqn:G; apply generateContent_keeps in G.
  - intros E. injection E as _ <-. exact G.
  - destruct (JSON_parse _) as [g|]; unfold ret, throw; [destruct (normalizeATS g)|];
      intros E; injection E as _ <-; exact G.
Qed.

Lemma retryLoop_keeps (attempt : M JsVal) :
  (forall s r s', attempt s = (r, s') -> svc s' = svc s) ->
  forall n s r s', retryLoop attempt n s = (r, s') -> svc s' = svc s.
Proof.
  intros A. induction n as [|n IH]; intros s r s'.
  - simpl. unfold ret. intros E. injection E as _ <-. reflexivity.
  - rewrite retryLoop_S. unfold try_catch.
    destruct (attempt s) as [[e|x] s1] eqn:E; apply A in E.
    + destruct (Nat.eqb n 0).
      * unfold throw. intros R. injection R as _ <-. exact E.
      * unfold bind, sleep. intros R. apply IH in R. simpl in R. congruence.
    + intros R. injection R as _ <-. exact E.
Qed.

Lemma generateResumeContentWithAI_keeps (data : ResumeData) (s s' : St) r :
  generateResumeContentWithAI data s = (r, s') -> svc s' = svc s.
Proof.
  unfold generateResumeContentWithAI. unfold bind at 1.
  destruct (personalInfo data).
  - unfold ret at 1. apply retryLoop_keeps. intros s0 r0 s0'. apply resumeAttempt_keeps.
  - unfold throw. intros E. injection E as _ <-. reflexivity.
Qed.

Lemma resume_ai_path (data : ResumeData) (s1 : St) :
  circuitState (svc s1) <> OPEN ->
  exists r s3,
    withCircuitBreaker (bind withRateLimit (fun _ => generateResumeContentWithAI data)) s1
      = (r, s3) /\
    cache (svc s3) = cache (svc s1) /\
    (forall v, r = inr v ->
       field "success" v = JBool true /\
       keys v = ["success"; "generatedContent"; "aiPrompt"; "generationMethod"]) /\
    (remoteFails (remote (world s1)) -> exists e, r = inl e).
Proof.
  intros O.
  set (fn := bind withRateLimit _).
  destruct (withRateLimit_world s1) as (s1' & E1 & R1 & K1 & B1).
  destruct (generateResumeContentWithAI data s1') as [r s2] eqn:G.
  assert (F : fn s1 = (r, s2)) by (unfold fn, bind; rewrite E1; exact G).
  destruct (wcb_run fn s1 s2 r O F) as (s3 & W3 & Wd3 & K3).
  exists r, s3. split; [exact W3|]. split; [|split].
  - rewrite K3. apply generateResumeContentWithAI_keeps in G. rewrite G. exact K1.
  - intros v ->. eapply generateResumeContentWithAI_result. exact G.
  - intros Fl. rewrite <- R1 in Fl.
    destruct (generateResumeContentWithAI_fails data s1' Fl) as (e & s' & E').
    rewrite E' in G. injection G as <- _. eexists. reflexivity.
Qed.

(** The local path of [generateResumeContent]: the local result is stored
    in the cache when there is one; the error of the local engine reaches
    the caller and nothing is stored. *)
Lemma resume_local_path (data : ResumeData) (s : St) :
  (let* localResult := liftE (enhanceContentLocally data) in
   let* _ := cachePut (getCacheKey data) localResult in
   ret localResult) s
  = (enhanceContentLocally data,
     match enhanceContentLocally data with
     | inr v => mkSt (set_cache (svc s) (<[getCacheKey data := v]> (cache (svc s))))
                     (world s)
     | inl _ => s
     end).
Proof.
  unfold bind, liftE, cachePut, update, ret, throw.
  destruct (enhanceContentLocally data); reflexivity.
Qed.

Lemma generateResumeContent_cases (data : ResumeData) (s : St) :
  cacheOk (svc s) ->
  exists r s', generateResumeContent data s = (r, s') /\
    (forall v, r = inr v -> field "success" v = JBool true) /\
    (forall e, r = inl e -> r = enhanceContentLocally data) /\
    cacheOk (svc s') /\
    (cache (svc s) !! getCacheKey data = None ->
     unavailableAt s \/ remoteFails (remote (world s)) ->
     r = enhanceContentLocally data).
Proof.
  intros C. unfold generateResumeContent, unavailableAt.
  unfold bind at 1, this at 1.
  destruct (cache (svc s) !! getCacheKey data) as [cached|] eqn:L.
  - exists (inr cached), s. split; [reflexivity|].
    split; [intros v V; injection V as <-; exact (C _ _ L)|].
    split; [discriminate|]. split; [exact C|]. discriminate.
  - destruct (isAvailable_spec s) as (b & s1 & E & W & K & B & O).
    unfold bind at 1, try_catch at 1, bind at 1. rewrite E.
    unfold bind at 1, this at 1.
    assert (Local : forall s2 : St, cache (svc s2) = cache (svc s) ->
      exists s',
        (let* localResult := liftE (enhanceContentLocally data) in
         let* _ := cachePut (getCacheKey data) localResult in
         ret localResult) s2 = (enhanceContentLocally data, s') /\
        cacheOk (svc s')).
    { intros s2 K2. rewrite resume_local_path. eexists. split; [reflexivity|].
      destruct (enhanceContentLocally data) as [e|v] eqn:R.
      - eapply cacheOk_same; [|exact C]. exact K2.
      - simpl. apply cacheOk_insert; [|exact (local_resume_success data v R)].
        eapply cacheOk_same; [|exact C]. exact K2. }
    destruct b.
    + specialize (O eq_refl).
      assert (Ceq : CircuitState_eqb (circuitState (svc s1)) OPEN = false)
        by (destruct (circuitState (svc s1)); simpl; congruence).
      rewrite Ceq. change (true && negb false) with true. cbv iota.
      destruct (resume_ai_path data s1 O) as (r & s3 & W3 & K3 & V & Fl).
      unfold bind at 1. rewrite W3.
      destruct r as [e|result].
      * unfold ret at 1.
        destruct (Local s3 ltac:(congruence)) as (s' & L' & C').
        rewrite L'. exists (enhanceContentLocally data), s'.
        split; [reflexivity|].
        split; [intros v; apply local_resume_success|].
        split; [reflexivity|]. split; [exact C'|]. reflexivity.
      * destruct (V result eq_refl) as [V1 V2].
        unfold bind, cachePut, update, ret. simpl.
        eexists. eexists. split; [reflexivity|]. simpl.
        split; [intros v J; injection J as <-; exact V1|].
        split; [discriminate|].
        split.
        -- apply cacheOk_insert; [|exact V1].
           eapply cacheOk_same; [|exact C]. congruence.
        -- intros _ [U|Fl']; [discriminate|].
           rewrite <- W in Fl'. destruct (Fl Fl') as (e & ?). discriminate.
    + change (false && _) with false. cbv iota.
      unfold ret at 1.
      destruct (Local s1 K) as (s' & L' & C').
      rewrite L'. exists (enhanceContentLocally data), s'.
      split; [reflexivity|].
      split; [intros v; apply local_resume_success|].
      split; [reflexivity|]. split; [exact C'|]. reflexivity.
Qed.

(** Operations that leave the cache alone *)

Lemma keeps_ret {A} (x : A) : keepsCache (ret x).
Proof. intros s r s' E. injection E as _ <-. reflexivity. Qed.

Lemma keeps_throw {A} (e : JsError) : keepsCache (@throw A e).
Proof. intros s r s' E. injection E as _ <-. reflexivity. Qed.

Lemma keeps_liftE {A} (r : JsError + A) : keepsCache (liftE r).
Proof. destruct r; [apply keeps_throw | apply keeps_ret]. Qed.

Lemma keeps_bind {A B} (m : M A) (k : A -> M B) :
  keepsCache m -> (forall x, keepsCache (k x)) -> keepsCache (bind m k).
Proof.
  intros Hm Hk s r s'. unfold bind.
  destruct (m s) as [[e|x] s1] eqn:E; apply Hm in E.
  - intros R. injection R as _ <-. exact E.
  - intros R. apply Hk in R. congruence.
Qed.

Lemma keeps_try {A} (m : M A) (h : JsError -> M A) :
  keepsCache m -> (forall e, keepsCache (h e)) -> keepsCache (try_catch m h).
Proof.
  intros Hm Hh s r s'. unfold try_catch.
  destruct (m s) as [[e|x] s1] eqn:E; apply Hm in E.
  - intros R. apply Hh in R. congruence.
  - intros R. injection R as _ <-. exact E.
Qed.

Lemma keeps_update (f : AIService -> AIService) :
  (forall a, cache (f a) = cache a) -> keepsCache (update f).
Proof. intros F s r s' E. injection E as _ <-. simpl. apply F. Qed.

Lemma keeps_service {A} (m : M A) :
  (forall s r s', m s = (r, s') -> svc s' = svc s) -> keepsCache m.
Proof. intros K s r s' E. apply K in E. rewrite E. reflexivity. Qed.

Lemma keeps_this : keepsCache this.
Proof. apply keeps_service. intros s r s' E. injection E as _ <-. reflexivity. Qed.

Lemma keeps_now : keepsCache Date_now.
Proof. apply keeps_service. intros s r s' E. injection E as _ <-. reflexivity. Qed.

Lemma keeps_sleep (ms : Z) : keepsCache (sleep ms).
Proof. apply keeps_service. intros s r s' E. injection E as _ <-. reflexivity. Qed.

Lemma keeps_random : keepsCache Math_random.
Proof. apply keeps_service. intros s r s' E. injection E as _ <-. reflexivity. Qed.

Lemma keeps_generateContent (timeout : option (Z * string)) :
  keepsCache (generateContent timeout).
Proof. apply keeps_service. intros s r s'. apply generateContent_keeps. Qed.

Create HintDb keeps.
#[local] Hint Resolve keeps_ret keeps_throw keeps_liftE keeps_this keeps_now
  keeps_sleep keeps_random keeps_generateContent : keeps.

Ltac keeps :=
  repeat first
    [ progress auto with keeps
    | apply keeps_bind; [|intros ?]
    | apply keeps_try; [|intros ?]
    | apply keeps_update; intros ?; reflexivity
    | match goal with
      | |- keepsCache (if ?b then _ else _) => destruct b
      | |- keepsCache (match ?x with _ => _ end) => destruct x
      end ].

Lemma keeps_recordFailure : keepsCache recordFailure.
Proof. unfold recordFailure. keeps. Qed.

Lemma keeps_resetCircuit : keepsCache resetCircuit.
Proof. unfold resetCircuit. keeps. Qed.

Lemma keeps_withRateLimit : keepsCache withRateLimit.
Proof. unfold withRateLimit. keeps. Qed.

#[local] Hint Resolve keeps_recordFailure keeps_resetCircuit keeps_withRateLimit : keeps.

Lemma keeps_withCircuitBreaker {A} (fn : M A) :
  keepsCache fn -> keepsCache (withCircuitBreaker fn).
Proof. intros F. unfold withCircuitBreaker. keeps. Qed.

Lemma keeps_retryLoop (attempt : M JsVal) (n : nat) :
  keepsCache attempt -> keepsCache (retryLoop attempt n).
Proof.
  intros A. induction n as [|n IH]; [apply keeps_ret|].
  rewrite retryLoop_S. keeps.
Qed.

Lemma keeps_enhanceAttempts (n : nat) :
  forall retryDelay, keepsCache (enhanceAttempts n retryDelay).
Proof.
  induction n as [|n IH]; intros retryDelay; [apply keeps_throw|].
  cbn [enhanceAttempts]. keeps.
Qed.

Lemma keeps_today : keepsCache Date_today.
Proof. apply keeps_service. intros s r s' E. injection E as _ <-. reflexivity. Qed.

Lemma keeps_isDailyLimitReached : keepsCache isDailyLimitReached.
Proof. unfold isDailyLimitReached. pose proof keeps_today. keeps. Qed.

Lemma keeps_isAvailable : keepsCache isAvailable.
Proof. unfold isAvailable. pose proof keeps_isDailyLimitReached. keeps. Qed.

Lemma keeps_generateProfileSummary (data : ProfileRequest) :
  keepsCache (generateProfileSummary data).
Proof.
  unfold generateProfileSummary. pose proof keeps_isAvailable.
  apply keeps_bind; [assumption|]. intros available.
  destruct (negb available); [apply keeps_ret|].
  apply keeps_withCircuitBreaker. keeps.
Qed.

Lemma keeps_enhanceMultipleSections (sections : Sections) (context : SectionsContext) :
  keepsCache (enhanceMultipleSections sections context).
Proof.
  unfold enhanceMultipleSections. pose proof keeps_isAvailable.
  apply keeps_bind; [assumption|]. intros available.
  destruct (negb available); [apply keeps_liftE|].
  apply keeps_withCircuitBreaker. keeps.
Qed.

Lemma keeps_enhanceSection (section content : string) :
  keepsCache (enhanceSection section content).
Proof.
  unfold enhanceSection. pose proof keeps_isAvailable.
  apply keeps_bind; [assumption|]. intros available.
  destruct (negb available); [apply keeps_ret|].
  apply keeps_try; [|intros e; apply keeps_ret].
  apply keeps_bind; [apply keeps_enhanceAttempts | intros text; apply keeps_ret].
Qed.

Lemma keeps_atsAttempt : keepsCache atsAttempt.
Proof. apply keeps_service. intros s r s'. apply atsAttempt_keeps. Qed.

Lemma keeps_computeATSScore (resumeData : ResumeData) (options : ATSOptions) :
  keepsCache (computeATSScore resumeData options).
Proof.
  unfold computeATSScore, computeATSScoreWithAI. pose proof keeps_isAvailable.
  apply keeps_bind.
  - apply keeps_try; [|intros e; apply keeps_ret].
    apply keeps_bind; [assumption|]. intros available.
    apply keeps_bind; [apply keeps_this|]. intros a.
    destruct (_ && _); [|apply keeps_ret].
    apply keeps_bind; [|intros result; apply keeps_ret].
    apply keeps_withCircuitBreaker, keeps_retryLoop, keeps_atsAttempt.
  - intros [result|]; [apply keeps_ret|]. keeps.
Qed.


(** ATS scoring *)

Lemma computeATSScoreWithAI_result (resumeData : ResumeData) (options : ATSOptions)
  (s s' : St) (v : JsVal) :
  computeATSScoreWithAI resumeData options s = (inr v, s') ->
  exists parsed, normalizeATS parsed = inr v.
Proof.
  unfold computeATSScoreWithAI. intros R.
  eapply (retryLoop_result _ (fun v => exists parsed, normalizeATS parsed = inr v));
    [| | exact R]; [|discriminate].
  intros s0 v0 s0'. apply atsAttempt_result.
Qed.

Lemma computeATSScoreWithAI_fails (resumeData : ResumeData) (options : ATSOptions) (s : St) :
  remoteFails (remote (world s)) ->
  exists e s', computeATSScoreWithAI resumeData options s = (inl e, s').
Proof.
  intros F. unfold computeATSScoreWithAI.
  apply retryLoop_fails; auto. intros s0. apply atsAttempt_fails.
Qed.

Lemma computeATSScore_cases (resumeData : ResumeData) (options : ATSOptions) (s : St) :
  exists r s', computeATSScore resumeData options s = (r, s') /\
    ((exists parsed, r = normalizeATS parsed /\ exists v, r = inr v) \/
     (exists rnd now, r = computeATSScoreLocally rnd now resumeData options)) /\
    (unavailableAt s \/ remoteFails (remote (world s)) ->
     exists rnd now, r = computeATSScoreLocally rnd now resumeData options).
Proof.
  unfold computeATSScore, unavailableAt.
  destruct (isAvailable_spec s) as (b & s1 & E & W & K & B & O).
  unfold bind at 1, try_catch at 1, bind at 1. rewrite E.
  unfold bind at 1, this at 1.
  assert (Local : forall s2 : St,
    exists r s',
      (let* rnd := Math_random in
       let* now := Date_now in
       liftE (computeATSScoreLocally rnd now resumeData options)) s2 = (r, s') /\
      exists rnd now, r = computeATSScoreLocally rnd now resumeData options).
  { intros s2. unfold bind, Math_random, Date_now. simpl. rewrite liftE_run.
    eexists. eexists. split; [reflexivity|]. eexists. eexists. reflexivity. }
  destruct b.
  - specialize (O eq_refl).
    assert (Ceq : CircuitState_eqb (circuitState (svc s1)) OPEN = false)
      by (destruct (circuitState (svc s1)); simpl; congruence).
    rewrite Ceq. change (true && negb false) with true. cbv iota.
    destruct (computeATSScoreWithAI resumeData options s1) as [r s2] eqn:G.
    destruct (wcb_run _ s1 s2 r O G) as (s3 & W3 & Wd3 & K3).
    unfold bind at 1. rewrite W3.
    destruct r as [e|result].
    + unfold ret at 1. destruct (Local s3) as (v & s' & L & P).
      exists v, s'. split; [exact L|]. split; auto.
    + unfold ret. exists (inr result), s3. split; [reflexivity|].
      split; [left; destruct (computeATSScoreWithAI_result _ _ _ _ _ G) as (parsed & N);
              exists parsed; split; [symmetry; exact N | eexists; reflexivity]|].
      intros [U|Fl]; [discriminate|].
      rewrite <- W in Fl.
      destruct (computeATSScoreWithAI_fails resumeData options s1 Fl) as (e & s' & E').
      congruence.
  - change (false && _) with false. cbv iota. unfold ret at 1.
    destruct (Local s1) as (v & s' & L & P).
    exists v, s'. split; [exact L|]. split; auto.
Qed.

(** Section enhancement *)

Lemma enhanceAttempts_fails (n : nat) :
  forall (retryDelay : Z) (s : St),
    remoteRejects (remote (world s)) ->
    exists e s', enhanceAttempts n retryDelay s = (inl e, s').
Proof.
  induction n as [|n IH]; intros retryDelay s R.
  - eexists. eexists. reflexivity.
  - simpl. unfold try_catch, generateContent.
    destruct (R (remoteCalls (world s))) as (d & err & E). rewrite E.
    destruct (_ && _).
    + unfold bind, sleep. apply IH. exact R.
    + eexists. eexists. reflexivity.
Qed.

Lemma enhanceSection_no_fallback (section content : string) (s : St) :
  unavailableAt s \/ remoteRejects (remote (world s)) ->
  exists v s', enhanceSection section content s = (inr v, s') /\
    field "success" v = JBool false.
Proof.
  unfold enhanceSection, unavailableAt.
  destruct (isAvailable_spec s) as (b & s1 & E & W & K & B & O).
  unfold bind at 1. rewrite E. simpl fst.
  destruct b; [change (negb true) with false | change (negb false) with true];
    cbv iota.
  - intros [U|R]; [discriminate|].
    rewrite <- W in R.
    destruct (enhanceAttempts_fails 3 1000 s1 R) as (e & s' & A).
    unfold try_catch, bind. rewrite A. unfold ret.
    eexists. eexists. split; reflexivity.
  - intros _. unfold ret. eexists. eexists. split; reflexivity.
Qed.

Lemma enhanceSection_unavailable (section content : string) (s : St) :
  unavailableAt s ->
  exists s', enhanceSection section content s =
    (inr (JObj [("success", JBool false);
                ("error", JStr "AI service is not available")]), s').
Proof.
  unfold enhanceSection, unavailableAt.
  destruct (isAvailable_spec s) as (b & s1 & E & W & K & B & O).
  unfold bind at 1. rewrite E. simpl fst.
  intros U. injection U as ->. simpl. eexists. reflexivity.
Qed.

(** C1 (amended).  Profile-summary generation, multi-section enhancement,
    resume-content generation and ATS scoring fall back to the local
    synthesis engine: when the remote path is unavailable or over quota, or
    every remote call fails, the outcome of the operation is the outcome of
    the local engine (for resume content: unless the cache already holds a
    result for the request).  A remote call fails when it rejects or times
    out and, for resume content and ATS scoring, when its answer does not
    parse; profile-summary generation does not parse the answer and returns
    whatever text the remote model answers in time.  The local engine
    returns a successful result for every request that it can serve: one in
    which each item that needs a generated text has its name, title or
    position, and, for ATS scoring, whose target role is a plain key.  For
    the other requests its [TypeError] reaches the caller.  Section
    enhancement has no local fallback: it returns [success: false] with an
    error message when the remote path is unavailable or the remote call
    rejects.  Only resume-content generation writes the cache, and it keeps
    every cached result successful. *)
Theorem remote_failure_cascade (s : St) :
  (forall data : ProfileRequest,
      exists v s', generateProfileSummary data s = (inr v, s') /\
        field "success" v = JBool true /\
        cache (svc s') = cache (svc s) /\
        (unavailableAt s \/ silentWithin 15000 (remote (world s)) ->
         v = generateProfileSummaryLocally data)) /\
  (forall (sections : Sections) (context : SectionsContext),
      exists s', enhanceMultipleSections sections context s
                 = (enhanceSectionsLocally sections context, s') /\
        cache (svc s') = cache (svc s) /\
        if sectionsServable sections
        then exists v, enhanceSectionsLocally sections context = inr v /\
                       field "success" v = JBool true
        else enhanceSectionsLocally sections context = inl noToLowerCase) /\
  (forall data : ResumeData,
      cacheOk (svc s) ->
      exists r s', generateResumeContent data s = (r, s') /\
        (forall v, r = inr v -> field "success" v = JBool true) /\
        (forall e, r = inl e -> r = enhanceContentLocally data) /\
        cacheOk (svc s') /\
        (cache (svc s) !! getCacheKey data = None ->
         unavailableAt s \/ remoteFails (remote (world s)) ->
         r = enhanceContentLocally data) /\
        if resumeServable data
        then exists v, r = inr v
        else enhanceContentLocally data = inl noToLowerCase) /\
  (forall (resumeData : ResumeData) (options : ATSOptions),
      exists r s', computeATSScore resumeData options s = (r, s') /\
        cache (svc s') = cache (svc s) /\
        (unavailableAt s \/ remoteFails (remote (world s)) ->
         exists rnd now,
           r = computeATSScoreLocally rnd now resumeData options) /\
        (plainKey (targetRole options) ->
         exists v, r = inr v /\
           (unavailableAt s \/ remoteFails (remote (world s)) ->
            field "computationMethod" v = JStr "local")) /\
        (forall e, r = inl e ->
         exists role, targetRole options = Some role /\
                      memS role inheritedKeys = true)) /\
  (forall section content : string,
      unavailableAt s \/ remoteRejects (remote (world s)) ->
      exists v s', enhanceSection section content s = (inr v, s') /\
        field "success" v = JBool false /\
        cache (svc s') = cache (svc s)).
Proof.
  split; [|split; [|split; [|split]]].
  - intros data.
    destruct (generateProfileSummary_cases data s) as (v & s' & E & V & U & R & T).
    exists v, s'. split; [exact E|]. split; [|split].
    + destruct V as [->|[text ->]]; reflexivity.
    + exact (keeps_generateProfileSummary data _ _ _ E).
    + intros [X|X]; auto.
  - intros sections context.
    destruct (enhanceMultipleSections_local sections context s) as (s' & E).
    exists s'. split; [exact E|].
    split; [exact (keeps_enhanceMultipleSections sections context _ _ _ E)|].
    destruct (sectionsServable sections) eqn:S.
    + destruct (enhanceSectionsLocally_returns sections context S) as (v & R).
      exists v. split; [exact R|].
      destruct (enhanceSectionsLocally_inr sections context v R) as (g & _ & ->).
      reflexivity.
    + apply enhanceSectionsLocally_throws. exact S.
  - intros data C.
    destruct (generateResumeContent_cases data s C) as (r & s' & E & V & X & C' & L).
    exists r, s'. split; [exact E|]. split; [exact V|]. split; [exact X|].
    split; [exact C'|]. split; [exact L|].
    destruct (resumeServable data) eqn:S.
    + destruct r as [e|v]; [|eexists; reflexivity].
      destruct (enhanceContentLocally_returns data S) as (v & R).
      rewrite (X e eq_refl) in *. eexists. exact R.
    + apply enhanceContentLocally_throws. exact S.
  - intros resumeData options.
    destruct (computeATSScore_cases resumeData options s) as (r & s' & E & D & L).
    exists r, s'. split; [exact E|]. split; [|split; [|split]].
    + exact (keeps_computeATSScore resumeData options _ _ _ E).
    + exact L.
    + intros P.
      destruct D as [(parsed & _ & v & ->)|(rnd & now & ->)].
      * exists v. split; [reflexivity|].
        intros X. destruct (L X) as (rnd & now & R). symmetry in R.
        destruct (computeATSScoreLocally_inr _ _ _ _ _ R) as (sm & ms & _ & ->).
        reflexivity.
      * destruct (computeATSScoreLocally_returns rnd now resumeData options P)
          as (v & R).
        exists v. split; [exact R|]. intros _.
        destruct (computeATSScoreLocally_inr _ _ _ _ _ R) as (sm & ms & _ & ->).
        reflexivity.
    + intros e ->.
      destruct D as [(parsed & _ & v & D)|(rnd & now & D)]; [discriminate|].
      symmetry in D. eapply computeATSScoreLocally_throws. exact D.
  - intros section content X.
    destruct (enhanceSection_no_fallback section content s X) as (v & s' & E & F).
    exists v, s'. split; [exact E|]. split; [exact F|].
    exact (keeps_enhanceSection section content _ _ _ E).
Qed.

End Cascade.

(** ** Text repair *)

(** Facts about single characters, by cases on the eight bits. *)
Ltac by_bits c :=
  destruct c as [[|] [|] [|] [|] [|] [|] [|] [|]]; vm_compute; intuition congruence.

Lemma ws_not_left c : is_ws c = true -> is_left c = false.
Proof. by_bits c. Qed.

Lemma ws_not_right c : is_ws c = true -> is_right c = false.
Proof. by_bits c. Qed.

Lemma left_not_ws c : is_left c = true -> is_ws c = false.
Proof. by_bits c. Qed.

Lemma right_not_ws c : is_right c = true -> is_ws c = false.
Proof. by_bits c. Qed.

Lemma right_not_left_clean c : is_right c = true -> cleanChar c = true -> is_left c = false.
Proof. by_bits c. Qed.

Lemma right_clean_lbrace c : is_right c = true -> cleanChar c = true -> c = lbrace.
Proof. by_bits c. Qed.

Lemma left_clean_closer c : is_left c = true -> cleanChar c = true -> is_closer c = true.
Proof. by_bits c. Qed.

Lemma left_not_right_clean c : is_left c = true -> cleanChar c = true -> is_right c = false.
Proof. by_bits c. Qed.

Lemma left_not_comma c : is_left c = true -> Ascii.eqb c comma = false.
Proof. by_bits c. Qed.

Lemma plain_clean c : plainChar c = true -> cleanChar c = true.
Proof. by_bits c. Qed.

Lemma plain_not_comma c : plainChar c = true -> Ascii.eqb c comma = false.
Proof. by_bits c. Qed.

Lemma clean_not_dq c : cleanChar c = true -> Ascii.eqb c dq = false.
Proof. by_bits c. Qed.

Lemma clean_not_backtick c : cleanChar c = true -> Ascii.eqb c backtick = false.
Proof. by_bits c. Qed.

Lemma clean_not_control c : cleanChar c = true -> is_control c = false.
Proof. by_bits c. Qed.

Lemma closer_clean c : is_closer c = true -> cleanChar c = true.
Proof. by_bits c. Qed.

Lemma closer_not_right c : is_closer c = true -> is_right c = false.
Proof. by_bits c. Qed.

Lemma closer_not_ws c : is_closer c = true -> is_ws c = false.
Proof. by_bits c. Qed.

Lemma closer_not_comma c : is_closer c = true -> Ascii.eqb c comma = false.
Proof. by_bits c. Qed.


Lemma Plain_Clean l : Plain l -> Clean l.
Proof. apply List.Forall_impl. exact plain_clean. Qed.

Lemma Forall_dropWhile {A} (P : A -> Prop) (p : A -> bool) (l : list A) :
  Forall P l -> Forall P (dropWhile p l).
Proof.
  induction 1 as [|x l Hx Hl IH]; simpl; [constructor|].
  destruct (p x); [exact IH | constructor; assumption].
Qed.

Lemma Forall_trimL (P : ascii -> Prop) (l : list ascii) :
  Forall P l -> Forall P (trimL l).
Proof.
  intros F. unfold trimL, trimEnd, trimStart.
  apply List.Forall_rev, Forall_dropWhile, List.Forall_rev, Forall_dropWhile, F.
Qed.

(** *** Trimming *)


Lemma dropWhile_starts (l : list ascii) : startsClean (dropWhile is_ws l).
Proof.
  induction l as [|c l IH]; simpl; [exact I|].
  destruct (is_ws c) eqn:E; [exact IH | exact E].
Qed.

Lemma dropWhile_fixed (l : list ascii) : startsClean l -> dropWhile is_ws l = l.
Proof. destruct l as [|c l]; simpl; [reflexivity|]. intros ->. reflexivity. Qed.

Lemma dropWhile_snoc (l : list ascii) (c : ascii) :
  is_ws c = false -> dropWhile is_ws (l ++ [c]) = (dropWhile is_ws l ++ [c])%list.
Proof.
  intros E. induction l as [|x l IH]; simpl; [rewrite E; reflexivity|].
  destruct (is_ws x); [exact IH | reflexivity].
Qed.

Lemma trimL_fixed (l : list ascii) : startsClean l -> endsClean l -> trimL l = l.
Proof.
  intros S E. unfold trimL, trimEnd, trimStart.
  rewrite (dropWhile_fixed l S), (dropWhile_fixed (rev l) E). apply List.rev_involutive.
Qed.

Lemma trimL_ends (l : list ascii) : endsClean (trimL l).
Proof.
  unfold endsClean, trimL, trimEnd. rewrite List.rev_involutive. apply dropWhile_starts.
Qed.

Lemma trimEnd_starts (l : list ascii) : startsClean l -> startsClean (trimEnd l).
Proof.
  destruct l as [|c l]; simpl; [intros _; exact I|]. intros E.
  unfold trimEnd. simpl. rewrite dropWhile_snoc by exact E.
  rewrite List.rev_app_distr. simpl. exact E.
Qed.

Lemma trimL_starts (l : list ascii) : startsClean (trimL l).
Proof. unfold trimL. apply trimEnd_starts, dropWhile_starts. Qed.

(** *** The steps that plain text passes unchanged *)

Lemma stripFenceOpen_clean (l : list ascii) : Clean l -> stripFenceOpen l = l.
Proof.
  intros C. unfold stripFenceOpen.
  destruct l as [|c l]; [reflexivity|].
  inversion C as [|? ? Hc _]; subst.
  change (prefixb fenceOpen (c :: l)) with
    (Ascii.eqb backtick c && prefixb (List.tl fenceOpen) l).
  rewrite Ascii.eqb_sym, (clean_not_backtick c Hc). reflexivity.
Qed.

Lemma stripFenceClose_clean (l : list ascii) : Clean l -> stripFenceClose l = l.
Proof.
  intros C. unfold stripFenceClose, suffixb.
  apply List.Forall_rev in C.
  destruct (rev l) as [|c r]; [reflexivity|].
  inversion C as [|? ? Hc _]; subst.
  change (prefixb (rev fenceClose) (c :: r)) with
    (Ascii.eqb backtick c && prefixb [backtick; backtick] r).
  rewrite Ascii.eqb_sym, (clean_not_backtick c Hc). reflexivity.
Qed.

Lemma prefixb_cons (a b : ascii) (p l : list ascii) :
  prefixb (a :: p) (b :: l) = Ascii.eqb a b && prefixb p l.
Proof. reflexivity. Qed.

Lemma includesL_cons (p : list ascii) (c : ascii) (l : list ascii) :
  includesL p (c :: l) = prefixb p (c :: l) || includesL p l.
Proof. reflexivity. Qed.

Lemma no_escaped_quote (l : list ascii) :
  Clean l -> includesL [backslash; dq] l = false.
Proof.
  induction 1 as [|c l Hc Hl IH]; [reflexivity|].
  rewrite includesL_cons, IH, orb_false_r, prefixb_cons.
  destruct l as [|d l']; [apply andb_false_r|].
  inversion Hl as [|? ? Hd _]; subst.
  rewrite prefixb_cons, (Ascii.eqb_sym dq d), (clean_not_dq d Hd).
  apply andb_false_r.
Qed.

Lemma unescapeStep_clean (l : list ascii) : Clean l -> unescapeStep l = l.
Proof. intros C. unfold unescapeStep. rewrite (no_escaped_quote l C). reflexivity. Qed.

Lemma stripControl_clean (l : list ascii) : Clean l -> stripControl l = l.
Proof.
  induction 1 as [|c l Hc Hl IH]; [reflexivity|].
  unfold stripControl in *. cbn [List.filter]. rewrite (clean_not_control c Hc).
  cbn [negb]. rewrite IH. reflexivity.
Qed.

Lemma joinSplitStrings_clean (l : list ascii) : Clean l -> joinSplitStrings l = l.
Proof.
  induction 1 as [|c l Hc Hl IH]; [reflexivity|].
  cbn [joinSplitStrings]. rewrite (clean_not_dq c Hc), IH. reflexivity.
Qed.

Lemma count_clean_dq (l : list ascii) : Clean l -> count dq l = 0%nat.
Proof.
  induction 1 as [|c l Hc Hl IH]; [reflexivity|].
  unfold count in *. cbn [List.filter]. rewrite Ascii.eqb_sym, (clean_not_dq c Hc). exact IH.
Qed.

Lemma closeQuote_clean (l : list ascii) : Clean l -> closeQuote l = l.
Proof. intros C. unfold closeQuote. rewrite (count_clean_dq l C). reflexivity. Qed.

(** *** Comma insertion *)

Lemma insertCommas_skip (k : nat) (l : list ascii) :
  insertCommas k l = insertCommas 0 (skipn k l).
Proof.
  revert l. induction k as [|k IH]; intros l; [reflexivity|].
  destruct l as [|c r]; [reflexivity|]. simpl skipn. rewrite <- IH. reflexivity.
Qed.

Lemma take_drop_ws (l : list ascii) :
  l = (takeWhile is_ws l ++ dropWhile is_ws l)%list.
Proof.
  induction l as [|c l IH]; [reflexivity|]. simpl.
  destruct (is_ws c); [simpl; f_equal; exact IH | reflexivity].
Qed.

Lemma skipn_takeWhile (l : list ascii) :
  skipn (length (takeWhile is_ws l)) l = dropWhile is_ws l.
Proof.
  induction l as [|c l IH]; [reflexivity|]. simpl.
  destruct (is_ws c); [simpl; exact IH | reflexivity].
Qed.

(** The two ways in which the scan passes a character. *)
Lemma insertCommas_match (c d : ascii) (r r' : list ascii) :
  is_left c = true -> dropWhile is_ws r = d :: r' -> is_right d = true ->
  insertCommas 0 (c :: r) = c :: comma :: d :: insertCommas 0 r'.
Proof.
  intros L D R. cbn [insertCommas]. unfold follows. rewrite D, L, R. cbn [andb].
  do 3 f_equal. rewrite insertCommas_skip. cbn [skipn].
  destruct r as [|x r0]; [discriminate|].
  assert (E : skipn (1 + length (takeWhile is_ws (x :: r0))) (x :: r0) = r').
  { pose proof (skipn_takeWhile (x :: r0)) as K. rewrite D in K.
    rewrite <- List.skipn_skipn. rewrite K. reflexivity. }
  exact (f_equal (insertCommas 0) E).
Qed.

Lemma insertCommas_pass (c : ascii) (r : list ascii) :
  is_left c && follows is_right r = false ->
  insertCommas 0 (c :: r) = c :: insertCommas 0 r.
Proof. intros E. cbn [insertCommas]. rewrite E. reflexivity. Qed.

Lemma follows_cases (p : ascii -> bool) (r : list ascii) :
  follows p r = true -> exists d r', dropWhile is_ws r = d :: r' /\ p d = true.
Proof.
  unfold follows. destruct (dropWhile is_ws r) as [|d r']; [discriminate|].
  intros E. exists d, r'. split; [reflexivity | exact E].
Qed.

Lemma dropWhile_length (l : list ascii) :
  (length (dropWhile is_ws l) <= length l)%nat.
Proof.
  induction l as [|c l IH]; simpl; [lia|]. destruct (is_ws c); simpl; lia.
Qed.

(** Induction along the scan. *)
Lemma insertCommas_ind (P : list ascii -> list ascii -> Prop) :
  P [] [] ->
  (forall c r, is_left c && follows is_right r = false ->
     P r (insertCommas 0 r) -> P (c :: r) (c :: insertCommas 0 r)) ->
  (forall c d r r', is_left c = true -> dropWhile is_ws r = d :: r' ->
     is_right d = true ->
     P r' (insertCommas 0 r') ->
     P (c :: r) (c :: comma :: d :: insertCommas 0 r')) ->
  forall l, P l (insertCommas 0 l).
Proof.
  intros P0 Ppass Pmatch l.
  remember (length l) as n eqn:N. revert l N.
  induction n as [n IH] using (well_founded_induction lt_wf).
  intros l N. destruct l as [|c r]; [exact P0|].
  destruct (is_left c && follows is_right r) eqn:E.
  - apply andb_true_iff in E. destruct E as [L F].
    destruct (follows_cases _ _ F) as (d & r' & D & R).
    rewrite (insertCommas_match c d r r' L D R).
    apply Pmatch; auto.
    apply (IH (length r')); [|reflexivity].
    subst n. simpl. pose proof (dropWhile_length r) as K. rewrite D in K. simpl in K. lia.
  - rewrite (insertCommas_pass c r E). apply Ppass; auto.
    apply (IH (length r)); [subst n; simpl; lia | reflexivity].
Qed.

Lemma follows_cons_ws (p : ascii -> bool) (c : ascii) (r : list ascii) :
  is_ws c = true -> follows p (c :: r) = follows p r.
Proof. intros E. unfold follows. simpl. rewrite E. reflexivity. Qed.

Lemma follows_cons (p : ascii -> bool) (c : ascii) (r : list ascii) :
  is_ws c = false -> follows p (c :: r) = p c.
Proof. intros E. unfold follows. simpl. rewrite E. reflexivity. Qed.

Lemma dropTrailingCommas_guarded (l : list ascii) :
  guarded l = true -> dropTrailingCommas l = l.
Proof.
  induction l as [|c r IH]; [reflexivity|].
  cbn [guarded dropTrailingCommas]. intros G.
  apply andb_true_iff in G. destruct G as [G1 G2].
  rewrite (IH G2).
  destruct (Ascii.eqb c comma); [|reflexivity].
  destruct r as [|d r']; [discriminate|].
  apply Ascii.eqb_eq in G1. subst d.
  rewrite follows_cons by reflexivity. reflexivity.
Qed.

Lemma guarded_plain (l : list ascii) : Plain l -> guarded l = true.
Proof.
  induction 1 as [|c l Hc Hl IH]; [reflexivity|].
  cbn [guarded]. rewrite (plain_not_comma c Hc), IH. reflexivity.
Qed.

Lemma insertCommas_pass_through (l : list ascii) :
  hasAdjacent l = false -> insertCommas 0 l = l.
Proof.
  induction l as [|c r IH]; [reflexivity|].
  cbn [hasAdjacent]. intros A. apply orb_false_iff in A. destruct A as [A1 A2].
  rewrite (insertCommas_pass c r A1), (IH A2). reflexivity.
Qed.

Lemma Clean_tail_after_ws (c d : ascii) (r r' : list ascii) :
  Clean (c :: r) -> dropWhile is_ws r = d :: r' -> cleanChar d = true /\ Clean r'.
Proof.
  intros C D. inversion C as [|? ? _ Cr]; subst.
  pose proof (Forall_dropWhile _ is_ws r Cr) as K. rewrite D in K.
  inversion K; subst. split; assumption.
Qed.

Lemma Plain_tail_after_ws (c d : ascii) (r r' : list ascii) :
  Plain (c :: r) -> dropWhile is_ws r = d :: r' -> Plain r'.
Proof.
  intros C D. inversion C as [|? ? _ Cr]; subst.
  pose proof (Forall_dropWhile _ is_ws r Cr) as K. rewrite D in K.
  inversion K; subst. assumption.
Qed.

Lemma insertCommas_clean (l : list ascii) : Clean l -> Clean (insertCommas 0 l).
Proof.
  apply (insertCommas_ind (fun l out => Clean l -> Clean out)).
  - intros C. exact C.
  - intros c r _ IH C. inversion C as [|? ? Hc Hr]; subst.
    constructor; [exact Hc | exact (IH Hr)].
  - intros c d r r' L D R IH C.
    destruct (Clean_tail_after_ws c d r r' C D) as [Cd Cr'].
    inversion C as [|? ? Hc Hr]; subst.
    constructor; [exact Hc|]. constructor; [reflexivity|].
    constructor; [exact Cd | exact (IH Cr')].
Qed.

Lemma insertCommas_guarded (l : list ascii) :
  Plain l -> guarded (insertCommas 0 l) = true.
Proof.
  apply (insertCommas_ind (fun l out => Plain l -> guarded out = true)).
  - intros _. reflexivity.
  - intros c r _ IH C. inversion C as [|? ? Hc Hr]; subst.
    cbn [guarded]. rewrite (plain_not_comma c Hc), (IH Hr). reflexivity.
  - intros c d r r' L D R IH C.
    pose proof (Plain_tail_after_ws c d r r' C D) as Cr'.
    destruct (Clean_tail_after_ws c d r r' (Plain_Clean _ C) D) as [Cd _].
    pose proof (right_clean_lbrace d R Cd) as ->.
    cbn [guarded]. rewrite (left_not_comma c L), (IH Cr'). reflexivity.
Qed.

Lemma insertCommas_follows (p : ascii -> bool) (l : list ascii) :
  follows p (insertCommas 0 l) = follows p l.
Proof.
  induction l as [|c r IH]; [reflexivity|].
  destruct (is_ws c) eqn:W.
  - rewrite insertCommas_pass by (rewrite (ws_not_left c W); reflexivity).
    rewrite !follows_cons_ws by exact W. exact IH.
  - rewrite (follows_cons p c r W).
    destruct (is_left c && follows is_right r) eqn:E.
    + apply andb_true_iff in E. destruct E as [L F].
      destruct (follows_cases _ _ F) as (d & r' & D & R).
      rewrite (insertCommas_match c d r r' L D R). apply follows_cons. exact W.
    + rewrite (insertCommas_pass c r E). apply follows_cons. exact W.
Qed.

Lemma insertCommas_settles (l : list ascii) :
  Clean l -> hasAdjacent (insertCommas 0 l) = false.
Proof.
  apply (insertCommas_ind (fun l out => Clean l -> hasAdjacent out = false)).
  - intros _. reflexivity.
  - intros c r E IH C. inversion C; subst.
    cbn [hasAdjacent]. rewrite insertCommas_follows, E, IH by assumption. reflexivity.
  - intros c d r r' L D R IH C.
    destruct (Clean_tail_after_ws c d r r' C D) as [Cd Cr'].
    cbn [hasAdjacent].
    rewrite (follows_cons is_right comma) by reflexivity.
    rewrite (right_not_left_clean d R Cd), (IH Cr').
    rewrite andb_false_r. reflexivity.
Qed.

(** *** The ends of the text *)

Lemma insertCommas_nil_iff (l : list ascii) : insertCommas 0 l = [] -> l = [].
Proof.
  destruct l as [|c r]; [reflexivity|]. cbn [insertCommas].
  destruct (is_left c && follows is_right r); [|discriminate].
  destruct (dropWhile is_ws r); discriminate.
Qed.

Lemma insertCommas_starts (l : list ascii) :
  startsClean l -> startsClean (insertCommas 0 l).
Proof.
  destruct l as [|c r]; [auto|]. cbn [insertCommas].
  destruct (is_left c && follows is_right r); [|auto].
  destruct (dropWhile is_ws r); auto.
Qed.

Lemma endsClean_app (a x : list ascii) :
  x <> [] -> (endsClean (a ++ x) <-> endsClean x).
Proof.
  intros N. unfold endsClean. rewrite List.rev_app_distr.
  destruct (rev x) as [|y ys] eqn:E; [|reflexivity].
  apply (f_equal (@rev ascii)) in E. rewrite List.rev_involutive in E. contradiction.
Qed.

Lemma endsClean_cons (c : ascii) (x : list ascii) :
  x <> [] -> (endsClean (c :: x) <-> endsClean x).
Proof. apply (endsClean_app [c] x). Qed.

Lemma endsClean_all (l : list ascii) :
  Forall (fun c => is_ws c = false) l -> endsClean l.
Proof.
  intros F. apply List.Forall_rev in F. unfold endsClean.
  destruct (rev l); [exact I|]. inversion F; subst. assumption.
Qed.

Lemma insertCommas_ends (l : list ascii) :
  endsClean l -> endsClean (insertCommas 0 l).
Proof.
  apply (insertCommas_ind (fun l out => endsClean l -> endsClean out)).
  - intros E. exact E.
  - intros c r _ IH E. destruct r as [|x r0]; [exact E|].
    assert (N : insertCommas 0 (x :: r0) <> [])
      by (intros K; apply insertCommas_nil_iff in K; discriminate).
    apply endsClean_cons; [exact N|]. apply IH.
    apply (endsClean_cons c (x :: r0)); [discriminate | exact E].
  - intros c d r r' L D R IH E.
    destruct r' as [|x r0].
    + apply endsClean_all. repeat constructor;
        [apply left_not_ws; exact L | apply right_not_ws; exact R].
    + assert (N : insertCommas 0 (x :: r0) <> [])
        by (intros K; apply insertCommas_nil_iff in K; discriminate).
      apply (endsClean_app [c; comma; d]); [exact N|]. apply IH.
      apply (endsClean_app (c :: takeWhile is_ws r ++ [d])); [discriminate|].
      replace ((c :: takeWhile is_ws r ++ [d]) ++ x :: r0)%list with (c :: r); [exact E|].
      rewrite (take_drop_ws r) at 1. rewrite D. simpl. rewrite <- List.app_assoc. reflexivity.
Qed.

(** *** Completion of braces and brackets *)

Lemma count_app (c : ascii) (a b : list ascii) :
  count c (a ++ b) = (count c a + count c b)%nat.
Proof. unfold count. rewrite List.filter_app, List.length_app. reflexivity. Qed.

Lemma count_repeat_same (c : ascii) (n : nat) : count c (repeat c n) = n.
Proof.
  unfold count. induction n as [|n IH]; [reflexivity|].
  cbn [repeat List.filter]. rewrite Ascii.eqb_refl. simpl. rewrite IH. reflexivity.
Qed.

Lemma count_repeat_other (c d : ascii) (n : nat) :
  Ascii.eqb c d = false -> count c (repeat d n) = 0%nat.
Proof.
  intros E. unfold count. induction n as [|n IH]; [reflexivity|].
  cbn [repeat List.filter]. rewrite E. exact IH.
Qed.

Lemma closeDelimiters_appends (l : list ascii) :
  closeDelimiters l =
    (l ++ repeat rbrace (count lbrace l - count rbrace l)
       ++ repeat rbracket (count lbracket l - count rbracket l))%list.
Proof.
  unfold closeDelimiters.
  destruct (count rbrace l <? count lbrace l)%nat eqn:B;
    destruct (count rbracket l <? count lbracket l)%nat eqn:K;
    try apply Nat.ltb_ge in B; try apply Nat.ltb_ge in K.
  - rewrite <- List.app_assoc. reflexivity.
  - replace (count lbracket l - count rbracket l)%nat with 0%nat by lia.
    cbn [repeat]. rewrite List.app_nil_r. reflexivity.
  - replace (count lbrace l - count rbrace l)%nat with 0%nat by lia. reflexivity.
  - replace (count lbrace l - count rbrace l)%nat with 0%nat by lia.
    replace (count lbracket l - count rbracket l)%nat with 0%nat by lia.
    cbn [repeat app]. rewrite List.app_nil_r. reflexivity.
Qed.

Lemma closeDelimiters_idempotent (l : list ascii) :
  closeDelimiters (closeDelimiters l) = closeDelimiters l.
Proof.
  rewrite (closeDelimiters_appends (closeDelimiters l)).
  set (u := closeDelimiters l).
  assert (B : (count lbrace u - count rbrace u = 0)%nat).
  { unfold u. rewrite closeDelimiters_appends, !count_app.
    rewrite count_repeat_same.
    rewrite !(count_repeat_other lbrace) by reflexivity.
    rewrite (count_repeat_other rbrace rbracket) by reflexivity. lia. }
  assert (K : (count lbracket u - count rbracket u = 0)%nat).
  { unfold u. rewrite closeDelimiters_appends, !count_app.
    rewrite count_repeat_same.
    rewrite !(count_repeat_other lbracket) by reflexivity.
    rewrite (count_repeat_other rbracket rbrace) by reflexivity. lia. }
  rewrite B, K. simpl. apply List.app_nil_r.
Qed.

(** *** The appended closing delimiters *)

Lemma closers_closer (a b : nat) :
  Forall (fun c => is_closer c = true) (repeat rbrace a ++ repeat rbracket b).
Proof.
  apply List.Forall_app. split; apply List.Forall_forall; intros c I;
    apply List.repeat_spec in I; subst c; reflexivity.
Qed.

Lemma follows_no_right (x b : list ascii) :
  Forall (fun c => is_right c = false) b ->
  follows is_right x = false -> follows is_right (x ++ b) = false.
Proof.
  intros F. induction x as [|c x IH]; intros E.
  - simpl. unfold follows.
    pose proof (Forall_dropWhile _ is_ws b F) as K.
    destruct (dropWhile is_ws b); [reflexivity|]. inversion K; subst. assumption.
  - simpl. destruct (is_ws c) eqn:W.
    + rewrite follows_cons_ws in * by exact W. apply IH. exact E.
    + rewrite follows_cons in * by exact W. exact E.
Qed.

Lemma hasAdjacent_no_right (b : list ascii) :
  Forall (fun c => is_right c = false) b -> hasAdjacent b = false.
Proof.
  induction 1 as [|c r Hc Hr IH]; [reflexivity|].
  cbn [hasAdjacent]. rewrite IH, orb_false_r.
  pose proof (follows_no_right [] r Hr eq_refl) as K. simpl in K.
  rewrite K. apply andb_false_r.
Qed.

Lemma hasAdjacent_app (a b : list ascii) :
  Forall (fun c => is_right c = false) b ->
  hasAdjacent a = false -> hasAdjacent (a ++ b) = false.
Proof.
  intros F. induction a as [|c a IH]; intros E.
  - apply hasAdjacent_no_right. exact F.
  - simpl. cbn [hasAdjacent] in E. apply orb_false_iff in E. destruct E as [E1 E2].
    rewrite (IH E2), orb_false_r.
    destruct (is_left c); [|reflexivity]. simpl in *.
    apply follows_no_right; assumption.
Qed.

Lemma guarded_app (a b : list ascii) :
  Forall (fun c => is_closer c = true) b ->
  guarded a = true -> guarded (a ++ b) = true.
Proof.
  intros F. induction a as [|c a IH]; intros G.
  - simpl. clear G. induction F as [|d r Hd Hr IH]; [reflexivity|].
    cbn [guarded]. rewrite (closer_not_comma d Hd), IH. reflexivity.
  - simpl. cbn [guarded] in *. apply andb_true_iff in G. destruct G as [G1 G2].
    rewrite (IH G2), andb_true_r.
    destruct (Ascii.eqb c comma); [|reflexivity].
    destruct a as [|d a']; [discriminate|]. exact G1.
Qed.

(** *** The repair of plain text, and of its result *)

Lemma scrub_plain (l : list ascii) :
  Plain l -> scrub l = closeDelimiters (insertCommas 0 (trimL l)).
Proof.
  intros P. unfold scrub.
  pose proof (Forall_trimL _ l P) as P1. fold (Plain (trimL l)) in P1.
  pose proof (Plain_Clean _ P1) as C1.
  rewrite (stripFenceOpen_clean _ C1), (stripFenceClose_clean _ C1).
  rewrite (unescapeStep_clean _ C1).
  rewrite (dropTrailingCommas_guarded _ (guarded_plain _ P1)).
  pose proof (insertCommas_clean _ C1) as C5.
  rewrite (stripControl_clean _ C5).
  assert (Cu : Clean (closeDelimiters (insertCommas 0 (trimL l)))).
  { rewrite closeDelimiters_appends. apply List.Forall_app. split; [exact C5|].
    eapply List.Forall_impl; [|apply closers_closer]. exact closer_clean. }
  rewrite (joinSplitStrings_clean _ Cu). apply closeQuote_clean. exact Cu.
Qed.

Lemma scrub_fixed (u : list ascii) :
  Clean u -> startsClean u -> endsClean u ->
  guarded u = true -> hasAdjacent u = false -> closeDelimiters u = u ->
  scrub u = u.
Proof.
  intros C S E G A D. unfold scrub.
  rewrite (trimL_fixed u S E).
  rewrite (stripFenceOpen_clean _ C), (stripFenceClose_clean _ C).
  rewrite (unescapeStep_clean _ C), (dropTrailingCommas_guarded _ G).
  rewrite (insertCommas_pass_through _ A), (stripControl_clean _ C), D.
  rewrite (joinSplitStrings_clean _ C). apply closeQuote_clean. exact C.
Qed.

Lemma scrub_plain_settled (l : list ascii) :
  Plain l -> scrub (scrub l) = scrub l.
Proof.
  intros P. rewrite (scrub_plain l P).
  pose proof (Forall_trimL _ l P) as P1. fold (Plain (trimL l)) in P1.
  pose proof (Plain_Clean _ P1) as C1.
  set (t := trimL l) in *.
  pose proof (insertCommas_clean _ C1) as C5.
  pose proof (closers_closer (count lbrace (insertCommas 0 t) - count rbrace (insertCommas 0 t))
                (count lbracket (insertCommas 0 t) - count rbracket (insertCommas 0 t))) as K.
  assert (U : closeDelimiters (insertCommas 0 t) =
              (insertCommas 0 t ++
               (repeat rbrace (count lbrace (insertCommas 0 t) - count rbrace (insertCommas 0 t)) ++
                repeat rbracket (count lbracket (insertCommas 0 t) - count rbracket (insertCommas 0 t))))%list)
    by apply closeDelimiters_appends.
  set (closers := (repeat rbrace _ ++ repeat rbracket _)%list) in *.
  apply scrub_fixed.
  - rewrite U. apply List.Forall_app. split; [exact C5|].
    eapply List.Forall_impl; [|exact K]. exact closer_clean.
  - rewrite U.
    pose proof (insertCommas_starts t (trimL_starts l)) as S.
    destruct (insertCommas 0 t) as [|c r]; [|exact S].
    apply (List.Forall_impl _ closer_not_ws) in K.
    destruct closers as [|d ds]; [exact I|].
    inversion K; subst. assumption.
  - rewrite U. destruct closers as [|d ds] eqn:Cl.
    + rewrite List.app_nil_r. apply insertCommas_ends. apply trimL_ends.
    + apply endsClean_app; [discriminate|]. apply endsClean_all.
      eapply List.Forall_impl; [|exact K]. exact closer_not_ws.
  - rewrite U. apply guarded_app; [exact K|]. apply insertCommas_guarded. exact P1.
  - rewrite U. apply hasAdjacent_app.
    + eapply List.Forall_impl; [|exact K]. exact closer_not_right.
    + apply insertCommas_settles. exact C1.
  - apply closeDelimiters_idempotent.
Qed.

(** C3 (amended).  [repair(repair(x)) = repair(x)] for every text [x] that
    contains no double quote, comma, backtick or control character. *)
Theorem repair_idempotent_on_plain_text (text : string) :
  plainText text -> scrubJsonText (scrubJsonText text) = scrubJsonText text.
Proof.
  unfold plainText, scrubJsonText, chars, str. intros P.
  rewrite list_ascii_of_string_of_list_ascii.
  f_equal. apply scrub_plain_settled.
  apply List.Forall_forall. intros c I.
  rewrite List.forallb_forall in P. apply P. exact I.
Qed.


(** ** Result schemas on the two paths *)

Lemma normalizeATS_inr (parsed v : JsVal) :
  normalizeATS parsed = inr v ->
  v = JObj [
    ("score", normalizeScore (field "score" parsed));
    ("summary", js_or (field "summary" parsed) (JStr ""));
    ("keywordsMatched", arrayOrEmpty (field "keywordsMatched" parsed));
    ("keywordsMissing", arrayOrEmpty (field "keywordsMissing" parsed));
    ("suggestions", arrayOrEmpty (field "suggestions" parsed));
    ("computationMethod", JStr "ai") ].
Proof.
  intros N. assert (P : parsed <> JNull /\ parsed <> JUndef).
  { split; intros ->; discriminate. }
  destruct P as [P1 P2]. rewrite (normalizeATS_value parsed P1 P2) in N.
  injection N as <-. reflexivity.
Qed.

Lemma shape_arrayOrEmpty (v : JsVal) : shape (arrayOrEmpty v) = ShArray.
Proof. destruct v; reflexivity. Qed.

Lemma shape_normalizeScore (v : JsVal) :
  shape (normalizeScore v) = ShNumber \/ shape (normalizeScore v) = ShNull.
Proof. destruct v; simpl; auto. Qed.

Section SchemaProofs.
Context `{Runtime}.

(** C2 (amended).  The results of the two paths share a set of fields but
    their schemas are not identical.  Resume content: both have [success],
    [generatedContent] and [aiPrompt]; the AI result tags its provenance as
    [generationMethod: 'ai'], the local result as [enhancementMethod:
    'local'] and it has the additional field [enhancements].  ATS: both
    have [score], [summary], [keywordsMatched], [keywordsMissing],
    [suggestions] and [computationMethod]; the local result has the
    additional field [lastComputedAt], and the AI score may be [null].
    Profile summary: the same schema on both paths, and no provenance tag,
    for a role that is a plain key (for a role such as [constructor] the
    local summary is the inherited member of the table of summaries, not a
    string).  Multi-section enhancement: the same outcome on both
    paths. *)
Theorem result_schemas_by_provenance :
  (forall (data : ResumeData) (s s' : St) (v : JsVal),
      generateResumeContentWithAI data s = (inr v, s') ->
      exists generated,
        schema v = [("success", ShBoolean);
                    ("generatedContent", shape generated);
                    ("aiPrompt", ShString);
                    ("generationMethod", ShString)] /\
        field "generationMethod" v = JStr "ai") /\
  (forall (data : ResumeData) (v : JsVal),
      enhanceContentLocally data = inr v ->
      schema v
        = [("success", ShBoolean);
           ("generatedContent", ShObject);
           ("aiPrompt", ShString);
           ("enhancements", ShArray);
           ("enhancementMethod", ShString)] /\
      field "enhancementMethod" v = JStr "local") /\
  (forall (resumeData : ResumeData) (options : ATSOptions) (s s' : St) (v : JsVal),
      computeATSScoreWithAI resumeData options s = (inr v, s') ->
      exists score summary,
        schema v = [("score", score);
                    ("summary", summary);
                    ("keywordsMatched", ShArray);
                    ("keywordsMissing", ShArray);
                    ("suggestions", ShArray);
                    ("computationMethod", ShString)] /\
        (score = ShNumber \/ score = ShNull) /\
        field "computationMethod" v = JStr "ai") /\
  (forall (rnd : Q) (now : Z) (resumeData : ResumeData) (options : ATSOptions)
          (v : JsVal),
      computeATSScoreLocally rnd now resumeData options = inr v ->
      schema v
        = [("score", ShNumber);
           ("summary", ShString);
           ("keywordsMatched", ShArray);
           ("keywordsMissing", ShArray);
           ("suggestions", ShArray);
           ("lastComputedAt", ShString);
           ("computationMethod", ShString)] /\
      field "computationMethod" v = JStr "local") /\
  (forall (data : ProfileRequest) (s s' : St) (v : JsVal),
      plainKey (pr_roleApplyingFor data) ->
      generateProfileSummary data s = (inr v, s') ->
      schema v = schema (generateProfileSummaryLocally data)) /\
  (forall (sections : Sections) (context : SectionsContext) (s s' : St)
          (r : JsError + JsVal),
      enhanceMultipleSections sections context s = (r, s') ->
      r = enhanceSectionsLocally sections context).
Proof.
  split; [|split; [|split; [|split; [|split]]]].
  - intros data s s' v R.
    unfold generateResumeContentWithAI in R. unfold bind at 1 in R.
    destruct (personalInfo data); [|discriminate]. unfold ret at 1 in R.
    eapply (retryLoop_result _ (fun v => exists generated,
       schema v = [("success", ShBoolean); ("generatedContent", shape generated);
                   ("aiPrompt", ShString); ("generationMethod", ShString)] /\
       field "generationMethod" v = JStr "ai")); [| | exact R]; [|discriminate].
    intros s0 v0 s0' E. destruct (resumeAttempt_schema _ _ _ _ E) as (g & ->).
    exists g. split; reflexivity.
  - intros data v R.
    destruct (enhanceContentLocally_inr data v R) as (g & G & ->).
    destruct (enhancedContentOf_inr data g G) as (xs & ps & as' & _ & _ & _ & ->).
    split; reflexivity.
  - intros resumeData options s s' v R.
    destruct (computeATSScoreWithAI_result _ _ _ _ _ R) as (parsed & N).
    apply normalizeATS_inr in N. subst v.
    eexists. eexists. split; [|split; [|reflexivity]].
    + cbn [schema map fst snd]. rewrite !shape_arrayOrEmpty. reflexivity.
    + apply shape_normalizeScore.
  - intros rnd now resumeData options v R.
    destruct (computeATSScoreLocally_inr _ _ _ _ _ R) as (sm & ms & _ & ->).
    split; reflexivity.
  - intros data s s' v _ R.
    destruct (generateProfileSummary_cases data s) as (v' & s'' & E & V & _).
    rewrite E in R. injection R as <- _.
    destruct V as [->|[text ->]]; [reflexivity|].
    unfold generateProfileSummaryLocally. cbn [schema map fst snd shape].
    destruct (pr_isFresher data); reflexivity.
  - intros sections context s s' r R.
    destruct (enhanceMultipleSections_local sections context s) as (s'' & E).
    rewrite E in R. injection R as <- _. reflexivity.
Qed.

End SchemaProofs.

(** ** Examples, counterexamples and instances of the theorems *)

Lemma generateContent_leavesBreaker (timeout : option (Z * string)) :
  leavesBreaker (generateContent timeout).
Proof.
  intros s. destruct (generateContent timeout s) as [r s'] eqn:E.
  apply generateContent_keeps in E. simpl. rewrite E. reflexivity.
Qed.

Section Examples.
#[local] Existing Instance exampleRuntime.

Lemma cacheOk_new (key : bool) (t0 : Z) :
  cacheOk (newAIService key t0).
Proof. unfold cacheOk. simpl. apply map_Forall_empty. Qed.

(** C1, counterexample.  Without a credential the remote path is
    unavailable and [enhanceSection] returns a failure to its caller; with
    a credential and an overloaded remote model it returns a failure
    too. *)
Lemma enhanceSection_returns_failure :
  fst (isAvailable (freshState false overloaded)) = inr false /\
  fst (enhanceSection "project" "Built a shop"
         (freshState false overloaded))
  = inr (JObj [("success", JBool false);
               ("error", JStr "AI service is not available")]) /\
  fst (enhanceSection "project" "Built a shop"
         (freshState true overloaded))
  = inr (JObj [("success", JBool false);
               ("error", JStr "Failed to enhance project section. Please try again later.")]).
Proof. vm_compute. repeat split. Qed.

(** C1: the cascade at a fresh service whose remote model is overloaded. *)
Lemma remote_failure_cascade_witness :
  exists r s',
    generateResumeContent exampleResume (freshState true overloaded) = (r, s') /\
    (forall v, r = inr v -> field "success" v = JBool true) /\
    (forall e, r = inl e -> r = enhanceContentLocally exampleResume) /\
    cacheOk (svc s') /\
    (cache (svc (freshState true overloaded)) !! @getCacheKey exampleResume = None ->
     unavailableAt (freshState true overloaded)
       \/ remoteFails (remote (world (freshState true overloaded))) ->
     r = enhanceContentLocally exampleResume) /\
    if resumeServable exampleResume
    then exists v, r = inr v
    else enhanceContentLocally exampleResume = inl noToLowerCase.
Proof.
  apply (proj1 (proj2 (proj2 (remote_failure_cascade
                                 (freshState true overloaded))))).
  apply cacheOk_new.
Defined.

(** C1: two requests that the local engine cannot serve.  A project
    without a name and without a description makes resume-content
    generation and multi-section enhancement throw the [TypeError] of
    [toLowerCase]; the target role [constructor] makes ATS scoring throw
    when it falls back to the local engine. *)
Lemma unservable_requests_throw :
  fst (generateResumeContent resumeWithUnnamedProject (freshState false overloaded))
  = inl noToLowerCase /\
  fst (enhanceMultipleSections sectionsWithUnnamedProject exampleContext
         (freshState false overloaded))
  = inl noToLowerCase /\
  fst (computeATSScore emptyResume (mkATSOptions (Some "constructor") None)
         (freshState false overloaded))
  = inl (Error "expectedKeywords.filter is not a function").
Proof. vm_compute. repeat split. Qed.

(** C2, counterexample.  For one request, the AI-derived and the local
    result of resume-content generation differ in more than the provenance
    tag: the tags have different names, and without them the local result
    still has the field [enhancements], which the AI result lacks. *)
Lemma schemas_differ_beyond_provenance :
  exists ai local,
    fst (generateResumeContent emptyResume
           (freshState true (answering "{}"))) = inr ai /\
    fst (generateResumeContent emptyResume
           (freshState false (answering "{}"))) = inr local /\
    field "generationMethod" ai = JStr "ai" /\
    field "enhancementMethod" local = JStr "local" /\
    map fst (withoutTags (schema ai))
      = ["success"; "generatedContent"; "aiPrompt"] /\
    map fst (withoutTags (schema local))
      = ["success"; "generatedContent"; "aiPrompt"; "enhancements"].
Proof.
  eexists. eexists. split; [vm_compute; reflexivity|].
  split; [vm_compute; reflexivity|]. vm_compute. repeat split.
Qed.

(** C2: the multi-section part at an example request. *)
Lemma result_schemas_witness :
  schema (JObj [("success", JBool true);
                ("summary", JStr "A summary.");
                ("objective", JStr "A summary.")])
  = schema (generateProfileSummaryLocally exampleProfile).
Proof.
  apply (proj1 (proj2 (proj2 (proj2 (proj2 result_schemas_by_provenance))))
           exampleProfile (freshState true (answering " A summary. "))
           (snd (generateProfileSummary exampleProfile
                   (freshState true (answering " A summary. "))))).
  - vm_compute. reflexivity.
  - vm_compute. reflexivity.
Defined.

(** C3, counterexample.  The text that is one double quote is repaired to
    two double quotes, and repairing that again inserts a comma between
    them. *)
Lemma repair_not_idempotent :
  scrubJsonText (str [dq]) = str [dq; dq] /\
  scrubJsonText (scrubJsonText (str [dq])) = str [dq; comma; dq].
Proof. vm_compute. split; reflexivity. Qed.

(** C3: idempotence at a text with unbalanced delimiters. *)
Lemma repair_idempotent_witness :
  scrubJsonText (scrubJsonText " } { [ ") = scrubJsonText " } { [ ".
Proof.
  apply (repair_idempotent_on_plain_text " } { [ "). vm_compute. reflexivity.
Defined.

(** C4, counterexample.  After two failed attempts the breaker is CLOSED
    with failure count 2; a successful attempt leaves the count at 2. *)
Lemma closed_success_keeps_count :
  circuitState (svc afterTwoFailures) = CLOSED /\
  failureCount (svc afterTwoFailures) = 2 /\
  fst (remoteAttempt afterTwoFailures) = inr "ok" /\
  circuitState (svc (snd (remoteAttempt afterTwoFailures))) = CLOSED /\
  failureCount (svc (snd (remoteAttempt afterTwoFailures))) = 2.
Proof. vm_compute. repeat split. Qed.

(** C4: the successful attempt after two failures. *)
Lemma success_resets_witness :
  exists s'',
    withCircuitBreaker (generateContent None) afterTwoFailures = (inr "ok", s'') /\
    circuitState (svc s'') = CLOSED /\
    failureCount (svc s'') =
      match circuitState (svc afterTwoFailures) with
      | HALF_OPEN => 0
      | _ => failureCount (svc afterTwoFailures)
      end.
Proof.
  apply (success_resets_only_half_open (generateContent None) afterTwoFailures
           (snd (generateContent None afterTwoFailures)) "ok").
  - apply generateContent_leavesBreaker.
  - vm_compute. discriminate.
  - vm_compute. reflexivity.
Defined.

(** C5: three overloaded calls one second apart, then a fourth attempt. *)
Lemma open_breaker_witness :
  let s0 := freshState true overloaded in
  let s1 := snd (withCircuitBreaker (generateContent None) (at_time 1000000 s0)) in
  let s2 := snd (withCircuitBreaker (generateContent None) (at_time 1001000 s1)) in
  let s3 := snd (withCircuitBreaker (generateContent None) (at_time 1002000 s2)) in
  circuitState (svc s3) = OPEN /\
  nextTry (svc s3) = clock (world s3) + resetTimeout (svc s0) /\
  withCircuitBreaker (generateContent None) (at_time 1003000 s3)
    = (inl unavailable, at_time 1003000 s3).
Proof.
  apply (proj2 (open_breaker_never_calls
                  (generateContent None) (generateContent None)
                  (generateContent None) (generateContent None)
                  1000000 1001000 1002000 1003000 (freshState true overloaded)));
    first [ reflexivity
          | apply generateContent_leavesBreaker
          | eexists; reflexivity
          | vm_compute; intro; discriminate ].
Defined.

(** C6 (the code departs from the claim).  From a fresh service, ATS
    scoring and profile-summary generation each call the remote model once
    and leave the daily call counter at 0: no slot is reserved.
    Resume-content generation, which calls [withRateLimit] first, leaves
    it at 1. *)
Lemma ats_calls_remote_without_reservation :
  let start := freshState true (answering "{}") in
  let ats := computeATSScore emptyResume noOptions start in
  let profile :=
    generateProfileSummary exampleProfile start in
  let resume := generateResumeContent emptyResume start in
  (exists v, fst ats = inr v /\ field "computationMethod" v = JStr "ai") /\
  remoteCalls (world (snd ats)) = 1%nat /\
  dailyCallCount (svc (snd ats)) = 0 /\
  remoteCalls (world (snd profile)) = 1%nat /\
  dailyCallCount (svc (snd profile)) = 0 /\
  remoteCalls (world (snd resume)) = 1%nat /\
  dailyCallCount (svc (snd resume)) = 1.
Proof.
  split; [eexists; split; vm_compute; reflexivity|].
  vm_compute. repeat split.
Qed.

(** C7: fifteen checked reservations on one day, and the day after. *)
Lemma daily_ceiling_witness :
  let s15 := governorRun fifteenReservations (freshState true overloaded) in
  isDailyLimitReached (at_time 1020000 s15)
    = (inr true, at_time 1020000 s15) /\
  exists s0 s1,
    isDailyLimitReached (at_time (1020000 + msPerDay) s15)
      = (inr false, s0) /\
    dailyCallCount (svc s0) = 0 /\
    lastResetDate (svc s0) = toDateString (1020000 + msPerDay) /\
    withRateLimit s0 = (inr tt, s1) /\
    dailyCallCount (svc s1) = 1.
Proof.
  apply (daily_ceiling_and_reset fifteenReservations
           1020000 (1020000 + msPerDay) (freshState true overloaded)).
  - reflexivity.
  - simpl. lia.
  - vm_compute. reflexivity.
  - repeat (constructor; [vm_compute; reflexivity|]). constructor.
  - vm_compute. reflexivity.
  - vm_compute. discriminate.
Defined.



End Examples.

(** C10: the first call is rejected as overloaded and the second answers;
    the result is the normal form of the second answer. *)
Lemma ats_normalized_witness :
  exists result s',
    @computeATSScoreWithAI atsRuntime emptyResume noOptions
      (freshState true answersSecond) = (inr result, s') /\
    normalizedFrom atsParsed result.
Proof.
  apply (proj2 (proj2 (@ats_ai_result_normalized atsRuntime emptyResume noOptions
                         (freshState true answersSecond)))).
  - exact I.
  - exists 100, (" " ++ atsAnswer ++ " ").
    split; [reflexivity|]. split; [lia|].
    split; [vm_compute; reflexivity|]. split; discriminate.
Defined.

(** C10: in that result the score 87.6 has become 88 and the missing
    keywords, which were not an array, the empty array. *)
Lemma ats_normalized_example :
  fst (@computeATSScoreWithAI atsRuntime emptyResume noOptions
         (freshState true answersSecond))
  = inr (JObj [("score", JNum (inject_Z 88));
               ("summary", JStr "Solid profile");
               ("keywordsMatched", JStrs ["react"; "css"]);
               ("keywordsMissing", JArr []);
               ("suggestions", JStrs ["Add metrics"]);
               ("computationMethod", JStr "ai")]).
Proof. vm_compute. reflexivity. Qed.



(** * Further properties of the service *)

(** ** Circuit breaker: probing and transparency *)

(** The state in which the breaker runs the wrapped call: an OPEN breaker
    whose cool-down has elapsed is HALF-OPEN. *)
Lemma breaker_entry {A} (fn : M A) (s : St) :
  circuitState (svc s) = OPEN ->
  nextTry (svc s) < clock (world s) ->
  withCircuitBreaker fn s =
  withCircuitBreaker fn
    (mkSt (set_circuit (svc s) HALF_OPEN (failureCount (svc s)) (nextTry (svc s)))
          (world s)).
Proof.
  intros C T. unfold withCircuitBreaker. run. rewrite C. simpl.
  apply Z.ltb_lt in T. rewrite T. reflexivity.
Qed.

Lemma half_open_success {A} (fn : M A) (s s' : St) (x : A) :
  leavesBreaker fn ->
  circuitState (svc s) = HALF_OPEN ->
  fn s = (inr x, s') ->
  exists s'', withCircuitBreaker fn s = (inr x, s'') /\
    world s'' = world s' /\
    circuitState (svc s'') = CLOSED /\ failureCount (svc s'') = 0.
Proof.
  intros L C E.
  pose proof (leavesBreaker_state fn s _ s' L E) as B.
  unfold breakerOf in B. injection B as B1 B2 B3 B4 B5.
  unfold withCircuitBreaker. run. rewrite C. simpl. rewrite E. simpl.
  rewrite B1, C. simpl. eexists. repeat split.
Qed.

Lemma half_open_failure {A} (fn : M A) (s s' : St) (e : JsError) :
  leavesBreaker fn ->
  circuitState (svc s) = HALF_OPEN ->
  failureThreshold (svc s) <= failureCount (svc s) + 1 ->
  fn s = (inl e, s') ->
  exists s'', withCircuitBreaker fn s = (inl e, s'') /\
    world s'' = world s' /\
    circuitState (svc s'') = OPEN /\
    failureCount (svc s'') = failureCount (svc s) + 1 /\
    nextTry (svc s'') = clock (world s') + resetTimeout (svc s).
Proof.
  intros L C T E.
  pose proof (leavesBreaker_state fn s _ s' L E) as B.
  unfold breakerOf in B. injection B as B1 B2 B3 B4 B5.
  unfold withCircuitBreaker. run. rewrite C. simpl. rewrite E. simpl.
  unfold recordFailure. run. rewrite B4, B2.
  apply Z.leb_le in T. rewrite T. simpl.
  match goal with |- context [if ?b then _ else _] => destruct b end;
    eexists; (split; [reflexivity|]); simpl; rewrite ?B5; repeat split; auto.
Qed.

(** X1.  Recovery protocol of the breaker.  When the breaker is OPEN and
    the cool-down has elapsed ([Date.now() > nextTry]), the next attempt is
    let through as a probe.  If the probe succeeds its result is returned
    and the breaker is CLOSED with a failure count of 0; if it fails its
    error is rethrown and, the count having reached the threshold, the
    breaker is OPEN again with a new cool-down that starts when the probe
    failed. *)
Theorem half_open_probe {A} (fn : M A) (s : St) :
  leavesBreaker fn ->
  circuitState (svc s) = OPEN ->
  nextTry (svc s) < clock (world s) ->
  failureThreshold (svc s) <= failureCount (svc s) + 1 ->
  let probe := mkSt (set_circuit (svc s) HALF_OPEN (failureCount (svc s))
                                 (nextTry (svc s))) (world s) in
  exists s'', withCircuitBreaker fn s = (fst (fn probe), s'') /\
    world s'' = world (snd (fn probe)) /\
    match fst (fn probe) with
    | inr _ =>
        circuitState (svc s'') = CLOSED /\ failureCount (svc s'') = 0
    | inl _ =>
        circuitState (svc s'') = OPEN /\
        failureCount (svc s'') = failureCount (svc s) + 1 /\
        nextTry (svc s'') = clock (world s'') + resetTimeout (svc s)
    end.
Proof.
  intros L C T Th probe.
  rewrite (breaker_entry fn s C T). fold probe.
  destruct (fn probe) as [[e|x] s1] eqn:E; simpl.
  - destruct (half_open_failure fn probe s1 e L eq_refl Th E)
      as (s2 & W & Wd & C2 & F2 & N2).
    exists s2. rewrite Wd. auto.
  - destruct (half_open_success fn probe s1 x L eq_refl E)
      as (s2 & W & Wd & C2 & F2).
    exists s2. auto.
Qed.

(** X2.  The breaker is transparent.  Unless it fails fast (OPEN within the
    cool-down), [withCircuitBreaker fn] returns exactly what [fn] returns
    and throws exactly what [fn] throws, and the only trace it leaves
    outside the breaker fields is the one of [fn]: the outside world and
    the cache are as [fn] left them. *)
Theorem breaker_is_transparent {A} (fn : M A) (s : St) :
  let entry :=
    if CircuitState_eqb (circuitState (svc s)) OPEN
    then mkSt (set_circuit (svc s) HALF_OPEN (failureCount (svc s))
                           (nextTry (svc s))) (world s)
    else s in
  if CircuitState_eqb (circuitState (svc s)) OPEN
     && (clock (world s) <=? nextTry (svc s))
  then withCircuitBreaker fn s = (inl unavailable, s)
  else
    fst (withCircuitBreaker fn s) = fst (fn entry) /\
    world (snd (withCircuitBreaker fn s)) = world (snd (fn entry)) /\
    cache (svc (snd (withCircuitBreaker fn s))) = cache (svc (snd (fn entry))).
Proof.
  intros entry. subst entry.
  destruct (circuitState (svc s)) eqn:C; simpl.
  1, 3: assert (N : circuitState (svc s) <> OPEN) by congruence;
    destruct (fn s) as [r s2] eqn:E;
    destruct (wcb_run fn s s2 r N E) as (s3 & W & Wd & K);
    rewrite W; simpl; auto.
  destruct (clock (world s) <=? nextTry (svc s)) eqn:T.
  - apply breaker_fails_fast; [exact C | apply Z.leb_le; exact T].
  - apply Z.leb_gt in T. rewrite (breaker_entry fn s C T).
    match goal with |- context [fn ?st] => set (entry := st) end.
    destruct (fn entry) as [r s2] eqn:E.
    destruct (wcb_run fn entry s2 r) as (s3 & W & Wd & K);
      [simpl; discriminate | exact E |].
    rewrite W. simpl. auto.
Qed.

(** ** Governor: spacing of the reserved calls *)

Section Spacing.
Context `{Runtime}.

Lemma withRateLimit_stamp (s : St) :
  exists s', withRateLimit s = (inr tt, s') /\
    lastApiCall (svc s') =
      Z.max (clock (world s)) (lastApiCall (svc s) + minCallInterval (svc s)) /\
    clock (world s') = lastApiCall (svc s') /\
    dailyCallCount (svc s') = dailyCallCount (svc s) + 1 /\
    minCallInterval (svc s') = minCallInterval (svc s) /\
    remoteCalls (world s') = remoteCalls (world s).
Proof.
  unfold withRateLimit. run.
  destruct (clock (world s) - lastApiCall (svc s) <? minCallInterval (svc s)) eqn:E;
    simpl; eexists; (split; [reflexivity|]); simpl;
    [apply Z.ltb_lt in E | apply Z.ltb_ge in E]; repeat split; lia.
Qed.

Lemma withRateLimit_segments (s : St) :
  withRateLimit s =
  (let* wait := reservationBegin in
   let* _ := (if 0 <? wait then sleep wait else ret tt) in
   reservationStamp) s.
Proof.
  unfold withRateLimit, reservationBegin, reservationStamp. run.
  destruct (clock (world s) - lastApiCall (svc s) <? minCallInterval (svc s)) eqn:E.
  - apply Z.ltb_lt in E.
    destruct (0 <? minCallInterval (svc s) - (clock (world s) - lastApiCall (svc s)))
      eqn:P; [reflexivity|]. apply Z.ltb_ge in P. lia.
  - reflexivity.
Qed.

Lemma overlapping_stamps (delay : Z) (s : St) :
  0 <= delay ->
  clock (world s) + delay < lastApiCall (svc s) + minCallInterval (svc s) ->
  exists s',
    overlappingReservations delay s
    = (inr (lastApiCall (svc s) + minCallInterval (svc s),
            lastApiCall (svc s) + minCallInterval (svc s)), s') /\
    clock (world s') = lastApiCall (svc s) + minCallInterval (svc s) /\
    dailyCallCount (svc s') = dailyCallCount (svc s) + 2.
Proof.
  intros D W. unfold overlappingReservations, reservationBegin, reservationStamp, sleep.
  run.
  destruct (clock (world s) - lastApiCall (svc s) <? minCallInterval (svc s)) eqn:E1;
    [|apply Z.ltb_ge in E1; lia].
  destruct (clock (world s) + delay - lastApiCall (svc s) <? minCallInterval (svc s))
    eqn:E2; [|apply Z.ltb_ge in E2; lia].
  eexists. split; [|split].
  - f_equal. f_equal. f_equal; lia.
  - simpl. lia.
  - simpl. lia.
Qed.

(** X3.  A reservation that no other request overlaps never fails, counts
    one call, and is stamped with the time at which it is granted: the
    current time when at least [minCallInterval] has passed since the last
    reservation, and otherwise the end of the wait, [lastApiCall +
    minCallInterval]; no remote call is made while waiting.  The wait is an
    [await] between the reading of [lastApiCall] and the stamp, so the
    spacing holds for reservations made one after the other only: when a
    second request arrives while the first is waiting, both read the same
    [lastApiCall], both timers fire at [lastApiCall + minCallInterval], and
    the two reservations get the same stamp (and are both counted). *)
Theorem reservations_are_spaced (s : St) :
  (exists s', withRateLimit s = (inr tt, s') /\
     lastApiCall (svc s') =
       Z.max (clock (world s)) (lastApiCall (svc s) + minCallInterval (svc s)) /\
     clock (world s') = lastApiCall (svc s') /\
     lastApiCall (svc s) + minCallInterval (svc s) <= lastApiCall (svc s') /\
     dailyCallCount (svc s') = dailyCallCount (svc s) + 1 /\
     minCallInterval (svc s') = minCallInterval (svc s) /\
     remoteCalls (world s') = remoteCalls (world s)) /\
  withRateLimit s =
    (let* wait := reservationBegin in
     let* _ := (if 0 <? wait then sleep wait else ret tt) in
     reservationStamp) s /\
  (forall delay,
     0 <= delay ->
     clock (world s) + delay < lastApiCall (svc s) + minCallInterval (svc s) ->
     exists s',
       overlappingReservations delay s
       = (inr (lastApiCall (svc s) + minCallInterval (svc s),
               lastApiCall (svc s) + minCallInterval (svc s)), s') /\
       dailyCallCount (svc s') = dailyCallCount (svc s) + 2).
Proof.
  split; [|split].
  - destruct (withRateLimit_stamp s) as (s' & E & L & C & D & M & R).
    exists s'. repeat split; auto. lia.
  - apply withRateLimit_segments.
  - intros delay D W.
    destruct (overlapping_stamps delay s D W) as (s' & E & _ & C).
    exists s'. split; assumption.
Qed.

End Spacing.

(** ** The cache of generated resumes *)

Section Cache.
Context `{Runtime}.

Lemma generateResumeContent_stores (data : ResumeData) (s : St) :
  exists r s', generateResumeContent data s = (r, s') /\
    match r with
    | inr v => cache (svc s') = <[getCacheKey data := v]> (cache (svc s))
    | inl _ => cache (svc s') = cache (svc s)
    end /\
    (forall cached, cache (svc s) !! getCacheKey data = Some cached ->
       r = inr cached /\ s' = s) /\
    (forall e, r = inl e -> enhanceContentLocally data = inl e) /\
    (cache (svc s) !! getCacheKey data = None ->
     unavailableAt s \/ remoteFails (remote (world s)) ->
     r = enhanceContentLocally data).
Proof.
  unfold generateResumeContent, unavailableAt.
  unfold bind at 1, this at 1.
  destruct (cache (svc s) !! getCacheKey data) as [cached|] eqn:L.
  - exists (inr cached), s. split; [reflexivity|]. split; [|split; [|split]].
    + symmetry. apply insert_id. exact L.
    + intros c E. injection E as <-. auto.
    + discriminate.
    + discriminate.
  - destruct (isAvailable_spec s) as (b & s1 & E & W & K & B & O).
    unfold bind at 1, try_catch at 1, bind at 1. rewrite E.
    unfold bind at 1, this at 1.
    assert (Local : forall s2 : St, cache (svc s2) = cache (svc s) ->
      exists s',
        (let* localResult := liftE (enhanceContentLocally data) in
         let* _ := cachePut (getCacheKey data) localResult in
         ret localResult) s2 = (enhanceContentLocally data, s') /\
        match enhanceContentLocally data with
        | inr v => cache (svc s') = <[getCacheKey data := v]> (cache (svc s))
        | inl _ => cache (svc s') = cache (svc s)
        end).
    { intros s2 K2. rewrite resume_local_path. eexists.
      split; [reflexivity|].
      destruct (enhanceContentLocally data) as [e|v]; simpl; congruence. }
    destruct b.
    + specialize (O eq_refl).
      assert (Ceq : CircuitState_eqb (circuitState (svc s1)) OPEN = false)
        by (destruct (circuitState (svc s1)); simpl; congruence).
      rewrite Ceq. change (true && negb false) with true. cbv iota.
      destruct (resume_ai_path data s1 O) as (r & s3 & W3 & K3 & V & Fl).
      unfold bind at 1. rewrite W3.
      destruct r as [e|result].
      * unfold ret at 1.
        destruct (Local s3 ltac:(congruence)) as (s' & L' & C').
        rewrite L'. exists (enhanceContentLocally data), s'. split; [reflexivity|].
        split; [exact C'|]. split; [discriminate|].
        split; [intros e' X; exact X | reflexivity].
      * unfold bind, cachePut, update, ret. simpl.
        eexists. eexists. split; [reflexivity|]. simpl.
        split; [congruence|]. split; [discriminate|]. split; [discriminate|].
        intros _ [U|Fl']; [discriminate|].
        rewrite <- W in Fl'. destruct (Fl Fl') as (e & ?). discriminate.
    + change (false && _) with false. cbv iota.
      unfold ret at 1.
      destruct (Local s1 K) as (s' & L' & C').
      rewrite L'. exists (enhanceContentLocally data), s'. split; [reflexivity|].
      split; [exact C'|]. split; [discriminate|].
      split; [intros e' X; exact X | reflexivity].
Qed.

(** X4.  The result that resume-content generation returns, from the
    remote model or from the local engine, is stored in the cache under the
    key of the request (the other entries are untouched).  From then on
    every request with the same key, that is, with the same role, fresher
    flag, numbers of skills, experiences and projects, and first education
    field, gets that stored result back verbatim, whatever else the request
    contains and whatever the clock, the breaker and the quota are by then:
    the state is left as it is, so no remote call is made and no slot is
    reserved.  When the operation throws instead (the error of the local
    engine), the cache is left as it was. *)
Theorem cached_resume_is_replayed (data : ResumeData) (s s1 : St)
  (r : JsError + JsVal) :
  generateResumeContent data s = (r, s1) ->
  match r with
  | inr v =>
      cache (svc s1) = <[getCacheKey data := v]> (cache (svc s)) /\
      forall (data' : ResumeData) (s2 : St),
        getCacheKey data' = getCacheKey data ->
        cache (svc s2) = cache (svc s1) ->
        generateResumeContent data' s2 = (inr v, s2)
  | inl _ => cache (svc s1) = cache (svc s)
  end.
Proof.
  intros R.
  destruct (generateResumeContent_stores data s) as (r' & s1' & E & K & _).
  rewrite E in R. injection R as -> ->.
  destruct r as [e|v]; [exact K|].
  split; [exact K|].
  intros data' s2 Key C.
  assert (L : cache (svc s2) !! getCacheKey data' = Some v).
  { rewrite C, K, Key. apply lookup_insert_eq. }
  destruct (generateResumeContent_stores data' s2) as (r' & s2' & E' & _ & Hit & _).
  destruct (Hit v L) as [-> ->]. exact E'.
Qed.

End Cache.

(** ** Budgets: remote calls and time *)

Lemma calls_weaken {A} (n n' : nat) (m : M A) :
  (n <= n')%nat -> callsAtMost n m -> callsAtMost n' m.
Proof. intros L C s r s' E. apply C in E. lia. Qed.

Lemma calls_ret {A} (x : A) : callsAtMost 0 (ret x).
Proof. intros s r s' E. injection E as _ <-. lia. Qed.

Lemma calls_throw {A} (e : JsError) : callsAtMost 0 (@throw A e).
Proof. intros s r s' E. injection E as _ <-. lia. Qed.

Lemma calls_liftE {A} (r : JsError + A) : callsAtMost 0 (liftE r).
Proof. destruct r; [apply calls_throw | apply calls_ret]. Qed.

Lemma calls_bind {A B} (a b : nat) (m : M A) (k : A -> M B) :
  callsAtMost a m -> (forall x, callsAtMost b (k x)) ->
  callsAtMost (a + b) (bind m k).
Proof.
  intros Hm Hk s r s'. unfold bind.
  destruct (m s) as [[e|x] s1] eqn:E; apply Hm in E.
  - intros R. injection R as _ <-. lia.
  - intros R. apply Hk in R. lia.
Qed.

Lemma calls_try {A} (a b : nat) (m : M A) (h : JsError -> M A) :
  callsAtMost a m -> (forall e, callsAtMost b (h e)) ->
  callsAtMost (a + b) (try_catch m h).
Proof.
  intros Hm Hh s r s'. unfold try_catch.
  destruct (m s) as [[e|x] s1] eqn:E; apply Hm in E.
  - intros R. apply Hh in R. lia.
  - intros R. injection R as _ <-. lia.
Qed.

(** An operation that makes no remote call: the count is unchanged. *)
Lemma calls_none {A} (m : M A) :
  (forall s r s', m s = (r, s') -> remoteCalls (world s') = remoteCalls (world s)) ->
  callsAtMost 0 m.
Proof. intros K s r s' E. apply K in E. lia. Qed.

Lemma calls_update (f : AIService -> AIService) : callsAtMost 0 (update f).
Proof. apply calls_none. intros s r s' E. injection E as _ <-. reflexivity. Qed.

Lemma calls_this : callsAtMost 0 this.
Proof. apply calls_none. intros s r s' E. injection E as _ <-. reflexivity. Qed.

Lemma calls_now : callsAtMost 0 Date_now.
Proof. apply calls_none. intros s r s' E. injection E as _ <-. reflexivity. Qed.

Lemma calls_sleep (ms : Z) : callsAtMost 0 (sleep ms).
Proof. apply calls_none. intros s r s' E. injection E as _ <-. reflexivity. Qed.

Lemma calls_random : callsAtMost 0 Math_random.
Proof. apply calls_none. intros s r s' E. injection E as _ <-. reflexivity. Qed.

Lemma calls_generateContent (timeout : option (Z * string)) :
  callsAtMost 1 (generateContent timeout).
Proof.
  intros s r s'. unfold generateContent.
  destruct (remote (world s) (remoteCalls (world s))), timeout as [[limit msg]|];
    try destruct (limit <=? latency); intros E; injection E as _ <-; simpl; lia.
Qed.

Lemma calls_recordFailure : callsAtMost 0 recordFailure.
Proof.
  apply calls_none. intros s r s'. unfold recordFailure. run.
  destruct (_ <=? _); simpl; intros E; injection E as _ <-; reflexivity.
Qed.

Lemma calls_withRateLimit : callsAtMost 0 withRateLimit.
Proof.
  apply calls_none. intros s r s'. unfold withRateLimit. run.
  destruct (_ <? _); simpl; intros E; injection E as _ <-; reflexivity.
Qed.

(** What an attempt through the breaker amounts to: either it fails fast,
    or it is the wrapped call, run from a state with the same outside
    world, and the breaker leaves the world as the call left it. *)
Lemma wcb_cases {A} (fn : M A) (s s' : St) (r : JsError + A) :
  withCircuitBreaker fn s = (r, s') ->
  (r = inl unavailable /\ s' = s) \/
  (exists s0 s1, fn s0 = (r, s1) /\ world s0 = world s /\ world s' = world s1).
Proof.
  intros E.
  destruct (circuitState (svc s)) eqn:C.
  1, 3: right; destruct (fn s) as [r0 s2] eqn:F;
    destruct (wcb_run fn s s2 r0) as (s3 & W & Wd & _); [congruence | exact F |];
    rewrite W in E; injection E as <- <-; exists s, s2; auto.
  destruct (Z.le_gt_cases (clock (world s)) (nextTry (svc s))) as [T|T].
  - left. rewrite (breaker_fails_fast fn s C T) in E. injection E as <- <-. auto.
  - right. rewrite (breaker_entry fn s C T) in E.
    match type of E with withCircuitBreaker fn ?st = _ => set (entry := st) in * end.
    destruct (fn entry) as [r0 s2] eqn:F.
    destruct (wcb_run fn entry s2 r0) as (s3 & W & Wd & _);
      [simpl; discriminate | exact F |].
    rewrite W in E. injection E as <- <-. exists entry, s2. auto.
Qed.

Lemma calls_withCircuitBreaker {A} (n : nat) (fn : M A) :
  callsAtMost n fn -> callsAtMost n (withCircuitBreaker fn).
Proof.
  intros F s r s' E.
  destruct (wcb_cases fn s s' r E) as [[_ ->]|(s0 & s1 & E0 & W0 & W1)]; [lia|].
  apply F in E0. rewrite W0 in E0. rewrite W1. exact E0.
Qed.

Lemma calls_retryLoop (a : nat) (attempt : M JsVal) (n : nat) :
  callsAtMost a attempt -> callsAtMost (n * a) (retryLoop attempt n).
Proof.
  intros At. induction n as [|n IH]; [apply calls_ret|].
  rewrite retryLoop_S. change (S n * a)%nat with (a + n * a)%nat.
  apply calls_try; [exact At|]. intros e.
  destruct (Nat.eqb n 0).
  - eapply calls_weaken; [|apply calls_throw]. lia.
  - change (n * a)%nat with (0 + n * a)%nat.
    apply calls_bind; [apply calls_sleep | intros _; exact IH].
Qed.

Lemma calls_enhanceAttempts (n : nat) :
  forall retryDelay, callsAtMost n (enhanceAttempts n retryDelay).
Proof.
  induction n as [|n IH]; intros retryDelay; [apply calls_throw|].
  cbn [enhanceAttempts]. change (S n) with (1 + n)%nat.
  apply calls_try; [apply calls_generateContent|]. intros e.
  destruct (_ && _).
  - change n with (0 + n)%nat.
    apply calls_bind; [apply calls_sleep | intros _; apply IH].
  - eapply calls_weaken; [|apply calls_throw]. lia.
Qed.

Lemma takes_weaken {A} (d d' : Z) (m : M A) :
  d <= d' -> takesAtMost d m -> takesAtMost d' m.
Proof. intros L C s r s' E. apply C in E. lia. Qed.

Lemma takes_ret {A} (x : A) : takesAtMost 0 (ret x).
Proof. intros s r s' E. injection E as _ <-. lia. Qed.

Lemma takes_throw {A} (e : JsError) : takesAtMost 0 (@throw A e).
Proof. intros s r s' E. injection E as _ <-. lia. Qed.

Lemma takes_liftE {A} (r : JsError + A) : takesAtMost 0 (liftE r).
Proof. destruct r; [apply takes_throw | apply takes_ret]. Qed.

Lemma takes_bind {A B} (a b : Z) (m : M A) (k : A -> M B) :
  0 <= b -> takesAtMost a m -> (forall x, takesAtMost b (k x)) ->
  takesAtMost (a + b) (bind m k).
Proof.
  intros Pb Hm Hk s r s'. unfold bind. intros R.
  destruct (m s) as [[e|x] s1] eqn:E; apply Hm in E.
  - injection R as _ <-. lia.
  - apply Hk in R. lia.
Qed.

Lemma takes_try {A} (a b : Z) (m : M A) (h : JsError -> M A) :
  0 <= b -> takesAtMost a m -> (forall e, takesAtMost b (h e)) ->
  takesAtMost (a + b) (try_catch m h).
Proof.
  intros Pb Hm Hh s r s'. unfold try_catch. intros R.
  destruct (m s) as [[e|x] s1] eqn:E; apply Hm in E.
  - apply Hh in R. lia.
  - injection R as _ <-. lia.
Qed.

(** An operation during which no time passes. *)
Lemma takes_none {A} (m : M A) :
  (forall s r s', m s = (r, s') -> clock (world s') = clock (world s)) ->
  takesAtMost 0 m.
Proof. intros K s r s' E. apply K in E. lia. Qed.

Lemma takes_this : takesAtMost 0 this.
Proof. apply takes_none. intros s r s' E. injection E as _ <-. reflexivity. Qed.

Lemma takes_now : takesAtMost 0 Date_now.
Proof. apply takes_none. intros s r s' E. injection E as _ <-. reflexivity. Qed.

Lemma takes_random : takesAtMost 0 Math_random.
Proof. apply takes_none. intros s r s' E. injection E as _ <-. reflexivity. Qed.

Lemma takes_sleep (ms : Z) : takesAtMost ms (sleep ms).
Proof. intros s r s' E. injection E as _ <-. simpl. lia. Qed.

(** A call raced against a timer settles when the timer fires, at the
    latest. *)
Lemma takes_generateContent (limit : Z) (msg : string) :
  takesAtMost limit (generateContent (Some (limit, msg))).
Proof.
  intros s r s'. unfold generateContent.
  destruct (remote (world s) (remoteCalls (world s))) as [d text|d err];
    destruct (limit <=? d) eqn:L; intros E; injection E as _ <-; simpl;
    try (apply Z.leb_gt in L); lia.
Qed.

Lemma takes_withCircuitBreaker {A} (d : Z) (fn : M A) :
  0 <= d -> takesAtMost d fn -> takesAtMost d (withCircuitBreaker fn).
Proof.
  intros P F s r s' E.
  destruct (wcb_cases fn s s' r E) as [[_ ->]|(s0 & s1 & E0 & W0 & W1)]; [lia|].
  apply F in E0. rewrite W0 in E0. rewrite W1. exact E0.
Qed.

(** [n + 1] passes of a retry loop with one second between two passes. *)
Lemma takes_retryLoop (a : Z) (attempt : M JsVal) (n : nat) :
  0 <= a -> takesAtMost a attempt ->
  takesAtMost (Z.of_nat (S n) * a + Z.of_nat n * 1000) (retryLoop attempt (S n)).
Proof.
  intros Pa At. induction n as [|n IH].
  - rewrite retryLoop_S. simpl Nat.eqb. cbv iota.
    eapply takes_weaken; [|apply (takes_try a 0); [lia | exact At |]].
    + lia.
    + intros e. apply takes_throw.
  - rewrite retryLoop_S. simpl Nat.eqb. cbv iota.
    eapply takes_weaken;
      [|apply (takes_try a (1000 + (Z.of_nat (S n) * a + Z.of_nat n * 1000)));
        [lia | exact At |]].
    + lia.
    + intros e. apply takes_bind; [lia | apply takes_sleep | intros _; exact IH].
Qed.

Section Budgets.
Context `{Runtime}.

Lemma isAvailable_governor (s : St) :
  exists b s', isAvailable s = (inr b, s') /\
    world s' = world s /\
    lastApiCall (svc s') = lastApiCall (svc s) /\
    minCallInterval (svc s') = minCallInterval (svc s) /\
    (b = true -> circuitState (svc s') <> OPEN).
Proof.
  unfold isAvailable, isDailyLimitReached, Date_today. run.
  destruct (genAI (svc s)); [|exists false, s; repeat split; auto; discriminate].
  destruct (circuitState (svc s)) eqn:C; simpl;
    try (exists false, s; repeat split; auto; discriminate).
  all: destruct (negb _); simpl; eexists; eexists; (split; [reflexivity|]);
    simpl; repeat split; auto; rewrite C; discriminate.
Qed.

Lemma calls_isAvailable : callsAtMost 0 isAvailable.
Proof.
  apply calls_none. intros s r s' E.
  destruct (isAvailable_spec s) as (b & s1 & E1 & W & _). congruence.
Qed.

Lemma takes_isAvailable : takesAtMost 0 isAvailable.
Proof.
  apply takes_none. intros s r s' E.
  destruct (isAvailable_spec s) as (b & s1 & E1 & W & _). congruence.
Qed.

Lemma calls_resumeAttempt (effectiveRole : string) :
  callsAtMost 1 (resumeAttempt effectiveRole).
Proof.
  unfold resumeAttempt, parseOrThrow.
  apply (calls_bind 1 0); [apply calls_generateContent|]. intros text.
  apply (calls_bind 0 0); [|intros g; apply calls_ret].
  destruct (JSON_parse _); [apply calls_ret | apply calls_throw].
Qed.

Lemma takes_resumeAttempt (effectiveRole : string) :
  takesAtMost 25000 (resumeAttempt effectiveRole).
Proof.
  unfold resumeAttempt, parseOrThrow.
  apply (takes_bind 25000 0); [lia | apply takes_generateContent|]. intros text.
  apply (takes_bind 0 0); [lia | | intros g; apply takes_ret].
  destruct (JSON_parse _); [apply takes_ret | apply takes_throw].
Qed.

Lemma calls_atsAttempt : callsAtMost 1 atsAttempt.
Proof.
  unfold atsAttempt, parseOrThrow, liftE.
  apply (calls_bind 1 0); [apply calls_generateContent|]. intros text.
  apply (calls_bind 0 0).
  - destruct (JSON_parse _); [apply calls_ret | apply calls_throw].
  - intros g. destruct (normalizeATS g); [apply calls_throw | apply calls_ret].
Qed.

Lemma takes_atsAttempt : takesAtMost 15000 atsAttempt.
Proof.
  unfold atsAttempt, parseOrThrow, liftE.
  apply (takes_bind 15000 0); [lia | apply takes_generateContent|]. intros text.
  apply (takes_bind 0 0); [lia | |].
  - destruct (JSON_parse _); [apply takes_ret | apply takes_throw].
  - intros g. destruct (normalizeATS g); [apply takes_throw | apply takes_ret].
Qed.

Lemma calls_generateResumeContentWithAI (data : ResumeData) :
  callsAtMost 2 (generateResumeContentWithAI data).
Proof.
  unfold generateResumeContentWithAI.
  apply (calls_bind 0 2).
  - destruct (personalInfo data); [apply calls_ret | apply calls_throw].
  - intros _. apply (calls_retryLoop 1 _ 2), calls_resumeAttempt.
Qed.

Lemma takes_generateResumeContentWithAI (data : ResumeData) :
  takesAtMost 51000 (generateResumeContentWithAI data).
Proof.
  unfold generateResumeContentWithAI.
  apply (takes_bind 0 51000); [lia | |].
  - destruct (personalInfo data); [apply takes_ret | apply takes_throw].
  - intros _. apply (takes_retryLoop 25000 _ 1); [lia|]. apply takes_resumeAttempt.
Qed.

Lemma calls_generateProfileSummary (data : ProfileRequest) :
  callsAtMost 1 (generateProfileSummary data).
Proof.
  unfold generateProfileSummary.
  apply (calls_bind 0 1); [apply calls_isAvailable|]. intros available.
  destruct (negb available); [eapply calls_weaken; [|apply calls_ret]; lia|].
  apply calls_withCircuitBreaker.
  apply (calls_try 1 0); [|intros e; apply calls_ret].
  apply (calls_bind 1 0); [apply calls_generateContent | intros text; apply calls_ret].
Qed.

Lemma takes_generateProfileSummary (data : ProfileRequest) :
  takesAtMost 15000 (generateProfileSummary data).
Proof.
  unfold generateProfileSummary.
  apply (takes_bind 0 15000); [lia | apply takes_isAvailable|]. intros available.
  destruct (negb available); [eapply takes_weaken; [|apply takes_ret]; lia|].
  apply takes_withCircuitBreaker; [lia|].
  apply (takes_try 15000 0); [lia | | intros e; apply takes_ret].
  apply (takes_bind 15000 0);
    [lia | apply takes_generateContent | intros text; apply takes_ret].
Qed.

Lemma calls_enhanceMultipleSections (sections : Sections) (context : SectionsContext) :
  callsAtMost 0 (enhanceMultipleSections sections context).
Proof.
  unfold enhanceMultipleSections.
  apply (calls_bind 0 0); [apply calls_isAvailable|]. intros available.
  destruct (negb available); [apply calls_liftE|].
  apply calls_withCircuitBreaker.
  apply (calls_bind 0 0); [apply calls_liftE | intros enhanced; apply calls_ret].
Qed.

Lemma calls_enhanceSection (section content : string) :
  callsAtMost 3 (enhanceSection section content).
Proof.
  unfold enhanceSection.
  apply (calls_bind 0 3); [apply calls_isAvailable|]. intros available.
  destruct (negb available); [eapply calls_weaken; [|apply calls_ret]; lia|].
  apply (calls_try 3 0); [|intros e; apply calls_ret].
  apply (calls_bind 3 0); [apply calls_enhanceAttempts | intros text; apply calls_ret].
Qed.

Lemma calls_computeATSScore (resumeData : ResumeData) (options : ATSOptions) :
  callsAtMost 2 (computeATSScore resumeData options).
Proof.
  unfold computeATSScore, computeATSScoreWithAI.
  apply (calls_bind 2 0).
  - apply (calls_try 2 0); [|intros e; apply calls_ret].
    apply (calls_bind 0 2); [apply calls_isAvailable|]. intros available.
    apply (calls_bind 0 2); [apply calls_this|]. intros a.
    destruct (_ && _); [|eapply calls_weaken; [|apply calls_ret]; lia].
    apply (calls_bind 2 0); [|intros result; apply calls_ret].
    apply calls_withCircuitBreaker, (calls_retryLoop 1 _ 2), calls_atsAttempt.
  - intros [result|]; [apply calls_ret|].
    apply (calls_bind 0 0); [apply calls_random|]. intros rnd.
    apply (calls_bind 0 0); [apply calls_now | intros now; apply calls_liftE].
Qed.

Lemma takes_computeATSScore (resumeData : ResumeData) (options : ATSOptions) :
  takesAtMost 31000 (computeATSScore resumeData options).
Proof.
  unfold computeATSScore, computeATSScoreWithAI.
  apply (takes_bind 31000 0); [lia | |].
  - apply (takes_try 31000 0); [lia | | intros e; apply takes_ret].
    apply (takes_bind 0 31000); [lia | apply takes_isAvailable|]. intros available.
    apply (takes_bind 0 31000); [lia | apply takes_this|]. intros a.
    destruct (_ && _); [|eapply takes_weaken; [|apply takes_ret]; lia].
    apply (takes_bind 31000 0); [lia | | intros result; apply takes_ret].
    apply takes_withCircuitBreaker; [lia|].
    apply (takes_retryLoop 15000 _ 1); [lia|]. apply takes_atsAttempt.
  - intros [result|]; [apply takes_ret|].
    apply (takes_bind 0 0); [lia | apply takes_random|]. intros rnd.
    apply (takes_bind 0 0); [lia | apply takes_now | intros now; apply takes_liftE].
Qed.

Lemma calls_cachePut (k : CacheKey) (v : JsVal) : callsAtMost 0 (cachePut k v).
Proof. apply calls_update. Qed.

Lemma calls_generateResumeContent (data : ResumeData) :
  callsAtMost 2 (generateResumeContent data).
Proof.
  unfold generateResumeContent.
  apply (calls_bind 0 2); [apply calls_this|]. intros a.
  destruct (cache a !! getCacheKey data);
    [eapply calls_weaken; [|apply calls_ret]; lia|].
  apply (calls_bind 2 0).
  - apply (calls_try 2 0); [|intros e; apply calls_ret].
    apply (calls_bind 0 2); [apply calls_isAvailable|]. intros available.
    apply (calls_bind 0 2); [apply calls_this|]. intros a'.
    destruct (_ && _); [|eapply calls_weaken; [|apply calls_ret]; lia].
    apply (calls_bind 2 0).
    + apply calls_withCircuitBreaker.
      apply (calls_bind 0 2); [apply calls_withRateLimit|]. intros _.
      apply calls_generateResumeContentWithAI.
    + intros result.
      apply (calls_bind 0 0); [apply calls_cachePut | intros _; apply calls_ret].
  - intros [result|]; [apply calls_ret|].
    apply (calls_bind 0 0); [apply calls_liftE|]. intros localResult.
    apply (calls_bind 0 0); [apply calls_cachePut | intros _; apply calls_ret].
Qed.

Lemma calls_reviewResume (resumeData : JsVal) (jobDescription : option string) :
  callsAtMost 1 (reviewResume resumeData jobDescription).
Proof.
  unfold reviewResume.
  apply (calls_try 1 0); [|intros e; apply calls_throw].
  apply (calls_bind 0 1); [apply calls_this|]. intros a.
  destruct (genAI a); [apply calls_generateContent|].
  eapply calls_weaken; [|apply calls_throw]. lia.
Qed.

(** X5.  Each operation of the service calls the remote model a bounded
    number of times, whatever the remote model does: profile-summary
    generation and resume review at most once, resume-content generation
    and ATS scoring at most twice, section enhancement at most three
    times, and multi-section enhancement never (its result is computed
    from the local templates even when the remote path is available). *)
Theorem remote_call_budget :
  (forall data, callsAtMost 1 (generateProfileSummary data)) /\
  (forall sections context, callsAtMost 0 (enhanceMultipleSections sections context)) /\
  (forall section content, callsAtMost 3 (enhanceSection section content)) /\
  (forall data, callsAtMost 2 (generateResumeContent data)) /\
  (forall resumeData options, callsAtMost 2 (computeATSScore resumeData options)) /\
  (forall resumeData jobDescription,
     callsAtMost 1 (reviewResume resumeData jobDescription)).
Proof.
  split; [|split; [|split; [|split; [|split]]]]; intros.
  - apply calls_generateProfileSummary.
  - apply calls_enhanceMultipleSections.
  - apply calls_enhanceSection.
  - apply calls_generateResumeContent.
  - apply calls_computeATSScore.
  - apply calls_reviewResume.
Qed.

End Budgets.

(** ** Latency *)

Section Latency.
Context `{Runtime}.

Lemma resume_ai_time (data : ResumeData) (s1 s3 : St) r :
  circuitState (svc s1) <> OPEN ->
  withCircuitBreaker (bind withRateLimit (fun _ => generateResumeContentWithAI data)) s1
    = (r, s3) ->
  clock (world s3) <= resumeDeadline s1.
Proof.
  intros O W. unfold resumeDeadline.
  set (fn := bind withRateLimit _) in W.
  destruct (withRateLimit_stamp s1) as (s1' & E1 & L1 & C1 & _).
  destruct (generateResumeContentWithAI data s1') as [r2 s2] eqn:G.
  assert (F : fn s1 = (r2, s2)) by (unfold fn, bind; rewrite E1; exact G).
  destruct (wcb_run fn s1 s2 r2 O F) as (s3' & W3 & Wd3 & _).
  rewrite W3 in W. injection W as _ <-. rewrite Wd3.
  apply takes_generateResumeContentWithAI in G. lia.
Qed.

Lemma generateResumeContent_time (data : ResumeData) (s s' : St) r :
  generateResumeContent data s = (r, s') ->
  clock (world s') <= resumeDeadline s.
Proof.
  unfold generateResumeContent.
  unfold bind at 1, this at 1.
  destruct (cache (svc s) !! getCacheKey data) as [cached|].
  { unfold ret, resumeDeadline. intros E. injection E as _ <-. lia. }
  destruct (isAvailable_governor s) as (b & s1 & E & W & L & M & O).
  assert (D : resumeDeadline s1 = resumeDeadline s)
    by (unfold resumeDeadline; rewrite W, L, M; reflexivity).
  assert (D0 : clock (world s1) <= resumeDeadline s)
    by (rewrite W; unfold resumeDeadline; lia).
  unfold bind at 1, try_catch at 1, bind at 1. rewrite E.
  unfold bind at 1, this at 1.
  destruct b.
  - specialize (O eq_refl).
    assert (Ceq : CircuitState_eqb (circuitState (svc s1)) OPEN = false)
      by (destruct (circuitState (svc s1)); simpl; congruence).
    rewrite Ceq. change (true && negb false) with true. cbv iota.
    unfold bind at 1.
    destruct (withCircuitBreaker _ s1) as [[e|result] s3] eqn:W3;
      apply (resume_ai_time data s1 s3 _ O) in W3.
    + unfold ret at 1. rewrite resume_local_path.
      destruct (enhanceContentLocally data);
        intros R; injection R as _ <-; simpl; lia.
    + unfold bind, cachePut, update, ret; simpl.
      intros R; injection R as _ <-; simpl; lia.
  - change (false && _) with false. cbv iota.
    unfold ret at 1. rewrite resume_local_path.
    destruct (enhanceContentLocally data);
      intros R; injection R as _ <-; simpl; lia.
Qed.

(** X6.  Latency bounds that hold whatever the remote model does (a call
    raced against a timer is abandoned when the timer fires).
    Profile-summary generation returns within 15 s; ATS scoring within
    31 s (two passes of at most 15 s and one second between them);
    multi-section enhancement takes no time; resume-content generation
    returns within 51 s of the moment its reservation is granted, which is
    now or, if the last reservation is more recent than [minCallInterval],
    the end of that interval. *)
Theorem latency_budget :
  (forall data, takesAtMost 15000 (generateProfileSummary data)) /\
  (forall resumeData options, takesAtMost 31000 (computeATSScore resumeData options)) /\
  (forall sections context, takesAtMost 0 (enhanceMultipleSections sections context)) /\
  (forall data s r s',
     generateResumeContent data s = (r, s') ->
     clock (world s') <=
       Z.max (clock (world s)) (lastApiCall (svc s) + minCallInterval (svc s))
       + 51000).
Proof.
  split; [|split; [|split]]; intros.
  - apply takes_generateProfileSummary.
  - apply takes_computeATSScore.
  - unfold enhanceMultipleSections.
    apply (takes_bind 0 0); [lia | apply takes_isAvailable|]. intros available.
    destruct (negb available); [apply takes_liftE|].
    apply takes_withCircuitBreaker; [lia|].
    apply (takes_bind 0 0);
      [lia | apply takes_liftE | intros enhanced; apply takes_ret].
  - eapply generateResumeContent_time. eassumption.
Qed.

End Latency.

(** ** What an operation costs the breaker and the governor *)

Lemma wcb_failure {A} (fn : M A) (s s1 : St) (e : JsError) :
  circuitState (svc s) <> OPEN ->
  fn s = (inl e, s1) ->
  withCircuitBreaker fn s = (inl e, snd (recordFailure s1)).
Proof.
  intros N E. unfold withCircuitBreaker. run.
  destruct (circuitState (svc s)) eqn:C; try congruence; simpl; rewrite E; simpl.
  all: destruct (recordFailure s1) as [[e'|[]] s2] eqn:R; simpl;
    [ exfalso; revert R; unfold recordFailure; run;
      destruct (_ <=? _); simpl; discriminate
    | destruct (_ || _); reflexivity ].
Qed.

Lemma wcb_success {A} (fn : M A) (s s1 : St) (x : A) :
  circuitState (svc s) <> OPEN ->
  fn s = (inr x, s1) ->
  withCircuitBreaker fn s =
  (inr x, if CircuitState_eqb (circuitState (svc s1)) HALF_OPEN
          then snd (resetCircuit s1) else s1).
Proof.
  intros N E. unfold withCircuitBreaker. run.
  destruct (circuitState (svc s)) eqn:C; try congruence; simpl; rewrite E; simpl.
  all: destruct (CircuitState_eqb (circuitState (svc s1)) HALF_OPEN); reflexivity.
Qed.

Lemma recordFailure_effect (s : St) :
  let s' := snd (recordFailure s) in
  world s' = world s /\ cache (svc s') = cache (svc s) /\
  governorOf (svc s') = governorOf (svc s) /\
  failureCount (svc s') = failureCount (svc s) + 1 /\
  failureThreshold (svc s') = failureThreshold (svc s) /\
  (failureCount (svc s) + 1 < failureThreshold (svc s) ->
   circuitState (svc s') = circuitState (svc s) /\ nextTry (svc s') = nextTry (svc s)).
Proof.
  unfold recordFailure. run.
  destruct (failureThreshold (svc s) <=? failureCount (svc s) + 1) eqn:T; simpl;
    repeat split; auto; apply Z.leb_le in T; lia.
Qed.

Section Costs.
Context `{Runtime}.

Lemma isAvailable_true (s : St) :
  fst (isAvailable s) = inr true ->
  exists s1, isAvailable s = (inr true, s1) /\
    world s1 = world s /\ cache (svc s1) = cache (svc s) /\
    breakerOf (svc s1) = breakerOf (svc s) /\
    circuitState (svc s1) <> OPEN.
Proof.
  destruct (isAvailable_spec s) as (b & s1 & E & W & K & B & O).
  rewrite E. simpl. intros X. injection X as ->.
  exists s1. repeat split; auto.
Qed.

(** X7.  A request for resume content that has no [personalInfo] section
    never reaches the remote model: building the prompt throws inside the
    breaker, after the reservation.  The caller gets what the local engine
    makes of the request, but the request has consumed one slot of the
    daily quota and is counted by the breaker as one failure of the remote
    service. *)
Theorem missing_personal_info_is_charged (data : ResumeData) (s : St) :
  personalInfo data = None ->
  cache (svc s) !! getCacheKey data = None ->
  fst (isAvailable s) = inr true ->
  exists s',
    generateResumeContent data s = (enhanceContentLocally data, s') /\
    remoteCalls (world s') = remoteCalls (world s) /\
    dailyCallCount (svc s') = dailyCallCount (svc (snd (isAvailable s))) + 1 /\
    failureCount (svc s') = failureCount (svc s) + 1.
Proof.
  intros P L Av.
  destruct (isAvailable_true s Av) as (s1 & E & W & K & B & O).
  replace (snd (isAvailable s)) with s1 by (rewrite E; reflexivity).
  unfold generateResumeContent.
  unfold bind at 1, this at 1. rewrite L.
  unfold bind at 1, try_catch at 1, bind at 1. rewrite E.
  unfold bind at 1, this at 1.
  assert (Ceq : CircuitState_eqb (circuitState (svc s1)) OPEN = false)
    by (destruct (circuitState (svc s1)); simpl; congruence).
  rewrite Ceq. change (true && negb false) with true. cbv iota.
  destruct (withRateLimit_stamp s1) as (s2 & E2 & _ & _ & D2 & _ & R2).
  destruct (withRateLimit_world s1) as (s2' & E2' & _ & _ & B2).
  rewrite E2 in E2'. injection E2' as <-.
  set (fn := bind withRateLimit _).
  assert (F : fn s1 = (inl (Error "Cannot read properties of undefined (reading 'summary')"), s2)).
  { unfold fn, bind at 1. rewrite E2.
    unfold generateResumeContentWithAI, bind. rewrite P. reflexivity. }
  unfold bind at 1. rewrite (wcb_failure fn s1 s2 _ O F).
  destruct (recordFailure_effect s2) as (Wr & Kr & Gr & Fr & _).
  unfold ret at 1. rewrite resume_local_path.
  eexists. split; [reflexivity|].
  unfold governorOf in Gr. injection Gr as _ _ Gd _ _.
  unfold breakerOf in B, B2. injection B as _ Bf _ _ _. injection B2 as _ B2f _ _ _.
  destruct (enhanceContentLocally data); simpl;
    rewrite Wr, R2, W, Gd, D2, Fr, B2f, Bf; auto.
Qed.


Lemma atsAttempt_fails_once (s : St) :
  remoteFails (remote (world s)) ->
  exists e s', atsAttempt s = (inl e, s') /\
    remote (world s') = remote (world s) /\
    remoteCalls (world s') = S (remoteCalls (world s)) /\
    svc s' = svc s.
Proof.
  intros F. specialize (F (remoteCalls (world s))).
  unfold atsAttempt, generateContent, parseOrThrow. run.
  destruct (remote (world s) (remoteCalls (world s))) as [d text|d err];
    destruct (15000 <=? d); simpl; try rewrite F;
    eexists; eexists; repeat split; reflexivity.
Qed.

Lemma computeATSScoreWithAI_fails_twice (resumeData : ResumeData)
  (options : ATSOptions) (s : St) :
  remoteFails (remote (world s)) ->
  exists e s', computeATSScoreWithAI resumeData options s = (inl e, s') /\
    remoteCalls (world s') = S (S (remoteCalls (world s))) /\
    svc s' = svc s.
Proof.
  intros F. unfold computeATSScoreWithAI.
  destruct (atsAttempt_fails_once s F) as (e1 & s1 & E1 & R1 & C1 & K1).
  rewrite retryLoop_S. unfold try_catch at 1. rewrite E1.
  change (Nat.eqb 1 0) with false. cbv beta iota.
  unfold bind at 1, sleep at 1. cbv beta iota.
  set (s1' := mkSt (svc s1) (advance 1000 (world s1))).
  assert (F1 : remoteFails (remote (world s1'))) by (simpl; rewrite R1; exact F).
  destruct (atsAttempt_fails_once s1' F1) as (e2 & s2 & E2 & R2 & C2 & K2).
  rewrite retryLoop_S. unfold try_catch at 1. rewrite E2.
  change (Nat.eqb 0 0) with true. cbv beta iota. unfold throw.
  exists e2, s2. split; [reflexivity|]. split.
  - rewrite C2. simpl. rewrite C1. reflexivity.
  - rewrite K2. simpl. exact K1.
Qed.

(** X8.  A failed scoring operation is one failure for the breaker.  When
    the remote path is available and every remote call fails, ATS scoring
    calls the remote model exactly twice (its two passes), records exactly
    one failure, reserves no slot of the quota, and returns the local
    result.  (The target role is a key that the table of expected keywords
    resolves among its own keys.) *)
Theorem failed_scoring_counts_once (resumeData : ResumeData)
  (options : ATSOptions) (s : St) :
  plainKey (targetRole options) ->
  fst (isAvailable s) = inr true ->
  remoteFails (remote (world s)) ->
  exists rnd now v s',
    computeATSScore resumeData options s = (inr v, s') /\
    computeATSScoreLocally rnd now resumeData options = inr v /\
    remoteCalls (world s') = (remoteCalls (world s) + 2)%nat /\
    failureCount (svc s') = failureCount (svc s) + 1 /\
    dailyCallCount (svc s') = dailyCallCount (svc (snd (isAvailable s))).
Proof.
  intros P Av Fl.
  destruct (isAvailable_true s Av) as (s1 & E & W & K & B & O).
  replace (snd (isAvailable s)) with s1 by (rewrite E; reflexivity).
  unfold computeATSScore.
  unfold bind at 1, try_catch at 1, bind at 1. rewrite E.
  unfold bind at 1, this at 1.
  assert (Ceq : CircuitState_eqb (circuitState (svc s1)) OPEN = false)
    by (destruct (circuitState (svc s1)); simpl; congruence).
  rewrite Ceq. change (true && negb false) with true. cbv iota.
  rewrite <- W in Fl.
  destruct (computeATSScoreWithAI_fails_twice resumeData options s1 Fl)
    as (e & s2 & E2 & C2 & K2).
  unfold bind at 1. rewrite (wcb_failure _ s1 s2 e O E2).
  destruct (recordFailure_effect s2) as (Wr & Kr & Gr & Fr & _).
  unfold ret at 1. unfold bind, Math_random, Date_now. simpl.
  rewrite liftE_run.
  match goal with
  | |- context [computeATSScoreLocally ?rnd ?now resumeData options] =>
      destruct (computeATSScoreLocally_returns rnd now resumeData options P)
        as (v & R); exists rnd, now, v
  end.
  rewrite R. eexists. split; [reflexivity|]. split; [reflexivity|]. simpl.
  unfold governorOf in Gr. injection Gr as _ _ Gd _ _.
  unfold breakerOf in B. injection B as _ Bf _ _ _.
  rewrite Wr, C2, W, Fr, K2, Bf, Gd, K2. repeat split; lia.
Qed.

Lemma profile_callback_succeeds (data : ProfileRequest) (s : St) :
  exists v s',
    try_catch
      (let* text := generateContent (Some (15000, "Request timeout")) in
       ret (JObj [
              ("success", JBool true);
              ("summary", JStr (trim text));
              ("objective",
               if pr_isFresher data then JStr (trim text) else JUndef) ]))
      (fun error => ret (generateProfileSummaryLocally data)) s = (inr v, s')
    /\ svc s' = svc s.
Proof.
  unfold try_catch, bind.
  destruct (generateContent _ s) as [[e|text] s1] eqn:G;
    apply generateContent_keeps in G; unfold ret;
    eexists; eexists; split; try reflexivity; exact G.
Qed.

Lemma afterSuccess_run {A} (fn : M A) (s s1 s2 : St) (b : bool) (x : A) :
  breakerOf (svc s1) = breakerOf (svc s) ->
  (b = true -> circuitState (svc s1) <> OPEN) ->
  fn s1 = (inr x, s2) -> svc s2 = svc s1 ->
  b = true ->
  afterSuccess (inr b) (svc s) (svc (snd (withCircuitBreaker fn s1))).
Proof.
  intros B O F K ->. specialize (O eq_refl).
  rewrite (wcb_success fn s1 s2 x O F). rewrite K.
  unfold breakerOf in B. injection B as B1 B2 B3 B4 B5.
  unfold afterSuccess. rewrite <- B1, <- B2, <- B3, <- B4, <- B5.
  destruct (circuitState (svc s1)) eqn:C; try congruence; simpl; rewrite ?K, ?C; auto.
Qed.

(** X9.  Profile-summary generation never records a failure with the
    breaker, and neither does multi-section enhancement for a request that
    the local templates can serve: a CLOSED or OPEN breaker is left exactly
    as it is, whatever the remote model does, and a HALF-OPEN breaker is
    closed, with the failure count reset to 0, whenever the remote path is
    available (credential and quota), even when the remote call of the
    profile summary failed and the local summary was returned.  A request
    for multi-section enhancement that cannot be served (a project or an
    achievement needs a generated text and has no name or title) throws
    the [TypeError] of [toLowerCase]: inside the breaker when the remote
    path is available, which records one failure of the remote service
    although no remote call was made, and with the breaker untouched
    otherwise. *)
Theorem summary_operations_never_trip (s : St) :
  (forall data,
     afterSuccess (fst (isAvailable s)) (svc s)
       (svc (snd (generateProfileSummary data s)))) /\
  (forall sections context,
     sectionsServable sections = true ->
     afterSuccess (fst (isAvailable s)) (svc s)
       (svc (snd (enhanceMultipleSections sections context s)))) /\
  (forall sections context,
     sectionsServable sections = false ->
     let out := enhanceMultipleSections sections context s in
     fst out = inl noToLowerCase /\
     remoteCalls (world (snd out)) = remoteCalls (world s) /\
     match fst (isAvailable s) with
     | inr true => failureCount (svc (snd out)) = failureCount (svc s) + 1
     | _ => breakerOf (svc (snd out)) = breakerOf (svc s)
     end).
Proof.
  destruct (isAvailable_spec s) as (b & s1 & E & W & K & B & O).
  assert (Un : b = false -> afterSuccess (inr b) (svc s) (svc s1)).
  { intros ->. unfold breakerOf in B. injection B as B1 B2 B3 B4 B5.
    unfold afterSuccess. rewrite B1, B2, B3, B4, B5.
    destruct (circuitState (svc s)); auto. }
  split; [|split].
  - intros data. unfold generateProfileSummary.
    unfold bind at 1. rewrite E. simpl fst.
    destruct b; simpl negb; cbv iota; [|apply Un; reflexivity].
    destruct (profile_callback_succeeds data s1) as (v & s2 & F & K2).
    eapply afterSuccess_run; eauto.
  - intros sections context S. unfold enhanceMultipleSections.
    unfold bind at 1. rewrite E. simpl fst.
    destruct (enhanceSectionsLocally_returns sections context S) as (v & R).
    destruct b; [change (negb true) with false | change (negb false) with true];
      cbv iota.
    + eapply (afterSuccess_run _ s s1 s1 true v); eauto.
      rewrite sections_callback, R. reflexivity.
    + rewrite liftE_run. simpl. apply Un. reflexivity.
  - intros sections context S out. subst out.
    pose proof (enhanceSectionsLocally_throws sections context S) as R.
    assert (Run : enhanceMultipleSections sections context s
                  = (inl noToLowerCase, if b then snd (recordFailure s1) else s1)).
    { unfold enhanceMultipleSections. unfold bind at 1. rewrite E.
      destruct b; [change (negb true) with false | change (negb false) with true];
        cbv iota.
      - specialize (O eq_refl).
        assert (F : (let* enhancedSections := liftE (enhancedSectionsOf sections context) in
                     ret (JObj [("success", JBool true);
                                ("enhancedSections", enhancedSections)])) s1
                    = (inl noToLowerCase, s1))
          by (rewrite sections_callback, R; reflexivity).
        exact (wcb_failure _ s1 s1 _ O F).
      - rewrite liftE_run, R. reflexivity. }
    rewrite Run, E. cbn [fst snd].
    split; [reflexivity|].
    destruct (recordFailure_effect s1) as (Wr & _ & _ & Fr & _).
    destruct b.
    + split; [rewrite Wr, W; reflexivity|].
      unfold breakerOf in B. injection B as _ Bf _ _ _. rewrite Fr, Bf. reflexivity.
    + split; [rewrite W; reflexivity | exact B].
Qed.

End Costs.

(** ** Text repair: what every repaired text looks like *)

Lemma nl_control c : is_nl c = true -> is_control c = true.
Proof. by_bits c. Qed.

Lemma stripControl_noControl (l : list ascii) : noControl (stripControl l).
Proof.
  unfold noControl, stripControl. apply List.Forall_forall. intros c I.
  apply List.filter_In in I. destruct I as [_ I].
  destruct (is_control c); [discriminate | reflexivity].
Qed.

Lemma closeDelimiters_noControl (l : list ascii) :
  noControl l -> noControl (closeDelimiters l).
Proof.
  intros N. rewrite closeDelimiters_appends. unfold noControl.
  apply List.Forall_app. split; [exact N|].
  eapply List.Forall_impl; [|apply closers_closer].
  intros c. by_bits c.
Qed.

Lemma closeDelimiters_balanced (l : list ascii) :
  (count lbrace (closeDelimiters l) <= count rbrace (closeDelimiters l))%nat /\
  (count lbracket (closeDelimiters l) <= count rbracket (closeDelimiters l))%nat.
Proof.
  rewrite closeDelimiters_appends, !count_app.
  rewrite !count_repeat_same.
  rewrite !(count_repeat_other lbrace) by reflexivity.
  rewrite !(count_repeat_other lbracket) by reflexivity.
  rewrite (count_repeat_other rbrace rbracket) by reflexivity.
  rewrite (count_repeat_other rbracket rbrace) by reflexivity.
  lia.
Qed.

Lemma noControl_no_newline (l : list ascii) :
  noControl l -> existsb is_nl l = false.
Proof.
  induction 1 as [|c l Hc Hl IH]; [reflexivity|].
  simpl. rewrite IH, orb_false_r.
  destruct (is_nl c) eqn:E; [|reflexivity].
  apply nl_control in E. congruence.
Qed.

Lemma noControl_takeWhile (p : ascii -> bool) (l : list ascii) :
  noControl l -> noControl (takeWhile p l).
Proof.
  induction 1 as [|c l Hc Hl IH]; simpl; [constructor|].
  destruct (p c); constructor; assumption.
Qed.

Lemma newlineTail_noControl (r : list ascii) :
  noControl r -> newlineTail r = None.
Proof.
  intros N. unfold newlineTail.
  rewrite (noControl_no_newline _ (noControl_takeWhile is_ws r N)). reflexivity.
Qed.

Lemma newlineGroups_noControl (l : list ascii) :
  noControl l -> forall acc, newlineGroups acc l = None.
Proof.
  induction 1 as [|c l Hc Hl IH]; intros acc; [reflexivity|].
  cbn [newlineGroups]. rewrite (newlineTail_noControl l Hl).
  destruct (Ascii.eqb c dq), (is_line_term c); auto.
Qed.

Lemma joinSplitStrings_noControl (l : list ascii) :
  noControl l -> joinSplitStrings l = l.
Proof.
  induction 1 as [|c l Hc Hl IH]; [reflexivity|].
  cbn [joinSplitStrings]. rewrite (newlineGroups_noControl l Hl).
  destruct (Ascii.eqb c dq); rewrite IH; reflexivity.
Qed.

Lemma closeQuote_even (l : list ascii) :
  Nat.even (count dq (closeQuote l)) = true.
Proof.
  unfold closeQuote. destruct (Nat.odd (count dq l)) eqn:O.
  - rewrite count_app. change (count dq [dq]) with 1%nat.
    rewrite Nat.add_1_r, Nat.even_succ. exact O.
  - rewrite <- Nat.negb_odd, O. reflexivity.
Qed.

Lemma closeQuote_count (c : ascii) (l : list ascii) :
  Ascii.eqb c dq = false -> count c (closeQuote l) = count c l.
Proof.
  intros E. unfold closeQuote. destruct (Nat.odd _); [|reflexivity].
  rewrite count_app. unfold count at 2. simpl. rewrite E. simpl. lia.
Qed.

Lemma closeQuote_noControl (l : list ascii) :
  noControl l -> noControl (closeQuote l).
Proof.
  intros N. unfold closeQuote. destruct (Nat.odd _); [|exact N].
  apply List.Forall_app. split; [exact N|]. constructor; [reflexivity|constructor].
Qed.

Lemma chars_str (l : list ascii) : chars (str l) = l.
Proof. apply list_ascii_of_string_of_list_ascii. Qed.

(** The text after the first seven steps of the repair. *)
Lemma scrub_steps (text : list ascii) :
  exists l,
    scrub text = closeQuote (closeDelimiters (stripControl l)) /\
    l = insertCommas 0
          (dropTrailingCommas
             (unescapeStep (stripFenceClose (stripFenceOpen (trimL text))))).
Proof.
  eexists. split; [|reflexivity]. unfold scrub.
  rewrite joinSplitStrings_noControl; [reflexivity|].
  apply closeDelimiters_noControl, stripControl_noControl.
Qed.

(** X10.  Every repaired text is free of control characters (so it has
    no line break and no tab, inside string literals either), has an even
    number of double quotes, and has at least as many closing as opening
    braces and at least as many closing as opening brackets. *)
Theorem repaired_text_shape (text : string) :
  let out := chars (scrubJsonText text) in
  forallb (fun c => negb (is_control c)) out = true /\
  Nat.even (count dq out) = true /\
  (count lbrace out <= count rbrace out)%nat /\
  (count lbracket out <= count rbracket out)%nat.
Proof.
  unfold scrubJsonText. rewrite chars_str.
  destruct (scrub_steps (chars text)) as (l & -> & _).
  split; [|split].
  - apply forallb_forall. intros c I.
    pose proof (closeQuote_noControl _
                  (closeDelimiters_noControl _ (stripControl_noControl l))) as N.
    unfold noControl in N. rewrite List.Forall_forall in N.
    rewrite (N c I). reflexivity.
  - apply closeQuote_even.
  - rewrite !closeQuote_count by reflexivity. apply closeDelimiters_balanced.
Qed.

(** X11.  The step that joins two string literals separated by a line
    break never changes the text: it runs after the control characters,
    the line break among them, have been removed.  The repair is the
    composition of its other steps. *)
Theorem split_string_join_never_fires (text : string) :
  scrubJsonText text =
  str (closeQuote
         (closeDelimiters
            (stripControl
               (insertCommas 0
                  (dropTrailingCommas
                     (unescapeStep
                        (stripFenceClose
                           (stripFenceOpen (trimL (chars text)))))))))).
Proof.
  unfold scrubJsonText.
  destruct (scrub_steps (chars text)) as (l & -> & ->). reflexivity.
Qed.

(** *** Code fences *)

Lemma chars_app (a b : string) : chars (a ++ b) = (chars a ++ chars b)%list.
Proof.
  unfold chars. induction a as [|c a IH]; simpl; [reflexivity|].
  rewrite IH. reflexivity.
Qed.

Lemma nl_ws c : is_nl c = true -> is_ws c = true.
Proof. by_bits c. Qed.

Lemma startsClean_not_nl (c : ascii) (l : list ascii) :
  startsClean (c :: l) -> is_nl c = false.
Proof.
  simpl. intros W. destruct (is_nl c) eqn:E; [|reflexivity].
  apply nl_ws in E. congruence.
Qed.

(** The rest of the repair after the fences are stripped. *)
Lemma scrub_unfenced (wrapped b : list ascii) :
  trimL wrapped = wrapped ->
  stripFenceClose (stripFenceOpen wrapped) = b ->
  trimL b = b -> stripFenceOpen b = b -> stripFenceClose b = b ->
  scrub wrapped = scrub b.
Proof.
  intros T F Tb Ob Cb. unfold scrub. rewrite T, F, Tb, Ob, Cb. reflexivity.
Qed.

Lemma prefixb_app (p x : list ascii) : prefixb p (p ++ x) = true.
Proof.
  induction p as [|c p IH]; [reflexivity|].
  cbn [prefixb app]. rewrite Ascii.eqb_refl. exact IH.
Qed.

Lemma skipn_prefix (p x : list ascii) : skipn (length p) (p ++ x) = x.
Proof. induction p as [|c p IH]; [reflexivity | exact IH]. Qed.

Lemma stripFenceOpen_wrapped (x : list ascii) :
  stripFenceOpen (fenceOpen ++ x) =
  match x with
  | c :: r => if is_nl c then r else c :: r
  | [] => []
  end.
Proof.
  unfold stripFenceOpen. rewrite prefixb_app, skipn_prefix. reflexivity.
Qed.

Lemma stripFenceClose_wrapped (x : list ascii) :
  stripFenceClose (x ++ fenceClose) =
  match rev x with
  | c :: r => if is_nl c then rev r else rev (c :: r)
  | [] => []
  end.
Proof.
  unfold stripFenceClose, suffixb. rewrite List.rev_app_distr.
  rewrite prefixb_app.
  replace (length fenceClose) with (length (rev fenceClose)) by reflexivity.
  rewrite skipn_prefix. reflexivity.
Qed.

Lemma unfence (b : list ascii) :
  trimL b = b ->
  stripFenceClose
    (stripFenceOpen (fenceOpen ++ newline :: b ++ newline :: fenceClose))
  = b /\
  stripFenceClose (stripFenceOpen (fenceOpen ++ b ++ fenceClose)) = b.
Proof.
  intros T.
  assert (S : startsClean b) by (rewrite <- T; apply trimL_starts).
  assert (E : endsClean b) by (rewrite <- T; apply trimL_ends).
  split.
  - rewrite stripFenceOpen_wrapped. change (is_nl newline) with true. cbv iota.
    change (b ++ newline :: fenceClose)%list
      with (b ++ [newline] ++ fenceClose)%list.
    rewrite List.app_assoc, stripFenceClose_wrapped, List.rev_app_distr.
    cbn [rev app]. change (is_nl newline) with true. cbv iota.
    apply List.rev_involutive.
  - rewrite stripFenceOpen_wrapped.
    assert (O : match (b ++ fenceClose)%list with
                | c :: r => if is_nl c then r else c :: r
                | [] => []
                end = (b ++ fenceClose)%list).
    { destruct b as [|c b]; [reflexivity|].
      cbn [app]. rewrite (startsClean_not_nl c b S). reflexivity. }
    rewrite O, stripFenceClose_wrapped.
    unfold endsClean in E.
    destruct (rev b) as [|c r] eqn:R.
    + apply (f_equal (@rev ascii)) in R. rewrite List.rev_involutive in R.
      rewrite R. reflexivity.
    + rewrite (startsClean_not_nl c r E). rewrite <- R. apply List.rev_involutive.
Qed.

Lemma trimL_wrapped (x : list ascii) :
  trimL (fenceOpen ++ x ++ fenceClose) = (fenceOpen ++ x ++ fenceClose)%list.
Proof.
  apply trimL_fixed; [reflexivity|].
  unfold endsClean. rewrite !List.rev_app_distr. reflexivity.
Qed.

(** X12.  A code fence around the answer is transparent.  For a body
    that has no white space at either end and is not itself fenced, the
    repair of the body wrapped in [```json] and [```], with or without the
    line breaks around the body, is the repair of the body alone. *)
Theorem fenced_answer_is_unwrapped (body : string) :
  trim body = body ->
  prefixb fenceOpen (chars body) = false ->
  suffixb fenceClose (chars body) = false ->
  scrubJsonText (fenced body) = scrubJsonText body /\
  scrubJsonText (fencedTight body) = scrubJsonText body.
Proof.
  intros T O C.
  assert (Tb : trimL (chars body) = chars body).
  { unfold trim in T. apply (f_equal chars) in T. rewrite chars_str in T. exact T. }
  assert (Ob : stripFenceOpen (chars body) = chars body)
    by (unfold stripFenceOpen; rewrite O; reflexivity).
  assert (Cb : stripFenceClose (chars body) = chars body)
    by (unfold stripFenceClose; rewrite C; reflexivity).
  destruct (unfence (chars body) Tb) as [U1 U2].
  unfold scrubJsonText, fenced, fencedTight. rewrite !chars_app, !chars_str.
  split; f_equal.
  - change (chars "```json" ++ [newline] ++ chars body ++ [newline] ++ chars "```")%list
      with (fenceOpen ++ newline :: chars body ++ newline :: fenceClose)%list.
    apply scrub_unfenced; auto.
    apply trimL_fixed; [reflexivity|].
    unfold endsClean. rewrite List.rev_app_distr. cbn [rev].
    rewrite List.rev_app_distr. reflexivity.
  - apply scrub_unfenced; auto. apply trimL_wrapped.
Qed.

(** ** Bullet formatting of an enhanced section *)

Lemma str_chars (s : string) : str (chars s) = s.
Proof. apply string_of_list_ascii_of_string. Qed.

Lemma splitLines_line (l : list ascii) :
  existsb is_nl l = false ->
  forall cur r,
    splitLines cur (l ++ r) = splitLines (rev l ++ cur) r.
Proof.
  induction l as [|c l IH]; intros N cur r; [reflexivity|].
  simpl in N. apply orb_false_elim in N. destruct N as [Nc Nl].
  cbn [app splitLines]. rewrite Nc, (IH Nl). cbn [rev].
  rewrite <- List.app_assoc. reflexivity.
Qed.

Lemma splitLines_join (x : string) (ls : list string) :
  Forall (fun line => existsb is_nl (chars line) = false) (x :: ls) ->
  splitLines [] (chars (join (str [newline]) (x :: ls))) = x :: ls.
Proof.
  revert x. induction ls as [|y ls IH]; intros x F.
  - simpl. inversion F as [|? ? Nx _]; subst.
    rewrite <- (List.app_nil_r (chars x)), (splitLines_line _ Nx).
    simpl. rewrite List.app_nil_r, List.rev_involutive, str_chars. reflexivity.
  - inversion F as [|? ? Nx F']; subst.
    change (join (str [newline]) (x :: y :: ls))
      with (x ++ str [newline] ++ join (str [newline]) (y :: ls)).
    rewrite !chars_app, chars_str, (splitLines_line _ Nx).
    cbn [app splitLines]. change (is_nl newline) with true. cbv iota.
    rewrite List.app_nil_r, List.rev_involutive, str_chars, (IH y F').
    reflexivity.
Qed.

Lemma existsb_rev_false {A} (p : A -> bool) (l : list A) :
  existsb p l = false -> existsb p (rev l) = false.
Proof.
  induction l as [|c l IH]; simpl; [auto|].
  intros E. apply orb_false_elim in E. destruct E as [Ec El].
  rewrite existsb_app, (IH El). simpl. rewrite Ec. reflexivity.
Qed.

Lemma splitLines_no_newline (l : list ascii) :
  forall cur, existsb is_nl cur = false ->
    Forall (fun line => existsb is_nl (chars line) = false) (splitLines cur l).
Proof.
  induction l as [|c l IH]; intros cur N.
  - constructor; [|constructor]. rewrite chars_str.
    apply existsb_rev_false. exact N.
  - cbn [splitLines]. destruct (is_nl c) eqn:E.
    + constructor; [|apply IH; reflexivity].
      rewrite chars_str. apply existsb_rev_false. exact N.
    + apply IH. simpl. rewrite E, N. reflexivity.
Qed.

Lemma existsb_Forall_false {A} (p : A -> bool) (l : list A) :
  existsb p l = false <-> Forall (fun c => p c = false) l.
Proof.
  induction l as [|c l IH]; simpl; [split; auto|].
  rewrite orb_false_iff, IH. split.
  - intros [? ?]. constructor; assumption.
  - intros F. inversion F; auto.
Qed.

Lemma trim_no_newline (line : string) :
  existsb is_nl (chars line) = false ->
  existsb is_nl (chars (trim line)) = false.
Proof.
  unfold trim. rewrite chars_str, !existsb_Forall_false. apply Forall_trimL.
Qed.

Lemma trimL_idempotent (l : list ascii) : trimL (trimL l) = trimL l.
Proof. apply trimL_fixed; [apply trimL_starts | apply trimL_ends]. Qed.

Lemma trim_idempotent (s : string) : trim (trim s) = trim s.
Proof. unfold trim. rewrite chars_str, trimL_idempotent. reflexivity. Qed.

Lemma chars_nonempty (s : string) : s <> "" -> chars s <> [].
Proof. destruct s; [congruence | discriminate]. Qed.

(** A trimmed, non-empty line to which the bullet is prefixed. *)
Lemma bulleted_line (line : string) :
  trim line = line -> line <> "" ->
  existsb is_nl (chars line) = false ->
  bulletLine (bullet ++ " " ++ line).
Proof.
  intros T N L. unfold bulletLine.
  assert (Tl : trimL (chars line) = chars line).
  { unfold trim in T. apply (f_equal chars) in T. rewrite chars_str in T. exact T. }
  split; [|split; [discriminate | split]].
  - unfold trim. rewrite !chars_app.
    rewrite trimL_fixed; [rewrite <- !chars_app; apply str_chars | reflexivity |].
    unfold endsClean. rewrite !List.rev_app_distr.
    pose proof (trimL_ends (chars line)) as E. rewrite Tl in E.
    unfold endsClean in E.
    destruct (rev (chars line)) as [|c r] eqn:R; [|exact E].
    apply (f_equal (@rev ascii)) in R. rewrite List.rev_involutive in R.
    apply chars_nonempty in N. contradiction.
  - rewrite !chars_app, !existsb_app, L. reflexivity.
  - unfold startsWith. rewrite chars_app. apply prefixb_app.
Qed.

(** The lines that [formatBullets] joins. *)
Lemma formatted_lines (enhancedContent : string) :
  Forall bulletLine
    (map (fun line => if startsWith line bullet then line
                      else bullet ++ " " ++ line)
         (List.filter (fun line => negb (String.eqb line ""))
            (map trim (splitLines [] (chars enhancedContent))))).
Proof.
  pose proof (splitLines_no_newline (chars enhancedContent) [] eq_refl) as N.
  induction N as [|x ls Nx _ IH]; [constructor|].
  cbn [map List.filter].
  destruct (String.eqb (trim x) "") eqn:E; [exact IH|].
  cbn [negb map]. constructor; [|exact IH].
  apply String.eqb_neq in E.
  pose proof (trim_idempotent x) as T.
  pose proof (trim_no_newline x Nx) as L.
  destruct (startsWith (trim x) bullet) eqn:B.
  - unfold bulletLine. auto.
  - apply bulleted_line; assumption.
Qed.

(** What [formatBullets] does to lines that are already formatted. *)
Lemma format_formatted (ls : list string) :
  Forall bulletLine ls ->
  map (fun line => if startsWith line bullet then line
                   else bullet ++ " " ++ line)
      (List.filter (fun line => negb (String.eqb line "")) (map trim ls)) = ls.
Proof.
  induction 1 as [|x ls (T & N & _ & B) _ IH]; [reflexivity|].
  cbn [map List.filter]. rewrite T.
  apply String.eqb_neq in N. rewrite N. cbn [negb map].
  rewrite B, IH. reflexivity.
Qed.

(** X13.  The bullet formatting of an enhanced section is idempotent, and
    unless its result is empty every line of the result is trimmed, not
    empty, and starts with the bullet. *)
Theorem bullet_formatting_is_stable (enhancedContent : string) :
  formatBullets (formatBullets enhancedContent) = formatBullets enhancedContent /\
  (formatBullets enhancedContent = "" \/
   Forall bulletLine (splitLines [] (chars (formatBullets enhancedContent)))).
Proof.
  pose proof (formatted_lines enhancedContent) as F.
  unfold formatBullets at 2 3 4 5.
  set (ls := map _ _) in *.
  destruct ls as [|x ls]; [split; [reflexivity | left; reflexivity]|].
  assert (N : Forall (fun line => existsb is_nl (chars line) = false) (x :: ls)).
  { eapply List.Forall_impl; [|exact F]. intros l (_ & _ & L & _). exact L. }
  split.
  - unfold formatBullets. rewrite (splitLines_join x ls N).
    rewrite (format_formatted _ F). reflexivity.
  - right. rewrite (splitLines_join x ls N). exact F.
Qed.

(** ** Section enhancement: outcomes and retries *)

Lemma enhanceAttempts_keeps (n : nat) :
  forall retryDelay s r s',
    enhanceAttempts n retryDelay s = (r, s') -> svc s' = svc s.
Proof.
  induction n as [|n IH]; intros retryDelay s r s'.
  - simpl. unfold throw. intros E. injection E as _ <-. reflexivity.
  - cbn [enhanceAttempts]. unfold try_catch.
    destruct (generateContent None s) as [[e|x] s1] eqn:G;
      apply generateContent_keeps in G.
    + destruct (_ && _).
      * unfold bind, sleep. intros R. apply IH in R. simpl in R. congruence.
      * unfold throw. intros R. injection R as _ <-. exact G.
    + intros R. injection R as _ <-. exact G.
Qed.

Section SectionEnhancement.
Context `{Runtime}.

Lemma enhanceSection_outcome (section content : string) (s : St) :
  exists v s', enhanceSection section content s = (inr v, s') /\
    svc s' = svc (snd (isAvailable s)) /\
    match fst (isAvailable s) with
    | inr true => v = enhanceFailed section \/ exists text, v = enhanced text
    | _ => v = notAvailable /\ world s' = world s
    end.
Proof.
  unfold enhanceSection.
  destruct (isAvailable_spec s) as (b & s1 & E & W & K & B & O).
  unfold bind at 1. rewrite E. simpl fst. simpl snd.
  destruct b; [change (negb true) with false | change (negb false) with true];
    cbv beta iota.
  - unfold try_catch, bind.
    destruct (enhanceAttempts 3 1000 s1) as [[e|text] s2] eqn:A;
      apply enhanceAttempts_keeps in A; unfold ret;
      eexists; eexists; (split; [reflexivity|]); split; auto.
    right. exists text. reflexivity.
  - unfold ret. eexists. eexists. split; [reflexivity|]. auto.
Qed.

(** X14.  Section enhancement never throws and has three outcomes.  When
    the remote path is unavailable it answers [success: false] with the
    message that the AI service is not available, without a remote call.
    Otherwise it answers either [success: true] with the bullet-formatted,
    trimmed text of the remote model, or [success: false] with the message
    that names the section, after three remote calls at most.  It works
    outside the breaker and the governor: apart from the day change that
    the availability check records, the service object is left as it is
    (no failure is recorded, no slot is reserved, the cache is not
    written). *)
Theorem section_enhancement_outcomes (section content : string) (s : St) :
  exists v s', enhanceSection section content s = (inr v, s') /\
    svc s' = svc (snd (isAvailable s)) /\
    cache (svc s') = cache (svc s) /\
    (remoteCalls (world s') <= remoteCalls (world s) + 3)%nat /\
    match fst (isAvailable s) with
    | inr true => v = enhanceFailed section \/ exists text, v = enhanced text
    | _ => v = notAvailable /\ world s' = world s
    end.
Proof.
  destruct (enhanceSection_outcome section content s) as (v & s' & E & K & V).
  exists v, s'. split; [exact E|]. split; [exact K|]. split; [|split; [|exact V]].
  - destruct (isAvailable_spec s) as (b & s1 & E1 & _ & K1 & _).
    rewrite K, E1. exact K1.
  - pose proof (calls_enhanceSection section content s _ s' E). lia.
Qed.

Lemma generateContent_rejects (s : St) (d : Z) (e : JsError) :
  remote (world s) (remoteCalls (world s)) = Reject d e ->
  generateContent None s = (inl e, mkSt (svc s) (advance d (called (world s)))).
Proof. intros R. unfold generateContent. rewrite R. reflexivity. Qed.

Lemma generateContent_responds (s : St) (d : Z) (text : string) :
  remote (world s) (remoteCalls (world s)) = Respond d text ->
  generateContent None s = (inr text, mkSt (svc s) (advance d (called (world s)))).
Proof. intros R. unfold generateContent. rewrite R. reflexivity. Qed.

(** One pass of the retry loop that is not the last one. *)
Lemma enhanceAttempts_step (n : nat) (retryDelay : Z) (s : St) :
  enhanceAttempts (S (S n)) retryDelay s =
  match nextCall s 0 with
  | Respond d text => (inr text, mkSt (svc s) (advance d (called (world s))))
  | Reject d e =>
      if isOverload (Reject d e)
      then enhanceAttempts (S n) (retryDelay * 2)
             (mkSt (svc s) (advance retryDelay (advance d (called (world s)))))
      else (inl e, mkSt (svc s) (advance d (called (world s))))
  end.
Proof.
  unfold nextCall. rewrite Nat.add_0_r.
  cbn [enhanceAttempts]. unfold try_catch at 1.
  destruct (remote (world s) (remoteCalls (world s))) as [d text|d e] eqn:R.
  - rewrite (generateContent_responds s d text R). reflexivity.
  - rewrite (generateContent_rejects s d e R). unfold isOverload.
    destruct (match status e with Some st => st =? 503 | None => false end);
      reflexivity.
Qed.

(** The last pass. *)
Lemma enhanceAttempts_last (retryDelay : Z) (s : St) :
  enhanceAttempts 1 retryDelay s =
  match nextCall s 0 with
  | Respond d text => (inr text, mkSt (svc s) (advance d (called (world s))))
  | Reject d e => (inl e, mkSt (svc s) (advance d (called (world s))))
  end.
Proof.
  unfold nextCall. rewrite Nat.add_0_r.
  cbn [enhanceAttempts]. unfold try_catch at 1.
  destruct (remote (world s) (remoteCalls (world s))) as [d text|d e] eqn:R.
  - rewrite (generateContent_responds s d text R). reflexivity.
  - rewrite (generateContent_rejects s d e R).
    rewrite andb_false_r. reflexivity.
Qed.


Lemma enhanceAttempts_run (s : St) :
  exists r s',
    enhanceAttempts 3 1000 s = (r, s') /\
    svc s' = svc s /\
    remoteCalls (world s') = (remoteCalls (world s) + attemptsUsed s)%nat /\
    clock (world s') = clock (world s) + attemptsTime s /\
    match nextCall s (attemptsUsed s - 1), r with
    | Respond _ text, inr text' => text' = text
    | Reject _ _, inl _ => True
    | _, _ => False
    end.
Proof.
  unfold attemptsUsed, attemptsTime.
  rewrite enhanceAttempts_step.
  destruct (nextCall s 0) as [d0 t0|d0 e0] eqn:N0.
  { eexists. eexists. split; [reflexivity|]. simpl. rewrite N0.
    repeat split; lia. }
  destruct (isOverload (Reject d0 e0)) eqn:O0.
  2:{ eexists. eexists. split; [reflexivity|]. simpl. rewrite N0.
      repeat split; lia. }
  rewrite enhanceAttempts_step.
  set (s1 := mkSt (svc s) (advance 1000 (advance d0 (called (world s))))).
  assert (N1 : nextCall s1 0 = nextCall s 1).
  { unfold nextCall, s1. simpl. f_equal. lia. }
  rewrite N1.
  destruct (nextCall s 1) as [d1 t1|d1 e1] eqn:N1'.
  { eexists. eexists. split; [reflexivity|]. simpl. rewrite N1'.
    repeat split; lia. }
  destruct (isOverload (Reject d1 e1)) eqn:O1.
  2:{ eexists. eexists. split; [reflexivity|]. simpl. rewrite N1'.
      repeat split; lia. }
  rewrite enhanceAttempts_last.
  set (s2 := mkSt (svc s1) (advance (1000 * 2) (advance d1 (called (world s1))))).
  assert (N2 : nextCall s2 0 = nextCall s 2).
  { unfold nextCall, s2, s1. simpl. f_equal. lia. }
  rewrite N2.
  destruct (nextCall s 2) as [d2 t2|d2 e2] eqn:N2';
    eexists; eexists; (split; [reflexivity|]); simpl; rewrite N2';
    repeat split; lia.
Qed.

(** X15.  The retry loop of section enhancement.  With the remote path
    available, a remote call is repeated only when it is rejected as
    overloaded (status 503), after a pause of one second and then of two
    seconds, and the third call is the last.  The call that ends the loop
    decides the answer: its bullet-formatted text, or the failure message
    when it is rejected.  The number of remote calls and the time spent
    are exactly those of that schedule. *)
Theorem overload_is_retried_with_backoff (section content : string) (s : St) :
  fst (isAvailable s) = inr true ->
  exists s',
    enhanceSection section content s
      = (inr (enhanceResult section (nextCall s (attemptsUsed s - 1))), s') /\
    remoteCalls (world s') = (remoteCalls (world s) + attemptsUsed s)%nat /\
    clock (world s') = clock (world s) + attemptsTime s.
Proof.
  intros Av.
  destruct (isAvailable_true s Av) as (s1 & E & W & _).
  assert (Nx : forall i, nextCall s1 i = nextCall s i)
    by (intros i; unfold nextCall; rewrite W; reflexivity).
  assert (U : attemptsUsed s1 = attemptsUsed s)
    by (unfold attemptsUsed; rewrite !Nx; reflexivity).
  assert (T : attemptsTime s1 = attemptsTime s)
    by (unfold attemptsTime; rewrite !Nx; reflexivity).
  destruct (enhanceAttempts_run s1) as (r & s2 & A & K2 & C2 & T2 & R2).
  rewrite U, Nx in R2. rewrite U, W in C2. rewrite T, W in T2.
  unfold enhanceSection. unfold bind at 1. rewrite E.
  change (negb true) with false. cbv beta iota.
  unfold try_catch, bind. rewrite A.
  destruct (nextCall s (attemptsUsed s - 1)) as [d text|d e], r as [e'|text'];
    try contradiction; unfold ret; simpl.
  - subst text'. exists s2. auto.
  - exists s2. auto.
Qed.

End SectionEnhancement.

(** ** Resume review and the handlers of the AI routes *)

Section ReviewAndRoutes.
Context `{Runtime}.

Lemma reviewResume_run (resumeData : JsVal) (jobDescription : option string)
  (s : St) :
  reviewResume resumeData jobDescription s =
  if genAI (svc s) then
    match nextCall s 0 with
    | Respond d text =>
        (inr text, mkSt (svc s) (advance d (called (world s))))
    | Reject d e =>
        (inl reviewFailed, mkSt (svc s) (advance d (called (world s))))
    end
  else (inl reviewFailed, s).
Proof.
  unfold reviewResume, nextCall. rewrite Nat.add_0_r.
  unfold try_catch, bind at 1, this at 1.
  destruct (genAI (svc s)); [|reflexivity].
  destruct (remote (world s) (remoteCalls (world s))) as [d text|d e] eqn:R.
  - rewrite (generateContent_responds s d text R). reflexivity.
  - rewrite (generateContent_rejects s d e R). reflexivity.
Qed.

(** X16.  Resume review goes straight to the remote model: it consults
    neither the breaker nor the quota (it calls the remote model even
    when the breaker is OPEN or the daily limit is reached), and it leaves
    the service object as it is.  With a credential it makes exactly one
    remote call, and returns the text of the answer verbatim; without one
    it makes no call.  Every failure reaches the caller as the same error,
    [Failed to review resume. Please try again later.]. *)
Theorem review_bypasses_breaker_and_quota (resumeData : JsVal)
  (jobDescription : option string) (s : St) :
  let out := reviewResume resumeData jobDescription s in
  svc (snd out) = svc s /\
  (forall e, fst out = inl e -> e = reviewFailed) /\
  (if genAI (svc s)
   then remoteCalls (world (snd out)) = S (remoteCalls (world s)) /\
        match nextCall s 0 with
        | Respond _ text => fst out = inr text
        | Reject _ _ => fst out = inl reviewFailed
        end
   else out = (inl reviewFailed, s)).
Proof.
  cbv zeta. rewrite reviewResume_run.
  destruct (genAI (svc s)); [|repeat split; simpl; congruence].
  destruct (nextCall s 0) as [d text|d e]; simpl; repeat split; congruence.
Qed.

(** X17.  The handler of [POST /enhance] always answers, and never with
    status 500.  With validation errors it answers 400 with the errors and
    does not touch the service.  Otherwise it answers 400 with the failure
    that section enhancement reports (the AI service is not available, or
    the enhancement failed), or 200 with [success: true] and the enhanced
    content. *)
Theorem enhance_route_answers (errors : list JsVal) (section content : string)
  (s : St) :
  exists resp s', enhanceRoute errors section content s = (inr resp, s') /\
    match errors with
    | _ :: _ => resp = validationFailed errors /\ s' = s
    | [] =>
        match fst (isAvailable s) with
        | inr true =>
            resp = mkResponse 400 (enhanceFailed section) \/
            exists text, resp = mkResponse 200 (enhanced text)
        | _ => resp = mkResponse 400 notAvailable
        end
    end.
Proof.
  unfold enhanceRoute, try_catch.
  destruct errors as [|err errors]; simpl (negb (isEmpty _)); cbv iota.
  - destruct (enhanceSection_outcome section content s) as (v & s' & E & _ & V).
    unfold bind. rewrite E.
    destruct (fst (isAvailable s)) as [e|[|]].
    + destruct V as [-> _]. eexists. eexists. split; reflexivity.
    + destruct V as [->|[text ->]]; eexists; eexists; (split; [reflexivity|]).
      * left. reflexivity.
      * right. exists text. reflexivity.
    + destruct V as [-> _]. eexists. eexists. split; reflexivity.
  - eexists. eexists. split; [reflexivity|]. auto.
Qed.

(** X18.  The handler of [POST /review-resume] answers 400 on validation
    errors, 200 with the review when the remote model answered, and 500
    with the error message of [reviewResume] otherwise (the fallback
    message of the handler itself is never used). *)
Theorem review_route_answers (errors : list JsVal) (resumeData : JsVal)
  (jobDescription : option string) (s : St) :
  exists s',
    reviewResumeRoute errors resumeData jobDescription s =
    (inr match errors with
         | _ :: _ => mkResponse 400 (JObj [("errors", JArr errors)])
         | [] =>
             match (if genAI (svc s) then nextCall s 0
                    else Reject 0 reviewFailed) with
             | Respond _ text => mkResponse 200 (JObj [("review", JStr text)])
             | Reject _ _ =>
                 mkResponse 500 (JObj [
                   ("error",
                    JStr "Failed to review resume. Please try again later.") ])
             end
         end, s') /\
    svc s' = svc s.
Proof.
  unfold reviewResumeRoute, try_catch.
  destruct errors as [|err errors]; simpl (negb (isEmpty _)); cbv iota.
  - unfold bind. rewrite reviewResume_run.
    destruct (genAI (svc s)); [|eexists; split; reflexivity].
    destruct (nextCall s 0) as [d text|d e]; eexists; split; reflexivity.
  - eexists. split; reflexivity.
Qed.

(** X19.  The handlers of the three generation routes, for a request
    that passes validation and whose body has the types of the [Resume]
    model.  [POST /generate-profile-summary] answers 200 with [success:
    true], whatever the state of the service and whatever the remote model
    does.  [POST /enhance-sections] answers 200 with [success: true] when
    the sections are servable, and 500 with the message of the [TypeError]
    of [toLowerCase] when a project or an achievement needs a generated
    text and has no name or title (the validation does not look at the
    items).  [POST /generate-resume] answers 200 with the result for every
    servable request; for a request that is not servable it answers 500
    with that message whenever the result has to come from the local
    engine (no cached result, and the remote path unavailable or
    failing). *)
Theorem generation_routes_answers (s : St) :
  (forall data,
     exists result s',
       generateProfileSummaryRoute [] data s = (inr (mkResponse 200 result), s') /\
       field "success" result = JBool true) /\
  (forall sections context,
     exists resp s',
       enhanceSectionsRoute [] sections context s = (inr resp, s') /\
       if sectionsServable sections
       then exists result,
              resp = mkResponse 200 result /\ field "success" result = JBool true
       else resp = mkResponse 500 (JObj [
                     ("success", JBool false);
                     ("error", JStr (message noToLowerCase)) ])) /\
  (forall data,
     exists resp s',
       generateResumeRoute [] data s = (inr resp, s') /\
       (resumeServable data = true -> exists result, resp = mkResponse 200 result) /\
       (resumeServable data = false ->
        cache (svc s) !! getCacheKey data = None ->
        unavailableAt s \/ remoteFails (remote (world s)) ->
        resp = mkResponse 500 (JObj [("error", JStr (message noToLowerCase))]))).
Proof.
  split; [|split].
  - intros data. unfold generateProfileSummaryRoute, try_catch. simpl (negb (isEmpty _)). cbv iota.
    destruct (generateProfileSummary_cases data s) as (v & s' & E & V & _).
    unfold bind. rewrite E.
    destruct V as [->|[text ->]]; eexists; eexists; split; reflexivity.
  - intros sections context. unfold enhanceSectionsRoute, try_catch.
    simpl (negb (isEmpty _)). cbv iota.
    destruct (enhanceMultipleSections_local sections context s) as (s' & E).
    unfold bind. rewrite E.
    destruct (sectionsServable sections) eqn:S.
    + destruct (enhanceSectionsLocally_returns sections context S) as (v & R).
      rewrite R.
      destruct (enhanceSectionsLocally_inr sections context v R) as (g & _ & ->).
      eexists. eexists. split; [reflexivity|]. eexists. split; reflexivity.
    + rewrite (enhanceSectionsLocally_throws sections context S).
      eexists. eexists. split; reflexivity.
  - intros data. unfold generateResumeRoute, try_catch. simpl (negb (isEmpty _)). cbv iota.
    destruct (generateResumeContent_stores data s) as (r & s' & E & _ & _ & X & L).
    unfold bind. rewrite E.
    destruct r as [e|v].
    + eexists. eexists. split; [reflexivity|]. split.
      * intros S. destruct (enhanceContentLocally_returns data S) as (v & R).
        rewrite (X e eq_refl) in R. discriminate.
      * intros S _ _. pose proof (X e eq_refl) as R.
        rewrite (enhanceContentLocally_throws data S) in R. injection R as <-.
        reflexivity.
    + eexists. eexists. split; [reflexivity|]. split.
      * intros _. eexists. reflexivity.
      * intros S M F. specialize (L M F).
        rewrite (enhanceContentLocally_throws data S) in L. discriminate.
Qed.

End ReviewAndRoutes.

(** ** Local synthesis: what is generated *)

Lemma getProjectType_cases (projectName : option string) (t : string) :
  getProjectType projectName = inr t ->
  In t ["E-commerce"; "Social Media"; "AI/ML"; "Mobile App"; "Dashboard";
        "Web App"; "General"].
Proof.
  unfold getProjectType, bindE, toLowerCaseOf.
  destruct projectName as [name|]; [|discriminate].
  intros E. injection E as <-.
  repeat match goal with
         | |- context [if ?b then _ else _] => destruct b
         end; simpl; tauto.
Qed.

Lemma getPositionType_cases (position : option string) (t : string) :
  getPositionType position = inr t ->
  In t ["Software Engineer"; "Frontend Developer"; "Backend Developer";
        "Product Manager"; "General"].
Proof.
  unfold getPositionType, bindE, toLowerCaseOf.
  destruct position as [pos|]; [|discriminate].
  intros E. injection E as <-.
  repeat match goal with
         | |- context [if ?b then _ else _] => destruct b
         end; simpl; tauto.
Qed.

Lemma firstn_length_le {A} (n : nat) (l : list A) : (length (firstn n l) <= n)%nat.
Proof. rewrite List.length_firstn. lia. Qed.

Section Generated.
Context `{Runtime}.

Lemma enrichExperience_filled (skills : option Skills.t) (exp exp' : Experience.t) :
  enrichExperience skills exp = inr exp' ->
  experienceFilled skills exp (experienceJs exp').
Proof.
  unfold enrichExperience, bindE.
  destruct (orLE _ _) as [e|l] eqn:O; [discriminate|].
  intros E. injection E as <-.
  unfold experienceFilled. split.
  - unfold field, experienceJs, getProp. simpl.
    rewrite !assoc_optS_skip by reflexivity.
    destruct (Experience.description exp); simpl; apply filledL_orLE; exact O.
  - destruct exp as [company position location startDate endDate description achievements].
    destruct company, position, location, startDate, endDate, description;
      repeat split; reflexivity.
Qed.

Lemma experiences_filled (skills : option Skills.t) (l : list Experience.t)
  (items : list JsVal) :
  mapE (fun exp => let+ exp' := enrichExperience skills exp in inr (experienceJs exp')) l
    = inr items ->
  Forall2 (experienceFilled skills) l items.
Proof.
  intros M. apply mapE_inr in M.
  eapply Forall2_impl_pair; [|exact M]. intros exp out. unfold bindE.
  destruct (enrichExperience skills exp) as [e|exp'] eqn:E; [discriminate|].
  intros J. injection J as <-. apply enrichExperience_filled. exact E.
Qed.

(** X20.  The lists that the local synthesis engine generates are never
    empty and are bounded: a project gets exactly three outcomes, an
    experience three or four achievements, an education entry between one
    and four achievements, the last of which is the generic one, and a
    resume between one and three improvement hints.  The outcomes of a
    project and the achievements of an experience are generated from its
    name and its position: the generator throws when, and only when, that
    is missing. *)
Theorem generated_lists_are_bounded :
  (forall proj,
     match generateProjectOutcomes proj with
     | inr l => length l = 3%nat /\ Project.name proj <> None
     | inl e => e = noToLowerCase /\ Project.name proj = None
     end) /\
  (forall exp skills,
     match generateExperienceAchievements exp skills with
     | inr l => (3 <= length l <= 4)%nat /\ Experience.position exp <> None
     | inl e => e = noToLowerCase /\ Experience.position exp = None
     end) /\
  (forall edu,
     (1 <= length (generateEducationAchievements edu) <= 4)%nat /\
     List.last (generateEducationAchievements edu) ""
     = "Successfully completed academic program with strong performance") /\
  (forall personalInfo skills experience isFresher role,
     (1 <= length (generateImprovements personalInfo skills experience
                     isFresher role) <= 3)%nat).
Proof.
  split; [|split; [|split]].
  - intros proj. unfold generateProjectOutcomes, bindE.
    destruct (Project.name proj) as [name|] eqn:N; [|split; reflexivity].
    destruct (getProjectType (Some name)) as [e|t] eqn:T;
      [unfold getProjectType in T; discriminate|].
    split; [|discriminate].
    pose proof (getProjectType_cases _ _ T) as C. simpl in C.
    destruct C as [<-|[<-|[<-|[<-|[<-|[<-|[<-|[]]]]]]]]; reflexivity.
  - intros exp skills. unfold generateExperienceAchievements, bindE.
    destruct (Experience.position exp) as [position|] eqn:N; [|split; reflexivity].
    destruct (getPositionType (Some position)) as [e|t] eqn:T;
      [unfold getPositionType in T; discriminate|].
    split; [|discriminate].
    pose proof (getPositionType_cases _ _ T) as C. simpl in C.
    destruct C as [<-|[<-|[<-|[<-|[<-|[]]]]]]; simpl; lia.
  - intros edu. unfold generateEducationAchievements.
    repeat match goal with
           | |- context [if ?b then _ else _] => destruct b
           end; simpl; split; (lia || reflexivity).
  - intros personalInfo skills experience isFresher role.
    unfold generateImprovements, slice0.
    destruct (negb (truthyS (summaryOf personalInfo)));
      destruct (technicalOf skills) as [l|];
      try destruct (length l <? 5)%nat;
      destruct (isFresher && negb (nonEmpty experience)); simpl; lia.
Qed.

(** X21.  The parts of the local result that the gap-filling of
    projects, achievements and education does not cover, for a request
    that the local engine can serve.  The summary is the caller's when it
    is not empty and the generated one otherwise.  An objective is present
    for freshers only.  For a fresher the experience section is emptied,
    whatever the request holds; otherwise every experience entry is kept,
    in order and with all its fields, and gets generated achievements only
    when it has none.  The technical skills and the languages are copied,
    and the certifications are empty.  (The role is a key that the tables
    of summaries resolve among their own keys.) *)
Theorem local_result_sections (data : ResumeData) :
  plainKey (roleApplyingFor data) ->
  resumeServable data = true ->
  exists result,
    enhanceContentLocally data = inr result /\
    let generated := field "generatedContent" result in
    let effectiveRole := orS (roleApplyingFor data) "Professional" in
    filledS (summaryOf (personalInfo data))
            (inr (generateSummary (personalInfo data) (skills data)
                    (experience data) (isFresher data) (Some effectiveRole)))
            (field "summary" (field "personalInfo" generated)) /\
    (shape (field "objective" (field "personalInfo" generated))
     = if isFresher data then ShString else ShUndefined) /\
    (if isFresher data
     then field "experience" generated = JArr []
     else itemsFilled (experienceFilled (skills data))
            (orL (experience data) []) (field "experience" generated)) /\
    field "technical" (field "skills" generated)
    = JStrs (orL (technicalOf (skills data)) []) /\
    field "language" (field "skills" generated)
    = JStrs (orL (match skills data with
                  | Some s => Skills.languages s
                  | None => None
                  end) []) /\
    field "certifications" generated = JArr [].
Proof.
  intros _ S.
  destruct (enhanceContentLocally_returns data S) as (result & R).
  exists result. split; [exact R|].
  destruct (enhanceContentLocally_inr data result R) as (g & G & ->).
  destruct (enhancedContentOf_inr data g G) as (xs & ps & as' & X & _ & _ & ->).
  intros generated effectiveRole. subst generated effectiveRole.
  split; [|split; [|split; [|split; [|split]]]].
  - apply filledS_orS.
  - change (field "objective" _)
      with (if isFresher data
            then JStr (generateObjective (personalInfo data) (education data)
                         (skills data)
                         (Some (orS (roleApplyingFor data) "Professional")))
            else JUndef).
    destruct (isFresher data); reflexivity.
  - change (field "experience" _) with (JArr xs).
    destruct (isFresher data); [injection X as <-; reflexivity|].
    exists xs. split; [reflexivity|]. apply experiences_filled. exact X.
  - reflexivity.
  - reflexivity.
  - reflexivity.
Qed.

End Generated.

(** ** Local ATS scoring: completeness, keywords and lists *)

(** X22.  The completeness of a resume is a ratio between 0 and 1 (in
    binary64 arithmetic, as the source computes it): it is 0 for a
    resume without any section and 1 when every section is present. *)
Theorem completeness_is_a_ratio (resumeData : ResumeData) :
  PrimFloat.leb 0 (calculateResumeCompleteness resumeData) = true /\
  PrimFloat.leb (calculateResumeCompleteness resumeData) 1 = true /\
  (personalInfo resumeData = None ->
   nonEmpty (education resumeData) = false ->
   nonEmpty (experience resumeData) = false ->
   nonEmpty (technicalOf (skills resumeData)) = false ->
   nonEmpty (projects resumeData) = false ->
   nonEmpty (achievements resumeData) = false ->
   calculateResumeCompleteness resumeData = 0%float) /\
  (forall p,
     personalInfo resumeData = Some p ->
     truthyS (PersonalInfo.summary p) = true ->
     truthyS (PersonalInfo.email p) = true ->
     truthyS (PersonalInfo.phone p) = true ->
     nonEmpty (education resumeData) = true ->
     nonEmpty (experience resumeData) = true ->
     nonEmpty (technicalOf (skills resumeData)) = true ->
     nonEmpty (projects resumeData) = true ->
     nonEmpty (achievements resumeData) = true ->
     calculateResumeCompleteness resumeData = 1%float).
Proof.
  split; [|split; [|split]].
  1, 2: unfold calculateResumeCompleteness;
    destruct (personalInfo resumeData) as [p|];
    repeat match goal with
           | |- context [if ?b then _ else _] => destruct b
           end; vm_compute; reflexivity.
  - intros P E X T J A. unfold calculateResumeCompleteness.
    rewrite P, E, X, T, J, A. vm_compute. reflexivity.
  - intros p P S E Ph Ed X T J A. unfold calculateResumeCompleteness.
    rewrite P, S, E, Ph, Ed, X, T, J, A. vm_compute. reflexivity.
Qed.

Lemma lower_idempotent c : lower (lower c) = lower c.
Proof. destruct c as [[|] [|] [|] [|] [|] [|] [|] [|]]; vm_compute; reflexivity. Qed.

Lemma toLowerCase_idempotent (s : string) :
  toLowerCase (toLowerCase s) = toLowerCase s.
Proof.
  unfold toLowerCase. rewrite chars_str, List.map_map. f_equal.
  apply List.map_ext. intros c. apply lower_idempotent.
Qed.

Lemma lowered_fixed (w : string) : lowered (chars w) -> toLowerCase w = w.
Proof.
  intros L. unfold toLowerCase.
  replace (map lower (chars w)) with (chars w); [apply str_chars|].
  induction L as [|c l Hc Hl IH]; [reflexivity|].
  simpl. rewrite Hc. f_equal. exact IH.
Qed.

Lemma splitWs_lowered (l : list ascii) :
  lowered l -> forall cur, lowered cur ->
    Forall (fun w => toLowerCase w = w) (splitWs cur l).
Proof.
  induction 1 as [|c l Hc Hl IH]; intros cur C.
  - simpl. destruct cur; constructor; [|constructor].
    apply lowered_fixed. rewrite chars_str. apply List.Forall_rev. exact C.
  - cbn [splitWs]. destruct (is_ws c).
    + destruct cur; [apply IH; constructor|].
      constructor; [|apply IH; constructor].
      apply lowered_fixed. rewrite chars_str. apply List.Forall_rev. exact C.
    + apply IH. constructor; assumption.
Qed.

Lemma memS_In (x : string) (l : list string) : memS x l = true <-> In x l.
Proof.
  unfold memS. rewrite existsb_exists. split.
  - intros (y & I & E). apply String.eqb_eq in E. subst. exact I.
  - intros I. exists x. split; [exact I | apply String.eqb_refl].
Qed.

Lemma memS_false (x : string) (l : list string) : memS x l = false <-> ~ In x l.
Proof.
  rewrite <- memS_In. destruct (memS x l); split; congruence.
Qed.

Lemma setAdd_NoDup (s : list string) (x : string) :
  List.NoDup s -> List.NoDup (setAdd s x).
Proof.
  intros N. unfold setAdd. destruct (memS x s) eqn:M; [exact N|].
  apply memS_false in M.
  apply List.NoDup_rev in N. rewrite <- (List.rev_involutive (s ++ [x])).
  apply List.NoDup_rev. rewrite List.rev_app_distr. simpl.
  constructor; [|exact N]. rewrite <- List.in_rev. exact M.
Qed.

Lemma setAdd_In (s : list string) (x y : string) :
  In y (setAdd s x) <-> In y s \/ y = x.
Proof.
  unfold setAdd. destruct (memS x s) eqn:M.
  - apply memS_In in M. split; [auto|]. intros [I| ->]; assumption.
  - rewrite List.in_app_iff. simpl. intuition.
Qed.

(** A set built by insertions [step]. *)
Lemma fold_setAdd {A} (P : string -> Prop) (step : list string -> A -> list string)
  (l : list A) :
  (forall ks a, List.NoDup ks -> List.NoDup (step ks a)) ->
  (forall ks a, Forall P ks -> In a l -> Forall P (step ks a)) ->
  forall ks, List.NoDup ks -> Forall P ks ->
    List.NoDup (fold_left step l ks) /\ Forall P (fold_left step l ks).
Proof.
  intros SN SP. induction l as [|a l IH]; intros ks N F; [auto|].
  simpl. apply IH.
  - intros ks' a' F' I. apply SP; [exact F' | right; exact I].
  - apply SN. exact N.
  - apply SP; [exact F | left; reflexivity].
Qed.

Lemma Forall_setAdd (P : string -> Prop) (ks : list string) (x : string) :
  Forall P ks -> P x -> Forall P (setAdd ks x).
Proof.
  intros F Px. unfold setAdd. destruct (memS x ks); [exact F|].
  apply List.Forall_app. split; [exact F|]. constructor; [exact Px | constructor].
Qed.

Lemma fold_skills_In (l : list string) :
  forall ks k,
    In k (fold_left (fun ks skill => setAdd ks (toLowerCase skill)) l ks) <->
    In k ks \/ In k (map toLowerCase l).
Proof.
  induction l as [|a l IH]; intros ks k; simpl; [tauto|].
  rewrite IH, setAdd_In. intuition.
Qed.

Lemma extractKeywords_set (resumeData : ResumeData) :
  List.NoDup (extractKeywords resumeData) /\
  Forall (fun k => toLowerCase k = k) (extractKeywords resumeData) /\
  Forall (fun skill => In (toLowerCase skill) (extractKeywords resumeData))
         (orL (technicalOf (skills resumeData)) []).
Proof.
  unfold extractKeywords.
  set (summaryKeywords :=
         if truthyS (summaryOf (personalInfo resumeData)) then _ else []).
  assert (S : List.NoDup summaryKeywords /\
              Forall (fun k => toLowerCase k = k) summaryKeywords).
  { unfold summaryKeywords.
    destruct (truthyS _); [|split; constructor].
    set (text := showS _).
    pose proof (splitWs_lowered (chars (toLowerCase text))) as W.
    assert (L : lowered (chars (toLowerCase text))).
    { unfold toLowerCase. rewrite chars_str. apply List.Forall_forall.
      intros c I. apply List.in_map_iff in I. destruct I as (d & <- & _).
      apply lower_idempotent. }
    specialize (W L [] ltac:(constructor)).
    revert W. generalize (splitWs [] (chars (toLowerCase text))). intros ws W.
    apply fold_setAdd; try constructor.
    - intros ks a N. destruct (_ <? _)%nat; [apply setAdd_NoDup|]; exact N.
    - intros ks a F I. destruct (_ <? _)%nat; [|exact F].
      apply Forall_setAdd; [exact F|].
      rewrite List.Forall_forall in W. apply W. exact I. }
  destruct S as [SN SL].
  destruct (technicalOf (skills resumeData)) as [l|]; [|repeat split; auto; constructor].
  destruct (fold_setAdd (fun k => toLowerCase k = k)
              (fun ks skill => setAdd ks (toLowerCase skill)) l) with (ks := summaryKeywords)
    as [N F]; auto.
  - intros ks a. apply setAdd_NoDup.
  - intros ks a Fk _. apply Forall_setAdd; [exact Fk|]. apply toLowerCase_idempotent.
  - split; [exact N|]. split; [exact F|].
    apply List.Forall_forall. intros skill I. simpl in I.
    apply fold_skills_In. right. apply List.in_map. exact I.
Qed.

(** X23.  The keywords extracted from a resume form a set of lower-case
    words: no keyword occurs twice, every keyword is its own lower-case
    form, every technical skill of the resume is among them in lower case,
    and every keyword is such a skill or a word of more than three
    characters. *)
Theorem extracted_keywords_form_a_set (resumeData : ResumeData) :
  List.NoDup (extractKeywords resumeData) /\
  Forall (fun k => toLowerCase k = k) (extractKeywords resumeData) /\
  Forall (fun skill => In (toLowerCase skill) (extractKeywords resumeData))
         (orL (technicalOf (skills resumeData)) []) /\
  Forall (fun k => (3 < String.length k)%nat \/
                   In k (map toLowerCase (orL (technicalOf (skills resumeData)) [])))
         (extractKeywords resumeData).
Proof.
  destruct (extractKeywords_set resumeData) as (N & L & S).
  split; [exact N|]. split; [exact L|]. split; [exact S|].
  unfold extractKeywords.
  set (P := fun k => (3 < String.length k)%nat \/
                     In k (map toLowerCase (orL (technicalOf (skills resumeData)) []))).
  set (summaryKeywords :=
         if truthyS (summaryOf (personalInfo resumeData)) then _ else []).
  assert (F : Forall P summaryKeywords).
  { unfold summaryKeywords. destruct (truthyS _); [|constructor].
    apply (fold_setAdd P); try constructor.
    - intros ks a Nk. destruct (_ <? _)%nat; [apply setAdd_NoDup|]; exact Nk.
    - intros ks a Fk _. destruct (3 <? String.length a)%nat eqn:E; [|exact Fk].
      apply Forall_setAdd; [exact Fk|]. left. apply Nat.ltb_lt. exact E. }
  destruct (technicalOf (skills resumeData)) as [l|]; [|exact F].
  apply (fold_setAdd P (fun ks skill => setAdd ks (toLowerCase skill)) l)
    with (ks := summaryKeywords); auto.
  - intros ks a. apply setAdd_NoDup.
  - intros ks a Fk I. apply Forall_setAdd; [exact Fk|].
    right. apply List.in_map. exact I.
  - unfold summaryKeywords. destruct (truthyS _); [|constructor].
    apply (fold_setAdd (fun _ => True)); try constructor.
    + intros ks a Nk. destruct (_ <? _)%nat; [apply setAdd_NoDup|]; exact Nk.
    + intros ks a Fk _. destruct (_ <? _)%nat; [|exact Fk].
      apply Forall_setAdd; [exact Fk | exact I].
Qed.

Lemma Forall_filter {A} (P : A -> Prop) (f : A -> bool) (l : list A) :
  (forall x, In x l -> f x = true -> P x) -> Forall P (List.filter f l).
Proof.
  intros F. apply List.Forall_forall. intros x I.
  apply List.filter_In in I. destruct I as [I E]. auto.
Qed.

Lemma map_fixed {A} (f : A -> A) (l : list A) :
  Forall (fun x => f x = x) l -> map f l = l.
Proof.
  induction 1 as [|x l Hx Hl IH]; [reflexivity|].
  simpl. rewrite Hx, IH. reflexivity.
Qed.

(** The keywords that a role is expected to show are written in lower
    case. *)
Lemma getMissingKeywords_absent (role : option string)
  (keywords missing : list string) :
  Forall (fun k => toLowerCase k = k) keywords ->
  getMissingKeywords role keywords = inr missing ->
  Forall (fun k => ~ In k keywords) missing.
Proof.
  intros L. unfold getMissingKeywords. rewrite (map_fixed _ _ L).
  assert (Fil : forall expected,
    Forall (fun k => toLowerCase k = k) expected ->
    Forall (fun k => ~ In k keywords)
           (List.filter (fun keyword => negb (memS (toLowerCase keyword) keywords))
                        expected)).
  { intros expected E. apply Forall_filter. intros k I M.
    rewrite List.Forall_forall in E. rewrite (E k I) in M.
    apply memS_false. destruct (memS k keywords); [discriminate | reflexivity]. }
  unfold lookup. destruct role as [r|]; cbn [lookupKey].
  - repeat match goal with
           | |- context [if String.eqb r ?k then _ else _] =>
               destruct (String.eqb r k)
           end;
      try destruct (memS r inheritedKeys);
      intros E; try discriminate;
      apply (inr_inj JsError) in E; subst missing; apply Fil; repeat constructor.
  - intros E. apply (inr_inj JsError) in E. subst missing. apply Fil.
    repeat constructor.
Qed.

Lemma firstn_In_list {A} (n : nat) (l : list A) (x : A) :
  In x (firstn n l) -> In x l.
Proof.
  revert l. induction n as [|n IH]; intros l I; [contradiction|].
  destruct l as [|y l]; [contradiction|].
  simpl in I. destruct I as [->|I]; [left; reflexivity | right; apply IH; exact I].
Qed.

Section LocalLists.
Context `{Runtime}.

(** X24.  The lists of a local ATS result, which exists when the target
    role is a key that the table of expected keywords resolves among its
    own keys.  The matched keywords are the first five extracted keywords,
    the missing keywords are at most five and none of them is a keyword of
    the resume, and there are at most three suggestions.  The result is
    stamped with the time of the call and tagged as local. *)
Theorem local_ats_lists (rnd : Q) (now : Z) (resumeData : ResumeData)
  (options : ATSOptions) :
  plainKey (targetRole options) ->
  exists v matched missing suggestions,
    computeATSScoreLocally rnd now resumeData options = inr v /\
    field "keywordsMatched" v = JStrs matched /\
    field "keywordsMissing" v = JStrs missing /\
    field "suggestions" v = JStrs suggestions /\
    matched = firstn 5 (extractKeywords resumeData) /\
    (length missing <= 5)%nat /\
    Forall (fun k => ~ In k (extractKeywords resumeData)) missing /\
    (length suggestions <= 3)%nat /\
    field "lastComputedAt" v = JStr (toISOString now) /\
    field "computationMethod" v = JStr "local".
Proof.
  intros P.
  destruct (computeATSScoreLocally_returns rnd now resumeData options P) as (v & R).
  destruct (computeATSScoreLocally_inr _ _ _ _ _ R) as (sm & ms & G & ->).
  eexists. eexists. eexists. eexists. split; [exact R|].
  split; [reflexivity|]. split; [reflexivity|]. split; [reflexivity|].
  split; [reflexivity|]. split; [apply firstn_length_le|].
  split; [|split; [apply firstn_length_le | split; reflexivity]].
  destruct (extractKeywords_set resumeData) as (_ & L & _).
  pose proof (getMissingKeywords_absent (targetRole options) _ _ L G) as M.
  unfold slice0. rewrite List.Forall_forall in *.
  intros k I. apply M. eapply firstn_In_list. exact I.
Qed.

End LocalLists.

(** ** Normalisation of the AI answer *)

Lemma normalizeScore_idempotent (v : JsVal) :
  normalizeScore (normalizeScore v) = normalizeScore v.
Proof.
  destruct v; try reflexivity. simpl. rewrite round_integer.
  do 2 f_equal. lia.
Qed.

Lemma js_or_idempotent (a : JsVal) :
  js_or (js_or a (JStr "")) (JStr "") = js_or a (JStr "").
Proof. unfold js_or. destruct (truthy a) eqn:T; [rewrite T|]; reflexivity. Qed.

Lemma arrayOrEmpty_idempotent (v : JsVal) :
  arrayOrEmpty (arrayOrEmpty v) = arrayOrEmpty v.
Proof. destruct v; reflexivity. Qed.

(** X25.  Normalisation of the AI answer is idempotent, and it fails
    only on [null]: a normalised result is its own normal form. *)
Theorem normalization_is_idempotent (parsed : JsVal) :
  match normalizeATS parsed with
  | inr v => normalizeATS v = inr v
  | inl _ => parsed = JNull \/ parsed = JUndef
  end.
Proof.
  destruct (normalizeATS parsed) as [e|v] eqn:N.
  - destruct parsed; try discriminate; auto.
  - apply normalizeATS_inr in N. subst v.
    rewrite normalizeATS_value by discriminate.
    unfold field. simpl.
    rewrite normalizeScore_idempotent, js_or_idempotent, !arrayOrEmpty_idempotent.
    reflexivity.
Qed.

(** ** An open breaker stays open *)

Section NeverProbed.
Context `{Runtime}.

Lemma isAvailable_open (s : St) :
  circuitState (svc s) = OPEN -> isAvailable s = (inr false, s).
Proof.
  intros C. unfold isAvailable. run.
  destruct (genAI (svc s)); [rewrite C|]; reflexivity.
Qed.

(** X26.  Once the breaker is OPEN, no operation of the service probes
    the remote model again, however much time has passed: the
    availability check answers false while the state is OPEN, so every
    operation takes its local path and never enters [withCircuitBreaker],
    where alone an OPEN breaker becomes HALF-OPEN.  Profile-summary
    generation returns its local result, multi-section enhancement ends
    as the local engine does (with its result, or with the error it
    throws) and section enhancement returns its failure, all with the
    state unchanged; ATS scoring and resume-content generation make no
    remote call and leave the breaker as it is. *)
Theorem open_breaker_is_never_probed (s : St) :
  circuitState (svc s) = OPEN ->
  isAvailable s = (inr false, s) /\
  (forall data,
     generateProfileSummary data s
     = (inr (generateProfileSummaryLocally data), s)) /\
  (forall sections context,
     enhanceMultipleSections sections context s
     = (enhanceSectionsLocally sections context, s)) /\
  (forall section content,
     enhanceSection section content s = (inr notAvailable, s)) /\
  (forall resumeData options,
     let s' := snd (computeATSScore resumeData options s) in
     svc s' = svc s /\ remoteCalls (world s') = remoteCalls (world s)) /\
  (forall data,
     let s' := snd (generateResumeContent data s) in
     breakerOf (svc s') = breakerOf (svc s) /\
     remoteCalls (world s') = remoteCalls (world s)).
Proof.
  intros C. pose proof (isAvailable_open s C) as Av.
  split; [exact Av|]. split; [|split; [|split; [|split]]].
  - intros data. unfold generateProfileSummary.
    unfold bind at 1. rewrite Av. reflexivity.
  - intros sections context. unfold enhanceMultipleSections.
    unfold bind at 1. rewrite Av. change (negb false) with true. cbv iota.
    apply liftE_run.
  - intros section content. unfold enhanceSection.
    unfold bind at 1. rewrite Av. reflexivity.
  - intros resumeData options. cbv zeta.
    assert (E : computeATSScore resumeData options s
                = (computeATSScoreLocally
                     (random (world s) (randomDraws (world s)))
                     (clock (world s)) resumeData options,
                   mkSt (svc s) (drawn (world s)))).
    { unfold computeATSScore.
      unfold bind at 1, try_catch at 1, bind at 1. rewrite Av.
      change (false && _) with false. cbv iota.
      unfold ret at 1. cbv iota beta.
      unfold bind at 1, Math_random at 1. cbv iota beta.
      unfold bind at 1, Date_now at 1. cbv iota beta.
      apply liftE_run. }
    rewrite E. split; reflexivity.
  - intros data. cbv zeta.
    assert (E : generateResumeContent data s
                = match cache (svc s) !! getCacheKey data with
                  | Some cached => (inr cached, s)
                  | None =>
                      (enhanceContentLocally data,
                       match enhanceContentLocally data with
                       | inr v =>
                           mkSt (set_cache (svc s)
                                   (<[getCacheKey data := v]> (cache (svc s))))
                                (world s)
                       | inl _ => s
                       end)
                  end).
    { unfold generateResumeContent.
      unfold bind at 1, this at 1. cbv iota beta zeta.
      destruct (cache (svc s) !! getCacheKey data) as [cached|]; [reflexivity|].
      unfold bind at 1, try_catch at 1, bind at 1. rewrite Av.
      change (false && _) with false. cbv iota.
      unfold ret at 1. cbv iota beta.
      apply resume_local_path. }
    rewrite E.
    destruct (cache (svc s) !! getCacheKey data); [split; reflexivity|].
    destruct (enhanceContentLocally data); split; reflexivity.
Qed.

End NeverProbed.

(** ** Who reserves a slot of the quota *)

Lemma governs_ret {A} (x : A) : keepsGovernor (ret x).
Proof. intros s r s' E. injection E as _ <-. reflexivity. Qed.

Lemma governs_throw {A} (e : JsError) : keepsGovernor (@throw A e).
Proof. intros s r s' E. injection E as _ <-. reflexivity. Qed.

Lemma governs_liftE {A} (r : JsError + A) : keepsGovernor (liftE r).
Proof. destruct r; [apply governs_throw | apply governs_ret]. Qed.

Lemma governs_bind {A B} (m : M A) (k : A -> M B) :
  keepsGovernor m -> (forall x, keepsGovernor (k x)) -> keepsGovernor (bind m k).
Proof.
  intros Hm Hk s r s'. unfold bind.
  destruct (m s) as [[e|x] s1] eqn:E; apply Hm in E.
  - intros R. injection R as _ <-. exact E.
  - intros R. apply Hk in R. congruence.
Qed.

Lemma governs_try {A} (m : M A) (h : JsError -> M A) :
  keepsGovernor m -> (forall e, keepsGovernor (h e)) ->
  keepsGovernor (try_catch m h).
Proof.
  intros Hm Hh s r s'. unfold try_catch.
  destruct (m s) as [[e|x] s1] eqn:E; apply Hm in E.
  - intros R. apply Hh in R. congruence.
  - intros R. injection R as _ <-. exact E.
Qed.

Lemma governs_service {A} (m : M A) :
  (forall s r s', m s = (r, s') -> svc s' = svc s) -> keepsGovernor m.
Proof. intros K s r s' E. apply K in E. rewrite E. reflexivity. Qed.

Lemma governs_breaker_entry {A} (fn : M A) (s s' : St) (r : JsError + A) :
  circuitState (svc s) <> OPEN -> keepsGovernor fn ->
  withCircuitBreaker fn s = (r, s') ->
  governorOf (svc s') = governorOf (svc s).
Proof.
  intros N F E.
  destruct (fn s) as [[e|x] s1] eqn:Fn.
  - rewrite (wcb_failure fn s s1 e N Fn) in E. injection E as _ <-.
    destruct (recordFailure_effect s1) as (_ & _ & G & _).
    rewrite G. exact (F _ _ _ Fn).
  - rewrite (wcb_success fn s s1 x N Fn) in E. injection E as _ <-.
    destruct (CircuitState_eqb _ _); exact (F _ _ _ Fn).
Qed.

Lemma governs_withCircuitBreaker {A} (fn : M A) :
  keepsGovernor fn -> keepsGovernor (withCircuitBreaker fn).
Proof.
  intros F s r s' E.
  destruct (circuitState (svc s)) eqn:C.
  - apply (governs_breaker_entry fn s s' r); [congruence | exact F | exact E].
  - destruct (Z.le_gt_cases (clock (world s)) (nextTry (svc s))) as [T|T].
    + rewrite (breaker_fails_fast fn s C T) in E. injection E as _ <-. reflexivity.
    + rewrite (breaker_entry fn s C T) in E.
      apply governs_breaker_entry in E; [exact E | simpl; discriminate | exact F].
  - apply (governs_breaker_entry fn s s' r); [congruence | exact F | exact E].
Qed.

Lemma governs_retryLoop (attempt : M JsVal) (n : nat) :
  (forall s r s', attempt s = (r, s') -> svc s' = svc s) ->
  keepsGovernor (retryLoop attempt n).
Proof.
  intros A. apply governs_service. apply retryLoop_keeps. exact A.
Qed.

Section Reservations.
Context `{Runtime}.

(** The rest of an operation after its availability check. *)
Lemma after_isAvailable {A} (k : bool -> M A) (s : St) :
  (forall b, keepsGovernor (k b)) ->
  governorOf (svc (snd (bind isAvailable k s)))
  = governorOf (svc (snd (isAvailable s))).
Proof.
  intros K. unfold bind.
  destruct (isAvailable_spec s) as (b & s1 & E & _). rewrite E. simpl.
  destruct (k b s1) as [r s2] eqn:R. apply K in R. exact R.
Qed.

Lemma generateProfileSummary_governor (data : ProfileRequest) (s : St) :
  governorOf (svc (snd (generateProfileSummary data s)))
  = governorOf (svc (snd (isAvailable s))).
Proof.
  unfold generateProfileSummary. apply after_isAvailable. intros b.
  destruct (negb b); [apply governs_ret|].
  apply governs_withCircuitBreaker, governs_try; [|intros e; apply governs_ret].
  apply governs_bind; [|intros text; apply governs_ret].
  apply governs_service. intros s0 r0 s0'. apply generateContent_keeps.
Qed.

Lemma enhanceMultipleSections_governor (sections : Sections)
  (context : SectionsContext) (s : St) :
  governorOf (svc (snd (enhanceMultipleSections sections context s)))
  = governorOf (svc (snd (isAvailable s))).
Proof.
  unfold enhanceMultipleSections. apply after_isAvailable. intros b.
  destruct (negb b); [apply governs_liftE|].
  apply governs_withCircuitBreaker, governs_bind;
    [apply governs_liftE | intros enhancedSections; apply governs_ret].
Qed.

Lemma enhanceSection_governor (section content : string) (s : St) :
  governorOf (svc (snd (enhanceSection section content s)))
  = governorOf (svc (snd (isAvailable s))).
Proof.
  destruct (enhanceSection_outcome section content s) as (v & s' & E & K & _).
  rewrite E. simpl. rewrite K. reflexivity.
Qed.

Lemma computeATSScore_governor (resumeData : ResumeData) (options : ATSOptions)
  (s : St) :
  governorOf (svc (snd (computeATSScore resumeData options s)))
  = governorOf (svc (snd (isAvailable s))).
Proof.
  unfold computeATSScore.
  set (tail := fun attempt : option JsVal => match attempt with
                                             | Some result => ret result
                                             | None => _
                                             end).
  assert (T : forall attempt, keepsGovernor (tail attempt)).
  { intros [result|]; [apply governs_ret|]. unfold tail.
    apply governs_bind;
      [apply governs_service; intros s0 r0 s0' E0; injection E0 as _ <-; reflexivity|].
    intros rnd. apply governs_bind; [|intros now; apply governs_liftE].
    apply governs_service. intros s0 r0 s0' E0. injection E0 as _ <-. reflexivity. }
  unfold bind at 1, try_catch at 1.
  pose proof (after_isAvailable
                (fun available =>
                   let* a := this in
                   if available && negb (CircuitState_eqb (circuitState a) OPEN)
                   then
                     let* result :=
                       withCircuitBreaker (computeATSScoreWithAI resumeData options) in
                     ret (Some result)
                   else ret None) s) as G.
  destruct (bind isAvailable _ s) as [[e|attempt] s1] eqn:E; simpl in G.
  - unfold ret at 1. destruct (tail None s1) as [r s2] eqn:R.
    apply T in R. simpl. rewrite R. apply G.
    intros b. apply governs_bind;
      [apply governs_service; intros s0 r0 s0' E0; injection E0 as _ <-; reflexivity|].
    intros a. destruct (_ && _); [|apply governs_ret].
    apply governs_bind; [|intros result; apply governs_ret].
    apply governs_withCircuitBreaker. unfold computeATSScoreWithAI.
    apply governs_retryLoop. intros s0 r0 s0'. apply atsAttempt_keeps.
  - destruct (tail attempt s1) as [r s2] eqn:R.
    apply T in R. simpl. rewrite R. apply G.
    intros b. apply governs_bind;
      [apply governs_service; intros s0 r0 s0' E0; injection E0 as _ <-; reflexivity|].
    intros a. destruct (_ && _); [|apply governs_ret].
    apply governs_bind; [|intros result; apply governs_ret].
    apply governs_withCircuitBreaker. unfold computeATSScoreWithAI.
    apply governs_retryLoop. intros s0 r0 s0'. apply atsAttempt_keeps.
Qed.

(** X27.  Only resume-content generation reserves a slot of the daily
    quota.  Whatever the remote model does and however many remote calls
    they make, profile-summary generation, multi-section enhancement,
    section enhancement and ATS scoring leave the fields of the governor
    (call counter, time of the last reservation, reset date) as their
    availability check left them, and resume review leaves them as they
    were: their remote calls are gated by the daily limit but never
    counted. *)
Theorem only_resume_generation_reserves (s : St) :
  (forall data,
     governorOf (svc (snd (generateProfileSummary data s)))
     = governorOf (svc (snd (isAvailable s)))) /\
  (forall sections context,
     governorOf (svc (snd (enhanceMultipleSections sections context s)))
     = governorOf (svc (snd (isAvailable s)))) /\
  (forall section content,
     governorOf (svc (snd (enhanceSection section content s)))
     = governorOf (svc (snd (isAvailable s)))) /\
  (forall resumeData options,
     governorOf (svc (snd (computeATSScore resumeData options s)))
     = governorOf (svc (snd (isAvailable s)))) /\
  (forall resumeData jobDescription,
     governorOf (svc (snd (reviewResume resumeData jobDescription s)))
     = governorOf (svc s)).
Proof.
  split; [|split; [|split; [|split]]]; intros.
  - apply generateProfileSummary_governor.
  - apply enhanceMultipleSections_governor.
  - apply enhanceSection_governor.
  - apply computeATSScore_governor.
  - rewrite reviewResume_run.
    destruct (genAI (svc s)); [destruct (nextCall s 0)|]; reflexivity.
Qed.

End Reservations.

(** ** The AI path when the remote model answers *)

Lemma generateContent_in_time (s : St) (d limit : Z) (text msg : string) :
  nextCall s 0 = Respond d text -> d < limit ->
  generateContent (Some (limit, msg)) s
  = (inr text, mkSt (svc s) (advance d (called (world s)))).
Proof.
  unfold nextCall. rewrite Nat.add_0_r. intros R L.
  unfold generateContent. rewrite R.
  destruct (limit <=? d) eqn:E; [apply Z.leb_le in E; lia | reflexivity].
Qed.

Lemma orS_default (o : option string) (d : string) :
  d <> "" -> orS (Some (orS o d)) d = orS o d.
Proof.
  intros N. simpl. destruct (String.eqb (orS o d) "") eqn:E; [|reflexivity].
  apply String.eqb_eq in E. destruct o as [x|]; simpl in *.
  - destruct (String.eqb x "") eqn:X; [congruence|].
    apply String.eqb_neq in X. congruence.
  - congruence.
Qed.

Section AIPath.
Context `{Runtime}.

Lemma profile_answer (data : ProfileRequest) (s : St) (d : Z) (text : string) :
  fst (isAvailable s) = inr true ->
  nextCall s 0 = Respond d text -> d < 15000 ->
  exists s',
    generateProfileSummary data s = (inr (aiProfileSummary data text), s') /\
    remoteCalls (world s') = S (remoteCalls (world s)) /\
    clock (world s') = clock (world s) + d.
Proof.
  intros Av R L.
  destruct (isAvailable_true s Av) as (s1 & E & W & _ & _ & O).
  assert (R1 : nextCall s1 0 = Respond d text)
    by (unfold nextCall; rewrite W; exact R).
  unfold generateProfileSummary. unfold bind at 1. rewrite E.
  change (negb true) with false. cbv beta iota.
  set (fn := try_catch _ _).
  assert (F : fn s1 = (inr (aiProfileSummary data text),
                       mkSt (svc s1) (advance d (called (world s1))))).
  { unfold fn, try_catch, bind.
    rewrite (generateContent_in_time s1 d 15000 text _ R1 L). reflexivity. }
  rewrite (wcb_success fn s1 _ _ O F).
  eexists. split; [reflexivity|].
  simpl. destruct (CircuitState_eqb (circuitState (svc s1)) HALF_OPEN); simpl; rewrite W; auto.
Qed.

Lemma ats_answer (resumeData : ResumeData) (options : ATSOptions) (s : St)
  (d : Z) (text : string) (parsed : JsVal) :
  fst (isAvailable s) = inr true ->
  nextCall s 0 = Respond d text -> d < 15000 ->
  JSON_parse (scrubJsonText (trim text)) = Some parsed ->
  parsed <> JNull -> parsed <> JUndef ->
  exists v s',
    computeATSScore resumeData options s = (inr v, s') /\
    normalizeATS parsed = inr v /\
    remoteCalls (world s') = S (remoteCalls (world s)) /\
    clock (world s') = clock (world s) + d.
Proof.
  intros Av R L P N U.
  destruct (isAvailable_true s Av) as (s1 & E & W & _ & _ & O).
  assert (R1 : nextCall s1 0 = Respond d text)
    by (unfold nextCall; rewrite W; exact R).
  unfold computeATSScore.
  unfold bind at 1, try_catch at 1, bind at 1. rewrite E.
  unfold bind at 1, this at 1.
  assert (Ceq : CircuitState_eqb (circuitState (svc s1)) OPEN = false)
    by (destruct (circuitState (svc s1)); simpl; congruence).
  rewrite Ceq. change (true && negb false) with true. cbv iota.
  pose proof (normalizeATS_value parsed N U) as NV.
  set (v := JObj _) in NV.
  assert (F : computeATSScoreWithAI resumeData options s1
              = (inr v, mkSt (svc s1) (advance d (called (world s1))))).
  { unfold computeATSScoreWithAI. rewrite retryLoop_S.
    unfold try_catch, atsAttempt, bind, parseOrThrow.
    rewrite (generateContent_in_time s1 d 15000 text _ R1 L).
    rewrite P. unfold ret at 1. rewrite NV. reflexivity. }
  unfold bind at 1. rewrite (wcb_success _ s1 _ _ O F).
  unfold ret. exists v. eexists. split; [reflexivity|]. split; [exact NV|].
  simpl. destruct (CircuitState_eqb (circuitState (svc s1)) HALF_OPEN); simpl; rewrite W; auto.
Qed.

Lemma resume_answer (data : ResumeData) (s : St) (d : Z) (text : string)
  (parsed : JsVal) :
  fst (isAvailable s) = inr true ->
  nextCall s 0 = Respond d text -> d < 25000 ->
  JSON_parse (scrubJsonText (trim text)) = Some parsed ->
  personalInfo data <> None ->
  cache (svc s) !! getCacheKey data = None ->
  exists s',
    generateResumeContent data s = (inr (aiResumeContent data parsed), s') /\
    remoteCalls (world s') = S (remoteCalls (world s)) /\
    dailyCallCount (svc s') = dailyCallCount (svc (snd (isAvailable s))) + 1 /\
    cache (svc s') !! getCacheKey data = Some (aiResumeContent data parsed).
Proof.
  intros Av R L P PI Miss.
  destruct (isAvailable_true s Av) as (s1 & E & W & _ & _ & O).
  replace (snd (isAvailable s)) with s1 by (rewrite E; reflexivity).
  destruct (withRateLimit_stamp s1) as (s2 & E2 & _ & _ & D2 & _ & C2).
  destruct (withRateLimit_world s1) as (s2' & E2' & Rm & _).
  rewrite E2 in E2'. injection E2' as <-.
  assert (R2 : nextCall s2 0 = Respond d text).
  { unfold nextCall in *. rewrite Rm, C2, W. exact R. }
  unfold generateResumeContent.
  unfold bind at 1, this at 1. rewrite Miss.
  unfold bind at 1, try_catch at 1, bind at 1. rewrite E.
  unfold bind at 1, this at 1.
  assert (Ceq : CircuitState_eqb (circuitState (svc s1)) OPEN = false)
    by (destruct (circuitState (svc s1)); simpl; congruence).
  rewrite Ceq. change (true && negb false) with true. cbv iota.
  set (fn := bind withRateLimit _).
  assert (F : fn s1 = (inr (aiResumeContent data parsed),
                       mkSt (svc s2) (advance d (called (world s2))))).
  { unfold fn, bind at 1. rewrite E2.
    unfold generateResumeContentWithAI, bind at 1.
    destruct (personalInfo data) as [p|]; [|congruence].
    unfold ret at 1. rewrite retryLoop_S.
    unfold try_catch, resumeAttempt, bind, parseOrThrow.
    rewrite (generateContent_in_time s2 d 25000 text _ R2 L).
    rewrite P. unfold ret, aiResumeContent.
    rewrite orS_default by discriminate. reflexivity. }
  unfold bind at 1. rewrite (wcb_success fn s1 _ _ O F).
  unfold bind, cachePut, update, ret. simpl.
  eexists. split; [reflexivity|].
  destruct (CircuitState_eqb (circuitState (svc s2)) HALF_OPEN); simpl; rewrite C2, W, D2;
    repeat split; auto; apply lookup_insert_eq.
Qed.

(** X28.  The AI path, when the remote path is available and the next
    call of the remote model answers [text] in time.  Profile-summary
    generation returns that text, trimmed, as the summary (and as the
    objective of a fresher).  ATS scoring returns the normalised form of
    the value that the repaired text parses to.  Resume-content
    generation, on a cache miss and for a request with [personalInfo],
    returns that parsed value as [generatedContent], tagged
    [generationMethod: ai], reserves one slot and stores the result in the
    cache.  Each operation makes exactly one remote call. *)
Theorem ai_path_returns_the_answer (s : St) (d : Z) (text : string) :
  fst (isAvailable s) = inr true ->
  nextCall s 0 = Respond d text ->
  d < 15000 ->
  (forall data,
     exists s',
       generateProfileSummary data s = (inr (aiProfileSummary data text), s') /\
       remoteCalls (world s') = S (remoteCalls (world s)) /\
       clock (world s') = clock (world s) + d) /\
  (forall resumeData options parsed,
     JSON_parse (scrubJsonText (trim text)) = Some parsed ->
     parsed <> JNull -> parsed <> JUndef ->
     exists v s',
       computeATSScore resumeData options s = (inr v, s') /\
       normalizeATS parsed = inr v /\
       remoteCalls (world s') = S (remoteCalls (world s)) /\
       clock (world s') = clock (world s) + d) /\
  (forall data parsed,
     JSON_parse (scrubJsonText (trim text)) = Some parsed ->
     personalInfo data <> None ->
     cache (svc s) !! getCacheKey data = None ->
     exists s',
       generateResumeContent data s = (inr (aiResumeContent data parsed), s') /\
       remoteCalls (world s') = S (remoteCalls (world s)) /\
       dailyCallCount (svc s') = dailyCallCount (svc (snd (isAvailable s))) + 1 /\
       cache (svc s') !! getCacheKey data = Some (aiResumeContent data parsed)).
Proof.
  intros Av R L. split; [|split].
  - intros data. apply profile_answer; assumption.
  - intros resumeData options parsed P N U.
    apply (ats_answer resumeData options s d text parsed); assumption.
  - intros data parsed P PI Miss.
    apply (resume_answer data s d text parsed); auto. lia.
Qed.

End AIPath.

(** ** Instances of the further properties *)

Section FurtherExamples.
#[local] Existing Instance exampleRuntime.

(** X1: the probe of a tripped breaker whose remote model answers again
    closes the breaker. *)
Lemma half_open_probe_witness :
  let probe := mkSt (set_circuit (svc trippedState) HALF_OPEN
                                 (failureCount (svc trippedState))
                                 (nextTry (svc trippedState)))
                    (world trippedState) in
  exists s'',
    withCircuitBreaker (generateContent None) trippedState
      = (fst (generateContent None probe), s'') /\
    world s'' = world (snd (generateContent None probe)) /\
    match fst (generateContent None probe) with
    | inr _ =>
        circuitState (svc s'') = CLOSED /\ failureCount (svc s'') = 0
    | inl _ =>
        circuitState (svc s'') = OPEN /\
        failureCount (svc s'') = failureCount (svc trippedState) + 1 /\
        nextTry (svc s'') = clock (world s'') + resetTimeout (svc trippedState)
    end.
Proof.
  apply (half_open_probe (generateContent None) trippedState).
  - apply generateContent_leavesBreaker.
  - reflexivity.
  - vm_compute. reflexivity.
  - vm_compute. discriminate.
Defined.

(** X7: a request without [personalInfo] at a fresh service. *)
Lemma missing_personal_info_witness :
  exists s',
    generateResumeContent resumeWithoutPersonalInfo (freshState true (answering "{}"))
      = (enhanceContentLocally resumeWithoutPersonalInfo, s') /\
    remoteCalls (world s') = remoteCalls (world (freshState true (answering "{}"))) /\
    dailyCallCount (svc s')
      = dailyCallCount (svc (snd (isAvailable (freshState true (answering "{}"))))) + 1 /\
    failureCount (svc s')
      = failureCount (svc (freshState true (answering "{}"))) + 1.
Proof.
  apply (missing_personal_info_is_charged resumeWithoutPersonalInfo
           (freshState true (answering "{}"))).
  - reflexivity.
  - apply lookup_empty.
  - vm_compute. reflexivity.
Defined.

(** X8: ATS scoring at a fresh service whose remote model is overloaded. *)
Lemma failed_scoring_witness :
  exists rnd now v s',
    computeATSScore exampleResume noOptions (freshState true overloaded)
      = (inr v, s') /\
    computeATSScoreLocally rnd now exampleResume noOptions = inr v /\
    remoteCalls (world s')
      = (remoteCalls (world (freshState true overloaded)) + 2)%nat /\
    failureCount (svc s') = failureCount (svc (freshState true overloaded)) + 1 /\
    dailyCallCount (svc s')
      = dailyCallCount (svc (snd (isAvailable (freshState true overloaded)))).
Proof.
  apply (failed_scoring_counts_once exampleResume noOptions
           (freshState true overloaded)).
  - exact I.
  - vm_compute. reflexivity.
  - intros n. exact I.
Defined.

(** X4: the example resume at a fresh service whose remote model is
    overloaded: the local result is stored and replayed. *)
Lemma cached_resume_witness :
  exists v s1,
    generateResumeContent exampleResume (freshState true overloaded) = (inr v, s1) /\
    enhanceContentLocally exampleResume = inr v /\
    cache (svc s1)
    = <[getCacheKey exampleResume := v]> (cache (svc (freshState true overloaded))) /\
    forall (data' : ResumeData) (s2 : St),
      getCacheKey data' = getCacheKey exampleResume ->
      cache (svc s2) = cache (svc s1) ->
      generateResumeContent data' s2 = (inr v, s2).
Proof.
  destruct (generateResumeContent_stores exampleResume (freshState true overloaded))
    as (r & s1 & E & _ & _ & _ & L).
  assert (R : r = enhanceContentLocally exampleResume)
    by (apply L; [apply lookup_empty | right; intros n; exact I]).
  assert (V : exists v, enhanceContentLocally exampleResume = inr v)
    by (eexists; vm_compute; reflexivity).
  destruct V as (v & V). exists v, s1. rewrite R, V in E.
  split; [exact E|]. split; [exact V|].
  exact (cached_resume_is_replayed exampleResume _ s1 (inr v) E).
Defined.

(** X12: a fenced array. *)
Lemma fenced_answer_witness :
  scrubJsonText (fenced "[1]") = scrubJsonText "[1]" /\
  scrubJsonText (fencedTight "[1]") = scrubJsonText "[1]".
Proof.
  apply (fenced_answer_is_unwrapped "[1]"); vm_compute; reflexivity.
Defined.

(** X15: three overloaded calls, with pauses of one and two seconds. *)
Lemma overload_backoff_witness :
  exists s',
    enhanceSection "project" "Built a shop" (freshState true overloaded)
      = (inr (enhanceResult "project"
                (nextCall (freshState true overloaded)
                          (attemptsUsed (freshState true overloaded) - 1))), s') /\
    remoteCalls (world s')
      = (remoteCalls (world (freshState true overloaded))
         + attemptsUsed (freshState true overloaded))%nat /\
    clock (world s')
      = clock (world (freshState true overloaded))
        + attemptsTime (freshState true overloaded).
Proof.
  apply (overload_is_retried_with_backoff "project" "Built a shop"
           (freshState true overloaded)).
  vm_compute. reflexivity.
Defined.

(** The schedule of that example: three calls and 3300 ms. *)
Lemma overload_backoff_schedule :
  attemptsUsed (freshState true overloaded) = 3%nat /\
  attemptsTime (freshState true overloaded) = 3300.
Proof. vm_compute. split; reflexivity. Qed.

(** X21: the example resume, whose role is a plain key. *)
Lemma local_result_sections_witness :
  exists result,
    enhanceContentLocally exampleResume = inr result /\
    let generated := field "generatedContent" result in
    let effectiveRole := orS (roleApplyingFor exampleResume) "Professional" in
    filledS (summaryOf (personalInfo exampleResume))
            (inr (generateSummary (personalInfo exampleResume) (skills exampleResume)
                    (experience exampleResume) (isFresher exampleResume)
                    (Some effectiveRole)))
            (field "summary" (field "personalInfo" generated)) /\
    (shape (field "objective" (field "personalInfo" generated))
     = if isFresher exampleResume then ShString else ShUndefined) /\
    (if isFresher exampleResume
     then field "experience" generated = JArr []
     else itemsFilled (experienceFilled (skills exampleResume))
            (orL (experience exampleResume) []) (field "experience" generated)) /\
    field "technical" (field "skills" generated)
    = JStrs (orL (technicalOf (skills exampleResume)) []) /\
    field "language" (field "skills" generated)
    = JStrs (orL (match skills exampleResume with
                  | Some s => Skills.languages s
                  | None => None
                  end) []) /\
    field "certifications" generated = JArr [].
Proof.
  apply (local_result_sections exampleResume); vm_compute; reflexivity.
Defined.

(** X24: the lists of the local score of the example resume. *)
Lemma local_ats_lists_witness :
  exists v matched missing suggestions,
    computeATSScoreLocally (1 # 2) 1000000 exampleResume
      (mkATSOptions (Some "Frontend Developer") None) = inr v /\
    field "keywordsMatched" v = JStrs matched /\
    field "keywordsMissing" v = JStrs missing /\
    field "suggestions" v = JStrs suggestions /\
    matched = firstn 5 (extractKeywords exampleResume) /\
    (length missing <= 5)%nat /\
    Forall (fun k => ~ In k (extractKeywords exampleResume)) missing /\
    (length suggestions <= 3)%nat /\
    field "lastComputedAt" v = JStr (toISOString 1000000) /\
    field "computationMethod" v = JStr "local".
Proof.
  apply (local_ats_lists (1 # 2) 1000000 exampleResume
           (mkATSOptions (Some "Frontend Developer") None)).
  vm_compute. reflexivity.
Defined.

(** X26: the tripped breaker, one second after its cool-down ended. *)
Lemma never_probed_witness :
  nextTry (svc trippedState) < clock (world trippedState) /\
  isAvailable trippedState = (inr false, trippedState) /\
  (forall data,
     generateProfileSummary data trippedState
     = (inr (generateProfileSummaryLocally data), trippedState)) /\
  (forall sections context,
     enhanceMultipleSections sections context trippedState
     = (enhanceSectionsLocally sections context, trippedState)) /\
  (forall section content,
     enhanceSection section content trippedState = (inr notAvailable, trippedState)) /\
  (forall resumeData options,
     let s' := snd (computeATSScore resumeData options trippedState) in
     svc s' = svc trippedState /\
     remoteCalls (world s') = remoteCalls (world trippedState)) /\
  (forall data,
     let s' := snd (generateResumeContent data trippedState) in
     breakerOf (svc s') = breakerOf (svc trippedState) /\
     remoteCalls (world s') = remoteCalls (world trippedState)).
Proof.
  split; [vm_compute; reflexivity|].
  apply (open_breaker_is_never_probed trippedState). reflexivity.
Defined.

(** X28: resume-content generation at a fresh service whose remote model
    answers the empty object. *)
Lemma ai_path_witness :
  exists s',
    generateResumeContent exampleResume (freshState true (answering "{}"))
      = (inr (aiResumeContent exampleResume (JObj [])), s') /\
    remoteCalls (world s')
      = S (remoteCalls (world (freshState true (answering "{}")))) /\
    dailyCallCount (svc s')
      = dailyCallCount (svc (snd (isAvailable (freshState true (answering "{}"))))) + 1 /\
    cache (svc s') !! @getCacheKey exampleResume
      = Some (aiResumeContent exampleResume (JObj [])).
Proof.
  refine (proj2 (proj2 (ai_path_returns_the_answer
                          (freshState true (answering "{}")) 100 "{}" _ _ _))
            exampleResume (JObj []) _ _ _).
  - vm_compute. reflexivity.
  - reflexivity.
  - lia.
  - vm_compute. reflexivity.
  - discriminate.
  - apply lookup_empty.
Defined.

End FurtherExamples.
